(** * Target Value Finder: the matching engine of [app.py]

    A shallow embedding of the search core of [app.py]
    ([find_subsets], [find_subset_sum], [find_subset_difference],
    [find_subset_product], [find_subset_quotient], [reconstruct_items])
    together with the properties its specification states.

    Modelling conventions.
    - Numbers.  [app.py] computes with binary64 floating point: the
      targets are Python floats, the tolerance is a float (or the integer
      [0]), and the item values are the numbers of the numeric columns.
      The module [F64] embeds the searches over Rocq's primitive binary64
      floats, whose operations are those of IEEE 754 with rounding to
      nearest even: every sum, difference, product, quotient and
      comparison is the float64 one, taken in the order in which the code
      takes it.  Every property that depends on the outcome of a numeric
      check is stated and proved on [F64].  A column of integers is read
      as the floats of the same values.
    - The exact model.  The same functions are embedded a second time
      with the rationals ([Q]) as numbers, Python's [==] being [Qeq].
      This model has the control flow of the code and leaves rounding,
      infinities and NaN out; the properties proved on it are those of the
      control flow: the orchestrator, provenance, the sizes of the
      answers, the enumeration of pairs, the progress tracker and the
      construction of the store.
    - Items are the dictionaries [{"value", "column", "row"}] built by
      [main]; they are a record here.
    - [None] is [option]'s [None]; a raised exception is [Raised].
    - The [progress] argument is taken at its default [None]: every
      [if progress:] branch only notifies the tracker and never touches the
      search state.  The module [Tracked] adds the tracker. *)

From Stdlib Require Import QArith Qabs Qminmax ZArith String List Sorted Lia.
From Stdlib Require Import Floats.
From stdpp Require Import list.
Import ListNotations.

Local Open Scope Q_scope.

(** ** Data model *)

Record Item : Type := mkItem {
  value : Q;
  column : string;
  row : Z
}.

(** Exceptions the modelled code can name. *)
Inductive exn : Type :=
| ValueError
| ZeroDivisionError
| KeyError
| UnboundLocalError.

(** Result of running a fallible piece of Python. *)
Inductive outcome (A : Type) : Type :=
| Returned (a : A)
| Raised (e : exn).

Arguments Returned {A} a.
Arguments Raised {A} e.

Definition bind {A B : Type} (m : outcome A) (k : A -> outcome B) : outcome B :=
  match m with
  | Returned a => k a
  | Raised e => Raised e
  end.

Notation "x <- m ;; k" := (bind m (fun x => k))
  (at level 100, m at next level, right associativity).

(** A loop body either leaves the enclosing function with [return r]
    or hands its state to the next iteration. *)
Inductive flow (R S : Type) : Type :=
| Return (r : R)
| Next (s : S).

Arguments Return {R S} r.
Arguments Next {R S} s.

(** ** Python primitives used by the engine *)

(** [x in l] on a list of numbers. *)
Definition py_in (x : Q) (l : list Q) : bool := existsb (Qeq_bool x) l.

(** [l.remove(x)]: drops the first element equal to [x].  Every call in
    [app.py] is guarded by [x in l], so the [ValueError] of an absent
    element cannot arise; on an absent element this function leaves the
    list as it is. *)
Fixpoint py_remove (x : Q) (l : list Q) : list Q :=
  match l with
  | [] => []
  | y :: t => if Qeq_bool x y then t else y :: py_remove x t
  end.

(** [a / b] on Python numbers. *)
Definition py_div (a b : Q) : outcome Q :=
  if Qeq_bool b 0 then Raised ZeroDivisionError else Returned (a / b).

(** [math.isclose(a, b, rel_tol=rel_tol)] with the default [abs_tol = 0],
    from the Python library reference: a negative tolerance is a
    [ValueError]; otherwise the result is
    [abs(a-b) <= max(rel_tol * max(abs(a), abs(b)), abs_tol)]. *)
Definition isclose (a b rel_tol : Q) : outcome bool :=
  if negb (Qle_bool 0 rel_tol) then Raised ValueError
  else Returned (Qle_bool (Qabs (a - b))
                          (Qmax (rel_tol * Qmax (Qabs a) (Qabs b)) 0)).

(** [itertools.combinations(l, 2)] and [itertools.combinations(l, 3)]:
    tuples of elements of [l] at increasing positions, emitted in
    lexicographic order of the positions. *)
Fixpoint combinations2 {A : Type} (l : list A) : list (A * A) :=
  match l with
  | [] => []
  | x :: t => map (fun y => (x, y)) t ++ combinations2 t
  end.

Fixpoint combinations3 {A : Type} (l : list A) : list (A * A * A) :=
  match l with
  | [] => []
  | x :: t => map (fun p => (x, fst p, snd p)) (combinations2 t) ++ combinations3 t
  end.

(** An insertion-ordered dictionary with numeric keys. *)
Definition dict : Type := list (Q * list Item).

(** [k in dp] *)
Definition dict_mem (k : Q) (dp : dict) : bool :=
  existsb (fun e => Qeq_bool k (fst e)) dp.

(** [dp[k]] *)
Fixpoint dict_get (k : Q) (dp : dict) : outcome (list Item) :=
  match dp with
  | [] => Raised KeyError
  | (k', v) :: t => if Qeq_bool k k' then Returned v else dict_get k t
  end.

(** [dp[k] = v]: an existing key keeps its place, a new key goes last. *)
Fixpoint dict_set (k : Q) (v : list Item) (dp : dict) : dict :=
  match dp with
  | [] => [(k, v)]
  | (k', v') :: t =>
      if Qeq_bool k k' then (k', v) :: t else (k', v') :: dict_set k v t
  end.

(** [list(dp.keys())] *)
Definition dict_keys (dp : dict) : list Q := map fst dp.

(** ** [reconstruct_items] (app.py, lines 124-137) *)

Fixpoint reconstruct_loop (full_data : list Item) (result : list Item)
    (remaining : list Q) : option (list Item) :=
  match full_data with
  | [] => None
  | item :: rest =>
      if py_in (value item) remaining then
        let result' := result ++ [item] in
        let remaining' := py_remove (value item) remaining in
        match remaining' with
        | [] => Some result'
        | _ :: _ => reconstruct_loop rest result' remaining'
        end
      else reconstruct_loop rest result remaining
  end.

Definition reconstruct_items (full_data : list Item) (values : list Q)
    : option (list Item) :=
  reconstruct_loop full_data [] values.

(** ** [find_subset_sum] (app.py, lines 43-55) *)

(** The inner [for s in list(dp.keys())] loop for one [item]; [keys] is
    what is left of the snapshot of the keys, [dp] the live dictionary. *)
Fixpoint sum_inner (item : Item) (target tolerance : Q) (keys : list Q)
    (dp : dict) : outcome (flow (list Item) dict) :=
  match keys with
  | [] => Returned (Next dp)
  | s :: keys' =>
      let new_sum := s + value item in
      if Qle_bool (Qabs (new_sum - target)) tolerance then
        l <- dict_get s dp ;;
        Returned (Return (l ++ [item]))
      else if negb (dict_mem new_sum dp) then
        l <- dict_get s dp ;;
        sum_inner item target tolerance keys' (dict_set new_sum (l ++ [item]) dp)
      else sum_inner item target tolerance keys' dp
  end.

Fixpoint sum_outer (data : list Item) (target tolerance : Q) (dp : dict)
    : outcome (option (list Item)) :=
  match data with
  | [] => Returned None
  | item :: rest =>
      r <- sum_inner item target tolerance (dict_keys dp) dp ;;
      match r with
      | Return items => Returned (Some items)
      | Next dp' => sum_outer rest target tolerance dp'
      end
  end.

Definition find_subset_sum (data : list Item) (target tolerance : Q)
    : outcome (option (list Item)) :=
  sum_outer data target tolerance [(0, [])].

(** ** [find_subset_difference] (app.py, lines 58-74) *)

Definition difference_check (target tolerance : Q) (p : Q * Q) : bool :=
  Qle_bool (Qabs (Qabs (fst p - snd p) - target)) tolerance.

Fixpoint difference_loop (data : list Item) (target tolerance : Q)
    (pairs : list (Q * Q)) : option (list Item) :=
  match pairs with
  | [] => None
  | (a, b) :: rest =>
      if difference_check target tolerance (a, b) then
        reconstruct_items data [a; b]
      else difference_loop data target tolerance rest
  end.

Definition find_subset_difference (data : list Item) (target tolerance : Q)
    : option (list Item) :=
  let values := map value data in
  difference_loop data target tolerance (combinations2 values).

(** ** [find_subset_product] (app.py, lines 77-102) *)

Definition nonzero (x : Q) : bool := negb (Qeq_bool x 0).

Definition product_check2 (target tolerance : Q) (p : Q * Q) : bool :=
  let product := fst p * snd p in
  Qle_bool (Qabs (product - target)) (tolerance * target).

Definition product_check3 (target tolerance : Q) (p : Q * Q * Q) : bool :=
  let product := fst (fst p) * snd (fst p) * snd p in
  Qle_bool (Qabs (product - target)) (tolerance * target).

(** Each loop answers [Some r] when it executed [return r] and [None]
    when it ran to its end. *)
Fixpoint product_pairs_loop (data : list Item) (target tolerance : Q)
    (pairs : list (Q * Q)) : option (option (list Item)) :=
  match pairs with
  | [] => None
  | (a, b) :: rest =>
      if product_check2 target tolerance (a, b) then
        Some (reconstruct_items data [a; b])
      else product_pairs_loop data target tolerance rest
  end.

Fixpoint product_triplets_loop (data : list Item) (target tolerance : Q)
    (triplets : list (Q * Q * Q)) : option (option (list Item)) :=
  match triplets with
  | [] => None
  | (a, b, c) :: rest =>
      if product_check3 target tolerance (a, b, c) then
        Some (reconstruct_items data [a; b; c])
      else product_triplets_loop data target tolerance rest
  end.

Definition find_subset_product (data : list Item) (target tolerance : Q)
    : option (list Item) :=
  let values := List.filter nonzero (map value data) in
  match product_pairs_loop data target tolerance (combinations2 values) with
  | Some r => r
  | None =>
      match product_triplets_loop data target tolerance (combinations3 values) with
      | Some r => r
      | None => None
      end
  end.

(** ** [find_subset_quotient] (app.py, lines 105-121) *)

Fixpoint quotient_loop (data : list Item) (target tolerance : Q)
    (pairs : list (Q * Q)) : outcome (option (list Item)) :=
  match pairs with
  | [] => Returned None
  | (a, b) :: rest =>
      q1 <- py_div a b ;;
      c1 <- isclose q1 target tolerance ;;
      if c1 then Returned (reconstruct_items data [a; b])
      else
        q2 <- py_div b a ;;
        c2 <- isclose q2 target tolerance ;;
        if c2 then Returned (reconstruct_items data [a; b])
        else quotient_loop data target tolerance rest
  end.

Definition find_subset_quotient (data : list Item) (target tolerance : Q)
    : outcome (option (list Item)) :=
  let data := List.filter (fun item => nonzero (value item)) data in
  let values := map value data in
  quotient_loop data target tolerance (combinations2 values).

(** ** [find_subsets] (app.py, lines 24-41) *)

(** Truth value of [subset] in [if subset:]. *)
Definition truthy (subset : option (list Item)) : bool :=
  match subset with
  | Some (_ :: _) => true
  | _ => false
  end.

(** The [if]/[elif] chain on [operation].  An unknown operation binds
    nothing, and the read of [subset] that follows fails. *)
Definition dispatch (data : list Item) (target : Q) (operation : string)
    (tolerance : Q) : outcome (option (list Item)) :=
  if String.eqb operation "sum" then find_subset_sum data target tolerance
  else if String.eqb operation "product" then
    Returned (find_subset_product data target tolerance)
  else if String.eqb operation "difference" then
    Returned (find_subset_difference data target tolerance)
  else if String.eqb operation "quotient" then
    find_subset_quotient data target tolerance
  else Raised UnboundLocalError.

Fixpoint find_subsets_loop (data : list Item) (targets : list Q)
    (operation : string) (tolerance : Q) (results : list (Q * list Item))
    : outcome (list (Q * list Item)) :=
  match targets with
  | [] => Returned results
  | target :: rest =>
      subset <- dispatch data target operation tolerance ;;
      match subset with
      | Some items =>
          if truthy subset then
            find_subsets_loop data rest operation tolerance (results ++ [(target, items)])
          else find_subsets_loop data rest operation tolerance results
      | None => find_subsets_loop data rest operation tolerance results
      end
  end.

Definition find_subsets (data : list Item) (targets : list Q)
    (operation : string) (tolerance : Q) : outcome (list (Q * list Item)) :=
  find_subsets_loop data targets operation tolerance [].

(** ** Definitions used to state the properties *)

(** The sum of a list of numbers, taken left to right from [0]. *)
Definition sum_of (l : list Q) : Q := fold_left Qplus l 0.

(** [|sum(items.value) - target| <= tolerance] *)
Definition within (target tolerance : Q) (items : list Item) : Prop :=
  Qabs (sum_of (map value items) - target) <= tolerance.

(** After the items of [pre] have been processed, every entry of the
    dictionary maps the sum of a selection of [pre] to that selection, and
    the sum of every selection of [pre] is a key. *)
Definition dp_inv (pre : list Item) (dp : dict) : Prop :=
  (forall k l, In (k, l) dp -> sublist l pre /\ k == sum_of (map value l))
  /\ (forall l, sublist l pre -> dict_mem (sum_of (map value l)) dp = true).



(** What the specification asks of the orchestrator: the selected strategy
    once per target, in target order; an entry for a target exactly when
    its strategy answered with items. *)
Fixpoint matched_entries (data : list Item) (targets : list Q)
    (operation : string) (tolerance : Q) : outcome (list (Q * list Item)) :=
  match targets with
  | [] => Returned []
  | target :: rest =>
      subset <- dispatch data target operation tolerance ;;
      entries <- matched_entries data rest operation tolerance ;;
      Returned match subset with
               | Some items => (target, items) :: entries
               | None => entries
               end
  end.

(** ** [ProgressTracker] (app.py, lines 10-21)

    The Streamlit widgets are kept as the values last written to them: the
    bar holds the number given to [progress_bar.progress], the status holds
    the message and the two counters that [update] renders into its text.
    [total_steps] is a count ([main] passes [len(targets) * len(data)]). *)

Inductive message : Type :=
| Searching (target : Q)
| Text (s : string).

Record ProgressTracker : Type := mkTracker {
  progress_bar : Q;
  status_text : option (message * nat * nat);
  current_step : nat;
  total_steps : nat
}.

(** [ProgressTracker(total_steps)] *)
Definition new_tracker (total_steps : nat) : ProgressTracker :=
  mkTracker 0 None 0 total_steps.

(** [self.update(message)]: the counter is incremented before the division,
    so it stays incremented when the division raises. *)
Definition update (self : ProgressTracker) (msg : message)
    : outcome unit * ProgressTracker :=
  let step := S (current_step self) in
  let self' := mkTracker (progress_bar self) (status_text self) step (total_steps self) in
  if Nat.eqb (total_steps self) 0 then (Raised ZeroDivisionError, self')
  else
    let progress :=
      Qmin (inject_Z (Z.of_nat step) / inject_Z (Z.of_nat (total_steps self))) 1 in
    (Returned tt,
     mkTracker progress (Some (msg, step, total_steps self)) step (total_steps self)).

(** Code that runs with the optional [progress] argument: it is given the
    tracker (or [None]) and gives it back as the calls have left it. *)
Definition tracked (A : Type) : Type :=
  option ProgressTracker -> outcome A * option ProgressTracker.

Definition tret {A : Type} (a : A) : tracked A := fun progress => (Returned a, progress).

Definition tlift {A : Type} (m : outcome A) : tracked A := fun progress => (m, progress).

Definition tbind {A B : Type} (m : tracked A) (k : A -> tracked B) : tracked B :=
  fun progress =>
    match m progress with
    | (Returned a, progress') => k a progress'
    | (Raised e, progress') => (Raised e, progress')
    end.

Notation "x <~ m ;; k" := (tbind m (fun x => k))
  (at level 100, m at next level, right associativity).

(** [if progress: progress.update(msg)] *)
Definition notify (msg : message) : tracked unit :=
  fun progress =>
    match progress with
    | Some tracker => let (r, tracker') := update tracker msg in (r, Some tracker')
    | None => (Returned tt, None)
    end.

(** ** The engine with its [progress] argument (app.py, lines 24-121) *)

Module Tracked.

Fixpoint sum_outer (i : nat) (data : list Item) (target tolerance : Q) (dp : dict)
    : tracked (option (list Item)) :=
  match data with
  | [] => tret None
  | item :: rest =>
      _ <~ (if Nat.eqb (i mod 100) 0 then notify (Text "Checking sum combinations")
            else tret tt) ;;
      r <~ tlift (sum_inner item target tolerance (dict_keys dp) dp) ;;
      match r with
      | Return items => tret (Some items)
      | Next dp' => sum_outer (S i) rest target tolerance dp'
      end
  end.

Definition find_subset_sum (data : list Item) (target tolerance : Q)
    : tracked (option (list Item)) :=
  sum_outer 0 data target tolerance [(0, [])].

Fixpoint difference_loop (data : list Item) (target tolerance : Q)
    (pairs : list (Q * Q)) : tracked (option (list Item)) :=
  match pairs with
  | [] => tret None
  | (a, b) :: rest =>
      _ <~ notify (Text "Checking difference combinations") ;;
      if difference_check target tolerance (a, b) then
        tret (reconstruct_items data [a; b])
      else difference_loop data target tolerance rest
  end.

Definition find_subset_difference (data : list Item) (target tolerance : Q)
    : tracked (option (list Item)) :=
  let values := map value data in
  difference_loop data target tolerance (combinations2 values).

Fixpoint product_pairs_loop (data : list Item) (target tolerance : Q)
    (pairs : list (Q * Q)) : tracked (option (option (list Item))) :=
  match pairs with
  | [] => tret None
  | (a, b) :: rest =>
      _ <~ notify (Text "Checking product pairs") ;;
      if product_check2 target tolerance (a, b) then
        tret (Some (reconstruct_items data [a; b]))
      else product_pairs_loop data target tolerance rest
  end.

Fixpoint product_triplets_loop (data : list Item) (target tolerance : Q)
    (triplets : list (Q * Q * Q)) : tracked (option (option (list Item))) :=
  match triplets with
  | [] => tret None
  | (a, b, c) :: rest =>
      _ <~ notify (Text "Checking product triplets") ;;
      if product_check3 target tolerance (a, b, c) then
        tret (Some (reconstruct_items data [a; b; c]))
      else product_triplets_loop data target tolerance rest
  end.

Definition find_subset_product (data : list Item) (target tolerance : Q)
    : tracked (option (list Item)) :=
  let values := List.filter nonzero (map value data) in
  r <~ product_pairs_loop data target tolerance (combinations2 values) ;;
  match r with
  | Some r => tret r
  | None =>
      r <~ product_triplets_loop data target tolerance (combinations3 values) ;;
      match r with
      | Some r => tret r
      | None => tret None
      end
  end.

Fixpoint quotient_loop (data : list Item) (target tolerance : Q)
    (pairs : list (Q * Q)) : tracked (option (list Item)) :=
  match pairs with
  | [] => tret None
  | (a, b) :: rest =>
      _ <~ notify (Text "Checking quotient pairs") ;;
      q1 <~ tlift (py_div a b) ;;
      c1 <~ tlift (isclose q1 target tolerance) ;;
      if c1 then tret (reconstruct_items data [a; b])
      else
        q2 <~ tlift (py_div b a) ;;
        c2 <~ tlift (isclose q2 target tolerance) ;;
        if c2 then tret (reconstruct_items data [a; b])
        else quotient_loop data target tolerance rest
  end.

Definition find_subset_quotient (data : list Item) (target tolerance : Q)
    : tracked (option (list Item)) :=
  let data := List.filter (fun item => nonzero (value item)) data in
  let values := map value data in
  quotient_loop data target tolerance (combinations2 values).

Definition dispatch (data : list Item) (target : Q) (operation : string)
    (tolerance : Q) : tracked (option (list Item)) :=
  if String.eqb operation "sum" then find_subset_sum data target tolerance
  else if String.eqb operation "product" then find_subset_product data target tolerance
  else if String.eqb operation "difference" then
    find_subset_difference data target tolerance
  else if String.eqb operation "quotient" then
    find_subset_quotient data target tolerance
  else tlift (Raised UnboundLocalError).

Fixpoint find_subsets_loop (data : list Item) (targets : list Q)
    (operation : string) (tolerance : Q) (results : list (Q * list Item))
    : tracked (list (Q * list Item)) :=
  match targets with
  | [] => tret results
  | target :: rest =>
      _ <~ notify (Searching target) ;;
      subset <~ dispatch data target operation tolerance ;;
      match subset with
      | Some items =>
          if truthy subset then
            find_subsets_loop data rest operation tolerance (results ++ [(target, items)])
          else find_subsets_loop data rest operation tolerance results
      | None => find_subsets_loop data rest operation tolerance results
      end
  end.

Definition find_subsets (data : list Item) (targets : list Q)
    (operation : string) (tolerance : Q) : tracked (list (Q * list Item)) :=
  find_subsets_loop data targets operation tolerance [].

End Tracked.

(** ** Building the Item Store (app.py, [main], lines 194-206)

    A selected column is its name with its cells in index order, a missing
    cell being [None]; the frame has the default index [0, 1, 2, ...]. *)

(** [series.dropna().items()], for the cells from index [i] on. *)
Fixpoint dropna_items (i : nat) (cells : list (option Q)) : list (nat * Q) :=
  match cells with
  | [] => []
  | Some v :: rest => (i, v) :: dropna_items (S i) rest
  | None :: rest => dropna_items (S i) rest
  end.

(** The two nested loops that append to [data]. *)
Fixpoint prepare_data (selected_cols : list (string * list (option Q))) : list Item :=
  match selected_cols with
  | [] => []
  | (col, cells) :: rest =>
      map (fun p => mkItem (snd p) col (Z.of_nat (fst p) + 2)) (dropna_items 0 cells)
      ++ prepare_data rest
  end.

(** [progress_steps = len(targets) * len(data)] *)
Definition progress_steps (targets : list Q) (data : list Item) : nat :=
  (length targets * length data)%nat.

(** How many elements of [l] equal the number [v]. *)
Definition occurrences (v : Q) (l : list Q) : nat :=
  length (List.filter (Qeq_bool v) l).

(** [evolves t t']: the tracker [t'] is [t] after zero or more successful
    updates.  The total is the same; either nothing was written, or the
    counter has grown and the bar shows [min(current_step / total_steps, 1)],
    a number in the range the progress bar accepts. *)
Definition evolves (t t' : ProgressTracker) : Prop :=
  total_steps t' = total_steps t
  /\ (t' = t
      \/ ((current_step t < current_step t')%nat
          /\ progress_bar t'
             == Qmin (inject_Z (Z.of_nat (current_step t'))
                      / inject_Z (Z.of_nat (total_steps t'))) 1
          /\ 0 < progress_bar t' /\ progress_bar t' <= 1)).

(** [transparent m o]: the tracked computation [m] has the outcome [o] of
    the computation without a tracker, both with [progress = None] and with
    a tracker whose total is not zero, which it only lets evolve. *)
Definition transparent {A : Type} (m : tracked A) (o : outcome A) : Prop :=
  m None = (o, None)
  /\ forall t, total_steps t <> 0%nat ->
               exists t', m (Some t) = (o, Some t') /\ evolves t t'.

(** The numbers of an answer, without their provenance. *)
Definition answer_values (o : outcome (option (list Item)))
    : outcome (option (list Q)) :=
  match o with
  | Returned r => Returned (option_map (map value) r)
  | Raised e => Raised e
  end.

(** The targets and numbers of the orchestrator's output, without the
    provenance of the items. *)
Definition output_values (o : outcome (list (Q * list Item)))
    : outcome (list (Q * list Q)) :=
  match o with
  | Returned r => Returned (map (fun e => (fst e, map value (snd e))) r)
  | Raised e => Raised e
  end.

(** Two dictionaries with the same keys, in the same order, whose lists
    carry the same numbers. *)
Definition same_sums (dp1 dp2 : dict) : Prop :=
  Forall2 (fun e1 e2 => fst e1 = fst e2 /\ map value (snd e1) = map value (snd e2))
          dp1 dp2.

(** ** The engine in float64

    The functions of [app.py] once more, over binary64 floats.  *)

(** Python's test of [x in l], [l.remove(x)] and of a dictionary key:
    the same object, or [==].  A float is identical to itself, also when
    it is a NaN; two zeros of different signs are [==].  Floats carry no
    object identity here, so two NaN objects are not told apart: the
    store that [main] builds holds no NaN (missing cells are dropped), and
    a NaN never passes a check of the searches. *)
Definition pyeq (x y : float) : bool :=
  (PrimFloat.Leibniz.eqb x y || (x =? y)%float)%bool.

(** [x] is one of the two zeros. *)
Definition fzero (x : float) : Prop := exists b, Prim2SF x = S754_zero b.

(** Numbers that Python's [==] cannot tell apart: the same float, or two
    zeros. *)
Definition sim (x y : float) : Prop := x = y \/ (fzero x /\ fzero y).

(** The rational number a finite float stands for. *)
Definition exact_value (x : float) : Q :=
  match Prim2SF x with
  | S754_finite s m e =>
      (if s then - inject_Z (Z.pos m) else inject_Z (Z.pos m)) * Qpower 2 e
  | _ => 0
  end.

Module F64.

Record Item : Type := mkItem {
  value : float;
  column : string;
  row : Z
}.

(** [x in l] on a list of numbers. *)
Definition py_in (x : float) (l : list float) : bool := existsb (pyeq x) l.

(** [l.remove(x)]: drops the first element that is [x] or equals it.
    Every call in [app.py] is guarded by [x in l]. *)
Fixpoint py_remove (x : float) (l : list float) : list float :=
  match l with
  | [] => []
  | y :: t => if pyeq x y then t else y :: py_remove x t
  end.

(** [a / b]: the rounded quotient, or [ZeroDivisionError] on a divisor
    equal to zero. *)
Definition py_div (a b : float) : outcome float :=
  if (b =? 0)%float then Raised ZeroDivisionError else Returned (a / b)%float.

(** [math.isclose(a, b, rel_tol=rel_tol)] as CPython computes it, with
    its default [abs_tol = 0.0]: a negative tolerance is an error; equal
    numbers are close; an infinity is close to nothing else; otherwise
    the distance is compared with the tolerance scaled by either
    argument. *)
Definition isclose (a b rel_tol : float) : outcome bool :=
  if (rel_tol <? 0)%float then Raised ValueError
  else if (a =? b)%float then Returned true
  else if (is_infinity a || is_infinity b)%bool then Returned false
  else
    let diff := abs (b - a) in
    Returned ((diff <=? abs (rel_tol * b))%float
              || (diff <=? abs (rel_tol * a))%float
              || (diff <=? 0)%float)%bool.

(** The dictionary [dp] of the sum search, in insertion order. *)
Definition dict : Type := list (float * list Item).

(** [k in dp], for a freshly computed [k]. *)
Definition dict_mem (k : float) (dp : dict) : bool :=
  existsb (fun e => (k =? fst e)%float) dp.

(** [dp[k]], for a key [k] taken from the dictionary. *)
Fixpoint dict_get (k : float) (dp : dict) : outcome (list Item) :=
  match dp with
  | [] => Raised KeyError
  | (k', v) :: t => if pyeq k k' then Returned v else dict_get k t
  end.

(** [dp[k] = v], for a freshly computed [k]. *)
Fixpoint dict_set (k : float) (v : list Item) (dp : dict) : dict :=
  match dp with
  | [] => [(k, v)]
  | (k', v') :: t =>
      if (k =? k')%float then (k', v) :: t else (k', v') :: dict_set k v t
  end.

(** [list(dp.keys())] *)
Definition dict_keys (dp : dict) : list float := map fst dp.

(** [reconstruct_items] (app.py, lines 124-137) *)
Fixpoint reconstruct_loop (full_data : list Item) (result : list Item)
    (remaining : list float) : option (list Item) :=
  match full_data with
  | [] => None
  | item :: rest =>
      if py_in (value item) remaining then
        let result' := result ++ [item] in
        let remaining' := py_remove (value item) remaining in
        match remaining' with
        | [] => Some result'
        | _ :: _ => reconstruct_loop rest result' remaining'
        end
      else reconstruct_loop rest result remaining
  end.

Definition reconstruct_items (full_data : list Item) (values : list float)
    : option (list Item) :=
  reconstruct_loop full_data [] values.

(** [find_subset_sum] (app.py, lines 43-55): the inner loop over the
    snapshot [keys] of the dictionary, for one item. *)
Fixpoint sum_inner (item : Item) (target tolerance : float) (keys : list float)
    (dp : dict) : outcome (flow (list Item) dict) :=
  match keys with
  | [] => Returned (Next dp)
  | s :: keys' =>
      let new_sum := (s + value item)%float in
      if (abs (new_sum - target) <=? tolerance)%float then
        l <- dict_get s dp ;;
        Returned (Return (l ++ [item]))
      else if negb (dict_mem new_sum dp) then
        l <- dict_get s dp ;;
        sum_inner item target tolerance keys' (dict_set new_sum (l ++ [item]) dp)
      else sum_inner item target tolerance keys' dp
  end.

Fixpoint sum_outer (data : list Item) (target tolerance : float) (dp : dict)
    : outcome (option (list Item)) :=
  match data with
  | [] => Returned None
  | item :: rest =>
      r <- sum_inner item target tolerance (dict_keys dp) dp ;;
      match r with
      | Return items => Returned (Some items)
      | Next dp' => sum_outer rest target tolerance dp'
      end
  end.

Definition find_subset_sum (data : list Item) (target tolerance : float)
    : outcome (option (list Item)) :=
  sum_outer data target tolerance [(0%float, [])].

(** [find_subset_difference] (app.py, lines 58-74):
    [abs(abs(a - b) - target) <= tolerance] *)
Definition difference_check (target tolerance : float) (p : float * float) : bool :=
  (abs (abs (fst p - snd p) - target) <=? tolerance)%float.

Fixpoint difference_loop (data : list Item) (target tolerance : float)
    (pairs : list (float * float)) : option (list Item) :=
  match pairs with
  | [] => None
  | (a, b) :: rest =>
      if difference_check target tolerance (a, b) then
        reconstruct_items data [a; b]
      else difference_loop data target tolerance rest
  end.

Definition find_subset_difference (data : list Item) (target tolerance : float)
    : option (list Item) :=
  let values := map value data in
  difference_loop data target tolerance (combinations2 values).

(** [x != 0] *)
Definition nonzero (x : float) : bool := negb (x =? 0)%float.

(** [find_subset_product] (app.py, lines 77-102):
    [abs(product - target) <= tolerance * target], the product of a
    triplet being taken left to right. *)
Definition product_check2 (target tolerance : float) (p : float * float) : bool :=
  let product := (fst p * snd p)%float in
  (abs (product - target) <=? tolerance * target)%float.

Definition product_check3 (target tolerance : float) (p : float * float * float)
    : bool :=
  let product := (fst (fst p) * snd (fst p) * snd p)%float in
  (abs (product - target) <=? tolerance * target)%float.

Fixpoint product_pairs_loop (data : list Item) (target tolerance : float)
    (pairs : list (float * float)) : option (option (list Item)) :=
  match pairs with
  | [] => None
  | (a, b) :: rest =>
      if product_check2 target tolerance (a, b) then
        Some (reconstruct_items data [a; b])
      else product_pairs_loop data target tolerance rest
  end.

Fixpoint product_triplets_loop (data : list Item) (target tolerance : float)
    (triplets : list (float * float * float)) : option (option (list Item)) :=
  match triplets with
  | [] => None
  | (a, b, c) :: rest =>
      if product_check3 target tolerance (a, b, c) then
        Some (reconstruct_items data [a; b; c])
      else product_triplets_loop data target tolerance rest
  end.

Definition find_subset_product (data : list Item) (target tolerance : float)
    : option (list Item) :=
  let values := List.filter nonzero (map value data) in
  match product_pairs_loop data target tolerance (combinations2 values) with
  | Some r => r
  | None =>
      match product_triplets_loop data target tolerance (combinations3 values) with
      | Some r => r
      | None => None
      end
  end.

(** [find_subset_quotient] (app.py, lines 105-121): [b / a] is computed
    only when [a / b] is not close to the target. *)
Fixpoint quotient_loop (data : list Item) (target tolerance : float)
    (pairs : list (float * float)) : outcome (option (list Item)) :=
  match pairs with
  | [] => Returned None
  | (a, b) :: rest =>
      q1 <- py_div a b ;;
      c1 <- isclose q1 target tolerance ;;
      if c1 then Returned (reconstruct_items data [a; b])
      else
        q2 <- py_div b a ;;
        c2 <- isclose q2 target tolerance ;;
        if c2 then Returned (reconstruct_items data [a; b])
        else quotient_loop data target tolerance rest
  end.

Definition find_subset_quotient (data : list Item) (target tolerance : float)
    : outcome (option (list Item)) :=
  let data := List.filter (fun item => nonzero (value item)) data in
  let values := map value data in
  quotient_loop data target tolerance (combinations2 values).

(** [find_subsets] (app.py, lines 24-41) *)
Definition truthy (subset : option (list Item)) : bool :=
  match subset with
  | Some (_ :: _) => true
  | _ => false
  end.

Definition dispatch (data : list Item) (target : float) (operation : string)
    (tolerance : float) : outcome (option (list Item)) :=
  if String.eqb operation "sum" then find_subset_sum data target tolerance
  else if String.eqb operation "product" then
    Returned (find_subset_product data target tolerance)
  else if String.eqb operation "difference" then
    Returned (find_subset_difference data target tolerance)
  else if String.eqb operation "quotient" then
    find_subset_quotient data target tolerance
  else Raised UnboundLocalError.

Fixpoint find_subsets_loop (data : list Item) (targets : list float)
    (operation : string) (tolerance : float) (results : list (float * list Item))
    : outcome (list (float * list Item)) :=
  match targets with
  | [] => Returned results
  | target :: rest =>
      subset <- dispatch data target operation tolerance ;;
      match subset with
      | Some items =>
          if truthy subset then
            find_subsets_loop data rest operation tolerance (results ++ [(target, items)])
          else find_subsets_loop data rest operation tolerance results
      | None => find_subsets_loop data rest operation tolerance results
      end
  end.

Definition find_subsets (data : list Item) (targets : list float)
    (operation : string) (tolerance : float) : outcome (list (float * list Item)) :=
  find_subsets_loop data targets operation tolerance [].

(** The sum of a list of floats, added left to right from [0], as the
    sum search adds the values of a selection. *)
Definition fsum (l : list float) : float := fold_left PrimFloat.add l 0%float.

(** How many elements of [l] are [v] or equal it. *)
Definition occurrences (v : float) (l : list float) : nat :=
  length (List.filter (pyeq v) l).

(** An item with an arbitrary provenance, for examples. *)
Definition A (v : float) (r : Z) : Item := mkItem v "A" r.

End F64.

(** *** Definitions used to state the float64 properties *)

(** The tolerance check of the sum search, on a candidate sum. *)
Definition f64_sum_check (target tolerance z : float) : bool :=
  (abs (z - target) <=? tolerance)%float.

(** [|sum(items.value) - target| <= tolerance] as the code computes it:
    the values are added left to right in float64. *)
Definition f64_within (target tolerance : float) (items : list F64.Item) : Prop :=
  f64_sum_check target tolerance (F64.fsum (map F64.value items)) = true.

(** After the items of [pre]: every entry maps a number equal to the
    float64 sum of a selection of [pre] to that selection, and the float64
    sum of every selection of [pre] equals a key. *)
Definition f64_dp_inv (pre : list F64.Item) (dp : F64.dict) : Prop :=
  (forall k l, In (k, l) dp ->
     sublist l pre /\ sim k (F64.fsum (map F64.value l)))
  /\ (forall l, sublist l pre ->
        exists k, In k (F64.dict_keys dp) /\ sim (F64.fsum (map F64.value l)) k).

(** The comparison [math.isclose] makes once its tolerance is accepted. *)
Definition f64_rel_close (a b rel_tol : float) : bool :=
  if (a =? b)%float then true
  else if (is_infinity a || is_infinity b)%bool then false
  else
    let diff := abs (b - a) in
    ((diff <=? abs (rel_tol * b))%float
     || (diff <=? abs (rel_tol * a))%float
     || (diff <=? 0)%float)%bool.

(** The test of one pair, when neither division nor [isclose] raises. *)
Definition f64_quotient_check (target tolerance : float) (p : float * float) : bool :=
  f64_rel_close (fst p / snd p) target tolerance
  || f64_rel_close (snd p / fst p) target tolerance.

(** [f64_handed data target tolerance full_data wanted]: some strategy, run
    on the store [data], reaches a call
    [reconstruct_items(full_data, wanted)].  There is one rule per call site
    of [app.py]: the wanted values are the first combination of the
    enumeration that passes the strategy's check.  The quotient search hands
    over its zero-free copy of the store, and reaches its call only with a
    tolerance that [isclose] accepts. *)
Inductive f64_handed (data : list F64.Item) (target tolerance : float)
    : list F64.Item -> list float -> Prop :=
| f64_handed_difference (a b : float) :
    find (F64.difference_check target tolerance)
         (combinations2 (map F64.value data)) = Some (a, b) ->
    f64_handed data target tolerance data [a; b]
| f64_handed_product_pair (a b : float) :
    find (F64.product_check2 target tolerance)
         (combinations2 (List.filter F64.nonzero (map F64.value data)))
    = Some (a, b) ->
    f64_handed data target tolerance data [a; b]
| f64_handed_product_triplet (a b c : float) :
    find (F64.product_check2 target tolerance)
         (combinations2 (List.filter F64.nonzero (map F64.value data))) = None ->
    find (F64.product_check3 target tolerance)
         (combinations3 (List.filter F64.nonzero (map F64.value data)))
    = Some (a, b, c) ->
    f64_handed data target tolerance data [a; b; c]
| f64_handed_quotient (a b : float) :
    (tolerance <? 0)%float = false ->
    find (f64_quotient_check target tolerance)
         (combinations2
            (map F64.value
               (List.filter (fun item => F64.nonzero (F64.value item)) data)))
    = Some (a, b) ->
    f64_handed data target tolerance
               (List.filter (fun item => F64.nonzero (F64.value item)) data) [a; b].

(** ** The specification's scenarios, run on the model *)

Definition A1 (v : Q) (r : Z) : Item := mkItem v "A" r.

Example scenario_sum :
  find_subsets [A1 1 1; A1 2 2; A1 3 3] [5] "sum" 0
  = Returned [(5, [A1 2 2; A1 3 3])].
Proof. vm_compute. reflexivity. Qed.

Example scenario_quotient :
  find_subsets [mkItem 4 "A" 1; mkItem 12 "B" 2] [3] "quotient" (1 # 100)
  = Returned [(3, [mkItem 4 "A" 1; mkItem 12 "B" 2])].
Proof. vm_compute. reflexivity. Qed.

Example scenario_product :
  find_subsets [A1 2 1; A1 3 2; A1 5 3] [100] "product" (1 # 10)
  = Returned [].
Proof. vm_compute. reflexivity. Qed.

Example scenario_multiple :
  find_subsets [A1 1 1; A1 4 2] [5; 100] "sum" 0
  = Returned [(5, [A1 1 1; A1 4 2])].
Proof. vm_compute. reflexivity. Qed.

(** The same scenarios in float64. *)
Example f64_scenario_sum :
  F64.find_subsets [F64.A 1 1; F64.A 2 2; F64.A 3 3] [5%float] "sum" 0
  = Returned [(5%float, [F64.A 2 2; F64.A 3 3])].
Proof. vm_compute. reflexivity. Qed.

Example f64_scenario_quotient :
  F64.find_subsets [F64.mkItem 4 "A" 1; F64.mkItem 12 "B" 2] [3%float] "quotient"
    0x1.47ae147ae147bp-7
  = Returned [(3%float, [F64.mkItem 4 "A" 1; F64.mkItem 12 "B" 2])].
Proof. vm_compute. reflexivity. Qed.

Example f64_scenario_product :
  F64.find_subsets [F64.A 2 1; F64.A 3 2; F64.A 5 3] [100%float] "product"
    0x1.999999999999ap-4
  = Returned [].
Proof. vm_compute. reflexivity. Qed.

Example f64_scenario_multiple :
  F64.find_subsets [F64.A 1 1; F64.A 4 2] [5; 100]%float "sum" 0
  = Returned [(5%float, [F64.A 1 1; F64.A 4 2])].
Proof. vm_compute. reflexivity. Qed.

(** ** Numbers and lists: basic facts *)

Lemma Qeq_bool_compat (x x' y y' : Q) :
  x == x' -> y == y' -> Qeq_bool x y = Qeq_bool x' y'.
Proof.
  intros Hx Hy.
  destruct (Qeq_bool x y) eqn:E; symmetry.
  - apply Qeq_bool_iff. apply Qeq_bool_iff in E. now rewrite <- Hx, <- Hy.
  - destruct (Qeq_bool x' y') eqn:E'; [|reflexivity].
    apply Qeq_bool_iff in E'. rewrite <- Hx, <- Hy in E'.
    apply Qeq_bool_iff in E'. congruence.
Qed.

Lemma Qle_bool_compat (x x' y y' : Q) :
  x == x' -> y == y' -> Qle_bool x y = Qle_bool x' y'.
Proof.
  intros Hx Hy.
  destruct (Qle_bool x y) eqn:E; symmetry.
  - apply Qle_bool_iff. apply Qle_bool_iff in E. now rewrite <- Hx, <- Hy.
  - destruct (Qle_bool x' y') eqn:E'; [|reflexivity].
    apply Qle_bool_iff in E'. rewrite <- Hx, <- Hy in E'.
    apply Qle_bool_iff in E'. congruence.
Qed.

Lemma Qle_bool_false (x y : Q) : Qle_bool x y = false <-> y < x.
Proof.
  split; intros H.
  - apply Qnot_le_lt. intros Hle. apply Qle_bool_iff in Hle. congruence.
  - destruct (Qle_bool x y) eqn:E; [|reflexivity].
    apply Qle_bool_iff in E. exfalso. exact (Qlt_not_le _ _ H E).
Qed.

Lemma py_in_true (x : Q) (l : list Q) :
  py_in x l = true <-> exists y, In y l /\ x == y.
Proof.
  unfold py_in. rewrite existsb_exists.
  split; intros [y [Hy E]]; exists y; split; trivial; now apply Qeq_bool_iff.
Qed.

Lemma py_in_false (x : Q) (l : list Q) :
  py_in x l = false <-> forall y, In y l -> ~ x == y.
Proof.
  split.
  - intros H y Hy E.
    assert (py_in x l = true) by (apply py_in_true; eauto). congruence.
  - intros H. destruct (py_in x l) eqn:E; [|reflexivity].
    apply py_in_true in E. destruct E as [y [Hy E]]. destruct (H y Hy E).
Qed.

(** ** Reconstruction: how the scan behaves *)

Lemma reconstruct_loop_acc (data result : list Item) (remaining : list Q) :
  reconstruct_loop data result remaining
  = option_map (app result) (reconstruct_loop data [] remaining).
Proof.
  revert result remaining.
  induction data as [|d t IH]; intros result remaining; simpl; [reflexivity|].
  destruct (py_in (value d) remaining).
  - destruct (py_remove (value d) remaining) as [|r rs].
    + reflexivity.
    + rewrite IH. rewrite (IH [d]).
      destruct (reconstruct_loop t [] (r :: rs)); simpl; [|reflexivity].
      now rewrite <- app_assoc.
  - apply IH.
Qed.

(** Items that are not wanted are passed over. *)
Lemma reconstruct_loop_skip (d : Item) (t result : list Item) (remaining : list Q) :
  py_in (value d) remaining = false ->
  reconstruct_loop (d :: t) result remaining = reconstruct_loop t result remaining.
Proof. intros H. simpl. now rewrite H. Qed.

(** One wanted value: the first item carrying it is returned. *)
Lemma reconstruct_single (data : list Item) (b : Q) :
  (exists y, In y data /\ value y == b) ->
  exists y, reconstruct_items data [b] = Some [y] /\ value y == b /\ sublist [y] data.
Proof.
  unfold reconstruct_items.
  induction data as [|d t IH]; intros [y [Hy E]]; [destruct Hy|].
  simpl. destruct (Qeq_bool (value d) b) eqn:Eb.
  - simpl. exists d. split; [reflexivity|]. split; [now apply Qeq_bool_iff|].
    apply sublist_skip, sublist_nil_l.
  - simpl. destruct Hy as [->|Hy].
    + apply Qeq_bool_iff in E. congruence.
    + destruct IH as [z [Hz [Ez Sz]]]; [eauto|].
      exists z. split; [exact Hz|]. split; [exact Ez|]. now apply sublist_cons.
Qed.

Lemma find_app {A : Type} (f : A -> bool) (l1 l2 : list A) :
  find f (l1 ++ l2) = match find f l1 with Some x => Some x | None => find f l2 end.
Proof.
  induction l1 as [|x l1 IH]; simpl; [reflexivity|].
  destruct (f x); [reflexivity|exact IH].
Qed.

Lemma in_combinations2 {A : Type} (l : list A) (a b : A) :
  In (a, b) (combinations2 l) -> In a l /\ In b l.
Proof.
  induction l as [|x t IH]; simpl; [tauto|].
  rewrite in_app_iff, in_map_iff. intros [[y [E Hy]]|H].
  - inversion E; subst. tauto.
  - destruct (IH H). tauto.
Qed.


Lemma in_map_value (data : list Item) (b : Q) :
  In b (map value data) -> exists y, In y data /\ value y == b.
Proof.
  rewrite in_map_iff. intros [y [E Hy]]. exists y. split; [exact Hy|].
  rewrite E. reflexivity.
Qed.

(** ** Reconstruction after a pair or triplet search

    The searches hand to [reconstruct_items] the first combination, in
    enumeration order, that passes a check.  When the check does not
    depend on the order of its arguments, no item scanned earlier can carry
    one of the wanted values, so the scan returns the items at the very
    positions the search looked at, in the order of the wanted values. *)

Section PairSearch.
Variable P : Q * Q -> bool.
Hypothesis P_sym : forall a b, P (a, b) = P (b, a).
Hypothesis P_compat :
  forall a a' b b', a == a' -> b == b' -> P (a, b) = P (a', b').

Lemma reconstruct_pair (data : list Item) (a b : Q) :
  find P (combinations2 (map value data)) = Some (a, b) ->
  exists x y, reconstruct_items data [a; b] = Some [x; y]
              /\ value x == a /\ value y == b /\ sublist [x; y] data.
Proof.
  induction data as [|d t IH]; simpl; [discriminate|].
  rewrite find_app.
  destruct (find P (map (fun y => (value d, y)) (map value t))) as [p|] eqn:Hfirst.
  - intros E. inversion E; subst p. clear E.
    apply find_some in Hfirst. destruct Hfirst as [Hin _].
    apply in_map_iff in Hin. destruct Hin as [y [E Hy]]. inversion E; subst. clear E.
    destruct (reconstruct_single t b (in_map_value _ _ Hy)) as [z [Hz [Ez Sz]]].
    exists d, z. unfold reconstruct_items. simpl.
    rewrite (proj2 (Qeq_bool_iff (value d) (value d)) (Qeq_refl _)). simpl.
    rewrite reconstruct_loop_acc. fold (reconstruct_items t [b]). rewrite Hz. simpl.
    split; [reflexivity|]. split; [reflexivity|]. split; [exact Ez|].
    now apply sublist_skip.
  - intros Hrest.
    destruct (find_some _ _ Hrest) as [Hin HP].
    destruct (in_combinations2 _ _ _ Hin) as [Ha Hb].
    assert (Hskip : py_in (value d) [a; b] = false).
    { apply py_in_false. intros y [<-|[<-|[]]] Ey.
      - assert (HP' : P (value d, b) = true)
          by (rewrite (P_compat _ a _ b Ey (Qeq_refl b)); exact HP).
        rewrite (find_none _ _ Hfirst (value d, b)) in HP'; [discriminate|].
        now apply in_map.
      - assert (HP' : P (value d, a) = true)
          by (rewrite (P_compat _ b _ a Ey (Qeq_refl a)), P_sym; exact HP).
        rewrite (find_none _ _ Hfirst (value d, a)) in HP'; [discriminate|].
        now apply in_map. }
    destruct (IH Hrest) as [x [y [Hxy [Ex [Ey Sxy]]]]].
    exists x, y. unfold reconstruct_items in *.
    rewrite reconstruct_loop_skip by exact Hskip.
    repeat split; trivial. now apply sublist_cons.
Qed.
End PairSearch.

Lemma find_map {A B : Type} (f : B -> bool) (g : A -> B) (l : list A) :
  find f (map g l) = option_map g (find (fun x => f (g x)) l).
Proof.
  induction l as [|x l IH]; simpl; [reflexivity|].
  destruct (f (g x)); [reflexivity|exact IH].
Qed.

Section TripletSearch.
Variable P : Q * Q * Q -> bool.
Hypothesis P_swap12 : forall a b c, P (a, b, c) = P (b, a, c).
Hypothesis P_swap23 : forall a b c, P (a, b, c) = P (a, c, b).
Hypothesis P_compat :
  forall a a' b b' c c', a == a' -> b == b' -> c == c' ->
                         P (a, b, c) = P (a', b', c').

End TripletSearch.


(** ** The enumeration order of [combinations2] and [combinations3] *)

Lemma find_index {A : Type} (f : A -> bool) (l : list A) (y : A) :
  find f l = Some y ->
  exists k, l !! k = Some y /\ f y = true
            /\ forall k' z, (k' < k)%nat -> l !! k' = Some z -> f z = false.
Proof.
  induction l as [|x l IH]; simpl; [discriminate|].
  destruct (f x) eqn:Hx.
  - intros E. inversion E; subst. exists 0%nat.
    split; [reflexivity|]. split; [exact Hx|]. intros k' z Hk. lia.
  - intros E. destruct (IH E) as [k [Hk [Hy Hbefore]]].
    exists (S k). split; [exact Hk|]. split; [exact Hy|].
    intros [|k'] z Hlt Hz; simpl in Hz.
    + inversion Hz; subst. exact Hx.
    + apply (Hbefore k'); [lia|exact Hz].
Qed.

Lemma lookup_In {A : Type} (l : list A) (k : nat) (x : A) :
  l !! k = Some x -> In x l.
Proof.
  revert k. induction l as [|y l IH]; intros [|k] H; simpl in H; try discriminate.
  - inversion H. now left.
  - right. eapply IH, H.
Qed.

Lemma In_lookup {A : Type} (l : list A) (x : A) :
  In x l -> exists k, l !! k = Some x.
Proof.
  induction l as [|y l IH]; [intros []|intros [->|H]]; [now exists 0%nat|].
  destruct (IH H) as [k Hk]. now exists (S k).
Qed.

(** The pairs are exactly the pairs of elements at positions [i < j]. *)
Lemma in_combinations2_index {A : Type} (l : list A) (a b : A) :
  In (a, b) (combinations2 l)
  <-> exists i j, (i < j)%nat /\ l !! i = Some a /\ l !! j = Some b.
Proof.
  induction l as [|x t IH]; simpl.
  - split; [tauto|]. intros [i [j [_ [H _]]]]. destruct i; discriminate.
  - rewrite in_app_iff, in_map_iff, IH. split.
    + intros [[y [E Hy]]|[i [j [Hij [Hi Hj]]]]].
      * inversion E; subst. destruct (In_lookup _ _ Hy) as [k Hk].
        exists 0%nat, (S k). split; [lia|]. now split.
      * exists (S i), (S j). split; [lia|]. now split.
    + intros [[|i] [[|j] [Hij [Hi Hj]]]]; try lia; simpl in Hi, Hj.
      * left. inversion Hi; subst. exists b. split; [reflexivity|].
        eapply lookup_In, Hj.
      * right. exists i, j. split; [lia|]. now split.
Qed.

(** The first pair passing a check sits at the lexicographically first
    pair of positions [i < j] that passes it. *)
Lemma find_combinations2_first {A : Type} (P : A * A -> bool) (l : list A) (a b : A) :
  find P (combinations2 l) = Some (a, b) ->
  exists i j, (i < j)%nat /\ l !! i = Some a /\ l !! j = Some b
    /\ P (a, b) = true
    /\ forall i' j' a' b', (i' < j')%nat ->
         (i' < i \/ (i' = i /\ j' < j))%nat ->
         l !! i' = Some a' -> l !! j' = Some b' -> P (a', b') = false.
Proof.
  induction l as [|x t IH]; simpl; [discriminate|].
  rewrite find_app, find_map.
  destruct (find (fun y => P (x, y)) t) as [y|] eqn:Hfirst; simpl.
  - intros E. inversion E; subst. clear E.
    destruct (find_index _ _ _ Hfirst) as [k [Hk [HP Hbefore]]].
    exists 0%nat, (S k). split; [lia|]. split; [reflexivity|]. split; [exact Hk|].
    split; [exact HP|].
    intros i' j' a' b' Hij [Hlt|[-> Hlt]] Hi Hj; [lia|].
    simpl in Hi. inversion Hi; subst.
    destruct j' as [|j']; [lia|]. simpl in Hj.
    apply (Hbefore j'); [lia|exact Hj].
  - intros Hrest. destruct (IH Hrest) as [i [j [Hij [Hi [Hj [HP Hbefore]]]]]].
    exists (S i), (S j). split; [lia|]. split; [exact Hi|]. split; [exact Hj|].
    split; [exact HP|].
    intros [|i'] [|j'] a' b' Hlt Hlex Hi' Hj'; try lia; simpl in Hi', Hj'.
    + inversion Hi'; subst.
      exact (find_none _ _ Hfirst b' (lookup_In _ _ _ Hj')).
    + apply (Hbefore i' j'); trivial; lia.
Qed.

Lemma find_combinations2_none {A : Type} (P : A * A -> bool) (l : list A) :
  find P (combinations2 l) = None
  <-> forall i j a b, (i < j)%nat -> l !! i = Some a -> l !! j = Some b ->
                      P (a, b) = false.
Proof.
  split.
  - intros H i j a b Hij Hi Hj. apply (find_none _ _ H).
    apply in_combinations2_index. eauto.
  - intros H. destruct (find P (combinations2 l)) as [[a b]|] eqn:E; [|reflexivity].
    destruct (find_some _ _ E) as [Hin HP].
    apply in_combinations2_index in Hin. destruct Hin as [i [j [Hij [Hi Hj]]]].
    rewrite (H i j a b Hij Hi Hj) in HP. discriminate.
Qed.

Lemma length_combinations2 {A : Type} (l : list A) :
  (2 * length (combinations2 l) = length l * (length l - 1))%nat.
Proof.
  induction l as [|x t IH]; simpl; [reflexivity|].
  rewrite length_app, length_map. nia.
Qed.

(** ** Pairwise-difference search *)

Lemma difference_loop_find (data : list Item) (target tolerance : Q)
    (pairs : list (Q * Q)) :
  difference_loop data target tolerance pairs
  = match find (difference_check target tolerance) pairs with
    | Some (a, b) => reconstruct_items data [a; b]
    | None => None
    end.
Proof.
  induction pairs as [|[a b] rest IH]; simpl; [reflexivity|].
  destruct (difference_check target tolerance (a, b)); [reflexivity|exact IH].
Qed.



Lemma difference_check_sym (target tolerance a b : Q) :
  difference_check target tolerance (a, b) = difference_check target tolerance (b, a).
Proof. unfold difference_check. cbn [fst snd]. now rewrite (Qabs_Qminus a b). Qed.

Lemma difference_check_compat (target tolerance a a' b b' : Q) :
  a == a' -> b == b' ->
  difference_check target tolerance (a, b) = difference_check target tolerance (a', b').
Proof.
  intros Ha Hb. unfold difference_check. cbn [fst snd].
  apply Qle_bool_compat; [|reflexivity]. now rewrite Ha, Hb.
Qed.

(** ** Product search *)

Lemma product_pairs_loop_find (data : list Item) (target tolerance : Q)
    (pairs : list (Q * Q)) :
  product_pairs_loop data target tolerance pairs
  = option_map (fun p => reconstruct_items data [fst p; snd p])
               (find (product_check2 target tolerance) pairs).
Proof.
  induction pairs as [|[a b] rest IH]; simpl; [reflexivity|].
  destruct (product_check2 target tolerance (a, b)); [reflexivity|exact IH].
Qed.

Lemma product_triplets_loop_find (data : list Item) (target tolerance : Q)
    (triplets : list (Q * Q * Q)) :
  product_triplets_loop data target tolerance triplets
  = option_map (fun p => reconstruct_items data [fst (fst p); snd (fst p); snd p])
               (find (product_check3 target tolerance) triplets).
Proof.
  induction triplets as [|[[a b] c] rest IH]; simpl; [reflexivity|].
  destruct (product_check3 target tolerance (a, b, c)); [reflexivity|exact IH].
Qed.











Lemma nonzero_iff (x : Q) : nonzero x = true <-> ~ x == 0.
Proof.
  unfold nonzero. rewrite <- Qeq_bool_iff.
  destruct (Qeq_bool x 0); simpl; split; congruence.
Qed.

Lemma filter_map_value (keep : Q -> bool) (data : list Item) :
  List.filter keep (map value data)
  = map value (List.filter (fun item => keep (value item)) data).
Proof.
  induction data as [|d t IH]; simpl; [reflexivity|].
  destruct (keep (value d)); simpl; now rewrite IH.
Qed.

Lemma filter_sublist {A : Type} (f : A -> bool) (l : list A) :
  sublist (List.filter f l) l.
Proof.
  induction l as [|x l IH]; simpl; [constructor|].
  destruct (f x); now constructor.
Qed.


Lemma product_values_nonzero (data : list Item) (v : Q) :
  In v (List.filter nonzero (map value data))
  <-> In v (map value data) /\ ~ v == 0.
Proof. rewrite filter_In, nonzero_iff. reflexivity. Qed.




Lemma find_all_false {A : Type} (f : A -> bool) (l : list A) :
  (forall x, f x = false) -> find f l = None.
Proof.
  intros H. induction l as [|x l IH]; simpl; [reflexivity|].
  now rewrite H.
Qed.

(** ** Subset-sum search: the dictionary *)

Lemma dict_mem_true (k : Q) (dp : dict) :
  dict_mem k dp = true <-> exists k' l, In (k', l) dp /\ k == k'.
Proof.
  unfold dict_mem. rewrite existsb_exists. split.
  - intros [[k' l] [Hin E]]. exists k', l. split; [exact Hin|].
    now apply Qeq_bool_iff.
  - intros [k' [l [Hin E]]]. exists (k', l). split; [exact Hin|].
    now apply Qeq_bool_iff.
Qed.

Lemma dict_mem_compat (k k' : Q) (dp : dict) :
  k == k' -> dict_mem k dp = true -> dict_mem k' dp = true.
Proof.
  intros E. rewrite !dict_mem_true. intros [k0 [l [Hin E0]]].
  exists k0, l. split; [exact Hin|]. now rewrite <- E.
Qed.

Lemma dict_mem_app (k : Q) (dp extra : dict) :
  dict_mem k (dp ++ extra) = dict_mem k dp || dict_mem k extra.
Proof. unfold dict_mem. apply existsb_app. Qed.

Lemma dict_get_found (k : Q) (dp : dict) (l : list Item) :
  dict_get k dp = Returned l -> exists k', In (k', l) dp /\ k == k'.
Proof.
  induction dp as [|[k0 l0] t IH]; simpl; [discriminate|].
  destruct (Qeq_bool k k0) eqn:E.
  - intros H. inversion H; subst. exists k0. split; [now left|].
    now apply Qeq_bool_iff.
  - intros H. destruct (IH H) as [k' [Hin E']]. exists k'. split; [now right|exact E'].
Qed.

Lemma dict_get_mem (k : Q) (dp : dict) :
  dict_mem k dp = true -> exists l, dict_get k dp = Returned l.
Proof.
  induction dp as [|[k0 l0] t IH]; simpl; [discriminate|].
  destruct (Qeq_bool k k0); simpl; [eauto|exact IH].
Qed.

Lemma dict_get_app (k : Q) (dp extra : dict) (l : list Item) :
  dict_get k dp = Returned l -> dict_get k (dp ++ extra) = Returned l.
Proof.
  induction dp as [|[k0 l0] t IH]; simpl; [discriminate|].
  destruct (Qeq_bool k k0); [trivial|exact IH].
Qed.

Lemma dict_keys_mem (k : Q) (dp : dict) :
  In k (dict_keys dp) -> dict_mem k dp = true.
Proof.
  unfold dict_keys. rewrite in_map_iff. intros [[k' l] [E Hin]]. simpl in E. subst k'.
  apply dict_mem_true. exists k, l. split; [exact Hin|reflexivity].
Qed.

Lemma dict_set_absent (k : Q) (v : list Item) (dp : dict) :
  dict_mem k dp = false -> dict_set k v dp = dp ++ [(k, v)].
Proof.
  induction dp as [|[k0 l0] t IH]; simpl; [reflexivity|].
  destruct (Qeq_bool k k0); simpl; [discriminate|].
  intros H. now rewrite IH.
Qed.

(** One pass of the inner loop over the snapshot [keys] of the dictionary
    [dp0] the item started with; [extra] holds the entries added so far
    for this item.  The pass raises nothing.  It either returns a recorded
    list extended by the item, whose new sum passes the tolerance check,
    or ends with every new sum failing the check and recorded. *)
Lemma sum_inner_spec (item : Item) (target tolerance : Q) :
  forall (keys : list Q) (dp0 extra : dict),
    (forall s, In s keys -> dict_mem s dp0 = true) ->
    match sum_inner item target tolerance keys (dp0 ++ extra) with
    | Returned (Return items) =>
        exists s l, In s keys /\ dict_get s dp0 = Returned l
                    /\ items = l ++ [item]
                    /\ Qabs (s + value item - target) <= tolerance
    | Returned (Next dp') =>
        exists extra',
          dp' = dp0 ++ extra'
          /\ (forall s, In s keys ->
                ~ Qabs (s + value item - target) <= tolerance
                /\ dict_mem (s + value item) dp' = true)
          /\ (forall k, dict_mem k (dp0 ++ extra) = true -> dict_mem k dp' = true)
          /\ (forall e, In e extra' ->
                In e extra
                \/ exists s l, In s keys /\ dict_get s dp0 = Returned l
                               /\ e = (s + value item, l ++ [item]))
    | Raised _ => False
    end.
Proof.
  induction keys as [|s ks IH]; intros dp0 extra Hkeys.
  - simpl. exists extra. split; [reflexivity|]. split; [intros s []|].
    split; [trivial|]. intros e He. now left.
  - cbn [sum_inner].
    destruct (dict_get_mem s dp0 (Hkeys s (or_introl eq_refl))) as [l Hl].
    assert (Hks : forall s', In s' ks -> dict_mem s' dp0 = true)
      by (intros s' Hs'; apply Hkeys; now right).
    destruct (Qle_bool (Qabs (s + value item - target)) tolerance) eqn:Hcheck.
    + rewrite (dict_get_app _ _ extra _ Hl). cbn [bind].
      exists s, l. split; [now left|]. split; [exact Hl|]. split; [reflexivity|].
      now apply Qle_bool_iff.
    + assert (Hfail : ~ Qabs (s + value item - target) <= tolerance).
      { intros H. apply Qle_bool_iff in H. congruence. }
      destruct (dict_mem (s + value item) (dp0 ++ extra)) eqn:Hmem; cbn [negb].
      * specialize (IH dp0 extra Hks).
        destruct (sum_inner item target tolerance ks (dp0 ++ extra))
          as [[items|dp']|e]; [| |exact IH].
        -- destruct IH as [s' [l' [Hs' H]]]. exists s', l'. split; [now right|exact H].
        -- destruct IH as [extra' [Hdp [Hall [Hmono Hnew]]]].
           exists extra'. split; [exact Hdp|]. split; [|split; [exact Hmono|]].
           ++ intros s' [<-|Hs']; [|now apply Hall].
              split; [exact Hfail|]. now apply Hmono.
           ++ intros e He. destruct (Hnew e He) as [H|[s' [l' [Hs' H]]]]; [now left|].
              right. exists s', l'. split; [now right|exact H].
      * rewrite (dict_get_app _ _ extra _ Hl). cbn [bind].
        rewrite dict_set_absent by exact Hmem. rewrite <- app_assoc.
        specialize (IH dp0 (extra ++ [(s + value item, l ++ [item])]) Hks).
        destruct (sum_inner item target tolerance ks
                    (dp0 ++ extra ++ [(s + value item, l ++ [item])]))
          as [[items|dp']|e]; [| |exact IH].
        -- destruct IH as [s' [l' [Hs' H]]]. exists s', l'. split; [now right|exact H].
        -- destruct IH as [extra' [Hdp [Hall [Hmono Hnew]]]].
           exists extra'. split; [exact Hdp|]. split; [|split].
           ++ intros s' [<-|Hs']; [|now apply Hall].
              split; [exact Hfail|]. apply Hmono.
              rewrite !dict_mem_app. unfold dict_mem at 3. simpl.
              rewrite (proj2 (Qeq_bool_iff _ _) (Qeq_refl _)).
              now rewrite !orb_true_r.
           ++ intros k Hk. apply Hmono. rewrite app_assoc, dict_mem_app, Hk.
              reflexivity.
           ++ intros e He. destruct (Hnew e He) as [H|[s' [l' [Hs' H]]]].
              ** apply in_app_or in H. destruct H as [H|[<-|[]]]; [now left|].
                 right. exists s, l. split; [now left|]. now split.
              ** right. exists s', l'. split; [now right|exact H].
Qed.

(** ** Subset-sum search: the invariant of the outer loop *)

Lemma sum_of_snoc (items : list Item) (item : Item) :
  sum_of (map value (items ++ [item])) = sum_of (map value items) + value item.
Proof. unfold sum_of. rewrite map_app, fold_left_app. reflexivity. Qed.

Lemma dp_inv_init : dp_inv [] [(0, [])].
Proof.
  split.
  - intros k l [E|[]]. inversion E; subst. split; [constructor|reflexivity].
  - intros l Hl. apply sublist_nil_r in Hl. subst l. reflexivity.
Qed.

Lemma sum_inner_step (item : Item) (target tolerance : Q) (pre : list Item) (dp : dict) :
  dp_inv pre dp ->
  match sum_inner item target tolerance (dict_keys dp) dp with
  | Returned (Return items) =>
      items <> [] /\ sublist items (pre ++ [item]) /\ within target tolerance items
  | Returned (Next dp') =>
      dp_inv (pre ++ [item]) dp'
      /\ forall l, sublist l pre -> ~ within target tolerance (l ++ [item])
  | Raised _ => False
  end.
Proof.
  intros [Hsound Hcomplete].
  pose proof (sum_inner_spec item target tolerance (dict_keys dp) dp []
                (fun s => dict_keys_mem s dp)) as H.
  rewrite app_nil_r in H.
  destruct (sum_inner item target tolerance (dict_keys dp) dp)
    as [[items|dp']|e]; [| |exact H].
  - destruct H as [s [l [Hs [Hl [-> Hcheck]]]]].
    destruct (dict_get_found _ _ _ Hl) as [k' [Hin Ek]].
    destruct (Hsound _ _ Hin) as [Hsub Esum].
    split; [intros E; now apply app_eq_nil in E as [_ E]|].
    split; [now apply sublist_app|].
    unfold within. rewrite sum_of_snoc, <- Esum, <- Ek. exact Hcheck.
  - destruct H as [extra' [-> [Hall [Hmono Hnew]]]].
    assert (Hkey : forall l, sublist l pre ->
              exists s, In s (dict_keys dp) /\ s == sum_of (map value l)).
    { intros l Hl. apply Hcomplete, dict_mem_true in Hl.
      destruct Hl as [k [l0 [Hin E]]]. exists k.
      split; [|now symmetry]. unfold dict_keys. apply in_map_iff.
      now exists (k, l0). }
    split; [split|].
    + intros k l Hin. apply in_app_or in Hin. destruct Hin as [Hin|Hin].
      * destruct (Hsound _ _ Hin) as [Hsub E]. split; [|exact E].
        now apply sublist_inserts_r.
      * destruct (Hnew _ Hin) as [[]|[s [l0 [Hs [Hl0 E]]]]].
        inversion E; subst. clear E.
        destruct (dict_get_found _ _ _ Hl0) as [k' [Hin' Ek]].
        destruct (Hsound _ _ Hin') as [Hsub Esum].
        split; [now apply sublist_app|].
        now rewrite sum_of_snoc, <- Esum, <- Ek.
    + intros l Hl. apply sublist_app_r in Hl.
      destruct Hl as [l1 [l2 [-> [Hl1 Hl2]]]].
      apply sublist_cons_r in Hl2. destruct Hl2 as [Hl2|[l' [-> Hl']]].
      * apply sublist_nil_r in Hl2. subst l2. rewrite app_nil_r.
        apply Hmono. now apply Hcomplete.
      * apply sublist_nil_r in Hl'. subst l'.
        destruct (Hkey l1 Hl1) as [s [Hs Es]].
        apply (dict_mem_compat (s + value item)); [|now apply Hall].
        now rewrite sum_of_snoc, Es.
    + intros l Hl Hwithin. destruct (Hkey l Hl) as [s [Hs Es]].
      destruct (Hall s Hs) as [Hfail _]. apply Hfail.
      unfold within in Hwithin. now rewrite sum_of_snoc, <- Es in Hwithin.
Qed.

(** The outer loop from any reachable state: it raises nothing; an answer
    is a non-empty selection of the store within the tolerance; no-match
    means that no non-empty selection of the store is within it. *)
Lemma sum_outer_spec (target tolerance : Q) :
  forall (rest pre : list Item) (dp : dict),
    dp_inv pre dp ->
    (forall l, sublist l pre -> l <> [] -> ~ within target tolerance l) ->
    match sum_outer rest target tolerance dp with
    | Returned (Some items) =>
        items <> [] /\ sublist items (pre ++ rest) /\ within target tolerance items
    | Returned None =>
        forall l, sublist l (pre ++ rest) -> l <> [] -> ~ within target tolerance l
    | Raised _ => False
    end.
Proof.
  induction rest as [|item rest IH]; intros pre dp Hinv Hnone.
  - simpl. now rewrite app_nil_r.
  - cbn [sum_outer].
    pose proof (sum_inner_step item target tolerance pre dp Hinv) as Hstep.
    destruct (sum_inner item target tolerance (dict_keys dp) dp)
      as [[items|dp']|e]; cbn [bind]; [| |exact Hstep].
    + destruct Hstep as [Hne [Hsub Hok]]. split; [exact Hne|]. split; [|exact Hok].
      replace (pre ++ item :: rest) with ((pre ++ [item]) ++ rest)
        by now rewrite <- app_assoc.
      now apply sublist_inserts_r.
    + destruct Hstep as [Hinv' Hfail].
      replace (pre ++ item :: rest) with ((pre ++ [item]) ++ rest)
        by now rewrite <- app_assoc.
      apply IH; [exact Hinv'|].
      intros l Hl Hne. apply sublist_app_r in Hl.
      destruct Hl as [l1 [l2 [-> [Hl1 Hl2]]]].
      apply sublist_cons_r in Hl2. destruct Hl2 as [Hl2|[l' [-> Hl']]].
      * apply sublist_nil_r in Hl2. subst l2. rewrite app_nil_r in *.
        now apply Hnone.
      * apply sublist_nil_r in Hl'. subst l'. now apply Hfail.
Qed.

Lemma find_subset_sum_spec (data : list Item) (target tolerance : Q) :
  match find_subset_sum data target tolerance with
  | Returned (Some items) =>
      items <> [] /\ sublist items data /\ within target tolerance items
  | Returned None =>
      forall l, sublist l data -> l <> [] -> ~ within target tolerance l
  | Raised _ => False
  end.
Proof.
  unfold find_subset_sum.
  apply (sum_outer_spec target tolerance data [] [(0, [])] dp_inv_init).
  intros l Hl Hne. apply sublist_nil_r in Hl. contradiction.
Qed.

(** ** Quotient search *)


Lemma isclose_negative (a b rel_tol : Q) :
  rel_tol < 0 -> isclose a b rel_tol = Raised ValueError.
Proof.
  intros H. unfold isclose. now rewrite (proj2 (Qle_bool_false 0 rel_tol) H).
Qed.

Lemma py_div_nonzero (a b : Q) : ~ b == 0 -> py_div a b = Returned (a / b).
Proof.
  intros H. unfold py_div. destruct (Qeq_bool b 0) eqn:E; [|reflexivity].
  apply Qeq_bool_iff in E. contradiction.
Qed.






Lemma quotient_loop_negative (data : list Item) (target tolerance a b : Q)
    (rest : list (Q * Q)) :
  tolerance < 0 -> ~ b == 0 ->
  quotient_loop data target tolerance ((a, b) :: rest) = Raised ValueError.
Proof.
  intros Htol Hb. cbn [quotient_loop].
  rewrite (py_div_nonzero a b Hb). cbn [bind].
  now rewrite isclose_negative.
Qed.

Lemma quotient_pairs_nonzero (data : list Item) (a b : Q) :
  In (a, b) (combinations2
               (map value (List.filter (fun item => nonzero (value item)) data))) ->
  ~ a == 0 /\ ~ b == 0.
Proof.
  intros Hin. apply in_combinations2 in Hin.
  rewrite <- filter_map_value in Hin.
  destruct Hin as [Ha Hb]. apply product_values_nonzero in Ha, Hb. tauto.
Qed.

(** ** Searches that reject every candidate *)


(** ** Provenance: answers are made of items of the store *)

Lemma reconstruct_loop_sound :
  forall (data result : list Item) (remaining : list Q) (items : list Item),
    reconstruct_loop data result remaining = Some items ->
    exists picked, items = result ++ picked /\ picked <> [] /\ sublist picked data.
Proof.
  induction data as [|d t IH]; intros result remaining items; simpl; [discriminate|].
  destruct (py_in (value d) remaining).
  - destruct (py_remove (value d) remaining) as [|r rs].
    + intros H. inversion H; subst. exists [d].
      split; [reflexivity|]. split; [discriminate|].
      apply sublist_skip, sublist_nil_l.
    + intros H. destruct (IH _ _ _ H) as [picked [-> [_ Hsub]]].
      exists (d :: picked). split; [now rewrite <- app_assoc|].
      split; [discriminate|]. now apply sublist_skip.
  - intros H. destruct (IH _ _ _ H) as [picked [-> [Hne Hsub]]].
    exists picked. split; [reflexivity|]. split; [exact Hne|].
    now apply sublist_cons.
Qed.

Lemma reconstruct_items_sound (data : list Item) (values : list Q) (items : list Item) :
  reconstruct_items data values = Some items ->
  items <> [] /\ sublist items data.
Proof.
  intros H. destruct (reconstruct_loop_sound _ _ _ _ H) as [picked [-> H']].
  exact H'.
Qed.

Lemma find_subset_difference_sound (data : list Item) (target tolerance : Q)
    (items : list Item) :
  find_subset_difference data target tolerance = Some items ->
  items <> [] /\ sublist items data.
Proof.
  unfold find_subset_difference. rewrite difference_loop_find.
  destruct (find _ _) as [[a b]|]; [|discriminate].
  apply reconstruct_items_sound.
Qed.

Lemma find_subset_product_sound (data : list Item) (target tolerance : Q)
    (items : list Item) :
  find_subset_product data target tolerance = Some items ->
  items <> [] /\ sublist items data.
Proof.
  unfold find_subset_product.
  rewrite product_pairs_loop_find, product_triplets_loop_find.
  destruct (find (product_check2 _ _) _) as [[a b]|]; cbn [option_map fst snd].
  - apply reconstruct_items_sound.
  - destruct (find (product_check3 _ _) _) as [[[a b] c]|];
      cbn [option_map fst snd]; [|discriminate].
    apply reconstruct_items_sound.
Qed.

Lemma quotient_loop_sound (data : list Item) (target tolerance : Q) :
  forall (pairs : list (Q * Q)) (items : list Item),
    quotient_loop data target tolerance pairs = Returned (Some items) ->
    exists a b, reconstruct_items data [a; b] = Some items.
Proof.
  induction pairs as [|[a b] rest IH]; intros items; cbn [quotient_loop];
    [discriminate|].
  destruct (py_div a b) as [q1|e]; cbn [bind]; [|discriminate].
  destruct (isclose q1 target tolerance) as [[|]|e]; cbn [bind]; [| |discriminate].
  - intros H. inversion H. eauto.
  - destruct (py_div b a) as [q2|e]; cbn [bind]; [|discriminate].
    destruct (isclose q2 target tolerance) as [[|]|e]; cbn [bind];
      [| |discriminate].
    + intros H. inversion H. eauto.
    + apply IH.
Qed.

Lemma find_subset_quotient_sound (data : list Item) (target tolerance : Q)
    (items : list Item) :
  find_subset_quotient data target tolerance = Returned (Some items) ->
  items <> [] /\ sublist items data.
Proof.
  unfold find_subset_quotient. intros H.
  destruct (quotient_loop_sound _ _ _ _ _ H) as [a [b Hrec]].
  destruct (reconstruct_items_sound _ _ _ Hrec) as [Hne Hsub].
  split; [exact Hne|]. etransitivity; [exact Hsub|apply filter_sublist].
Qed.

Lemma dispatch_sound (data : list Item) (target : Q) (operation : string)
    (tolerance : Q) (items : list Item) :
  dispatch data target operation tolerance = Returned (Some items) ->
  items <> [] /\ sublist items data.
Proof.
  unfold dispatch.
  destruct (String.eqb operation "sum").
  { intros H. pose proof (find_subset_sum_spec data target tolerance) as Hspec.
    rewrite H in Hspec. tauto. }
  destruct (String.eqb operation "product").
  { intros H. inversion H. now apply find_subset_product_sound in H1. }
  destruct (String.eqb operation "difference").
  { intros H. inversion H. now apply find_subset_difference_sound in H1. }
  destruct (String.eqb operation "quotient"); [|discriminate].
  apply find_subset_quotient_sound.
Qed.

(** ** The orchestrator *)

Lemma find_subsets_loop_entries (data : list Item) (operation : string)
    (tolerance : Q) :
  forall (targets : list Q) (results : list (Q * list Item)),
    find_subsets_loop data targets operation tolerance results
    = (entries <- matched_entries data targets operation tolerance ;;
       Returned (results ++ entries)).
Proof.
  induction targets as [|target rest IH]; intros results.
  - simpl. now rewrite app_nil_r.
  - cbn [find_subsets_loop matched_entries].
    destruct (dispatch data target operation tolerance) as [[items|]|e] eqn:Hd;
      cbn [bind]; [| |reflexivity].
    + destruct (dispatch_sound _ _ _ _ _ Hd) as [Hne _].
      destruct items as [|x items]; [contradiction|]. cbn [truthy].
      rewrite IH.
      destruct (matched_entries data rest operation tolerance); cbn [bind];
        [|reflexivity].
      now rewrite <- app_assoc.
    + rewrite IH.
      destruct (matched_entries data rest operation tolerance); reflexivity.
Qed.

Lemma matched_entries_spec (data : list Item) (operation : string) (tolerance : Q) :
  forall (targets : list Q) (entries : list (Q * list Item)),
    matched_entries data targets operation tolerance = Returned entries ->
    (forall target, In target targets ->
       exists r, dispatch data target operation tolerance = Returned r)
    /\ sublist (map fst entries) targets
    /\ (forall target items, In (target, items) entries <->
          In target targets
          /\ dispatch data target operation tolerance = Returned (Some items)).
Proof.
  induction targets as [|target rest IH]; intros entries; cbn [matched_entries].
  - intros H. inversion H; subst. split; [intros t []|].
    split; [constructor|]. intros t items. simpl. tauto.
  - destruct (dispatch data target operation tolerance) as [subset|e] eqn:Hd;
      cbn [bind]; [|discriminate].
    destruct (matched_entries data rest operation tolerance) as [es|e];
      cbn [bind]; [|discriminate].
    destruct (IH es eq_refl) as [Hruns [Hsub Hiff]].
    intros H. inversion H; subst. clear H.
    split.
    { intros t [<-|Ht]; [eauto|now apply Hruns]. }
    destruct subset as [items0|].
    + split; [simpl; now apply sublist_skip|].
      intros t items. simpl. rewrite Hiff. split.
      * intros [E|[Ht Hdt]]; [inversion E; subst; tauto|tauto].
      * intros [[<-|Ht] Hdt]; [left; congruence|tauto].
    + split; [now apply sublist_cons|].
      intros t items. rewrite Hiff. simpl. split; [tauto|].
      intros [[<-|Ht] Hdt]; [congruence|tauto].
Qed.

Lemma sublist_In {A : Type} (l k : list A) (x : A) :
  sublist l k -> In x l -> In x k.
Proof.
  induction 1 as [|y l k _ IH|y l k _ IH]; simpl; [tauto| |]; intuition.
Qed.

Lemma find_subsets_entries (data : list Item) (targets : list Q)
    (operation : string) (tolerance : Q) :
  find_subsets data targets operation tolerance
  = matched_entries data targets operation tolerance.
Proof.
  unfold find_subsets. rewrite find_subsets_loop_entries.
  destruct (matched_entries data targets operation tolerance); reflexivity.
Qed.

Lemma matched_entries_total (data : list Item) (operation : string) (tolerance : Q) :
  forall targets : list Q,
    (forall target, In target targets ->
       exists r, dispatch data target operation tolerance = Returned r) ->
    exists entries, matched_entries data targets operation tolerance = Returned entries.
Proof.
  induction targets as [|target rest IH]; intros Hruns; cbn [matched_entries];
    [eauto|].
  destruct (Hruns target (or_introl eq_refl)) as [r ->]. cbn [bind].
  destruct IH as [es ->]; [intros t Ht; apply Hruns; now right|].
  cbn [bind]. eauto.
Qed.

(** C7.  The orchestrator runs the selected strategy once per target, in
    target order ([matched_entries]).  When it returns, its output lists,
    in target order, an entry [(target, items)] exactly for the targets
    whose strategy answered with items, and no entry is empty; a target
    without a match leaves no entry and is no error: the orchestrator
    returns whenever every strategy call returns. *)
Theorem find_subsets_collects_matches (data : list Item) (targets : list Q)
    (operation : string) (tolerance : Q) :
  find_subsets data targets operation tolerance
  = matched_entries data targets operation tolerance
  /\ (forall results,
        find_subsets data targets operation tolerance = Returned results ->
        sublist (map fst results) targets
        /\ (forall target items, In (target, items) results <->
              In target targets
              /\ dispatch data target operation tolerance = Returned (Some items))
        /\ (forall target items, In (target, items) results -> items <> []))
  /\ ((forall target, In target targets ->
         exists r, dispatch data target operation tolerance = Returned r) ->
      exists results,
        find_subsets data targets operation tolerance = Returned results).
Proof.
  split; [apply find_subsets_entries|]. split.
  - intros results H. rewrite find_subsets_entries in H.
    destruct (matched_entries_spec _ _ _ _ _ H) as [_ [Hsub Hiff]].
    split; [exact Hsub|]. split; [exact Hiff|].
    intros target items Hin. apply Hiff in Hin. destruct Hin as [_ Hd].
    now apply dispatch_sound in Hd.
  - intros Hruns. rewrite find_subsets_entries.
    now apply matched_entries_total.
Qed.

Lemma find_subsets_collects_matches_witness :
  find_subsets [A1 1 1; A1 4 2] [5; 100] "sum" 0
  = Returned [(5, [A1 1 1; A1 4 2])]
  /\ (forall items, ~ In (100, items) [(5, [A1 1 1; A1 4 2])]).
Proof.
  assert (H : find_subsets [A1 1 1; A1 4 2] [5; 100] "sum" 0
              = Returned [(5, [A1 1 1; A1 4 2])]) by (vm_compute; reflexivity).
  split; [exact H|].
  intros items Hin.
  destruct (find_subsets_collects_matches [A1 1 1; A1 4 2] [5; 100] "sum" 0)
    as [_ [Hres _]].
  destruct (Hres _ H) as [_ [Hiff _]].
  apply Hiff in Hin. destruct Hin as [_ Hd]. vm_compute in Hd. discriminate.
Defined.

(** C8.  Reconstruction answers with a selection of the items it was
    given, each strategy answers with a selection of the store, and so
    every item of every entry the orchestrator returns is an element of the
    store supplied to the search. *)
Theorem match_results_drawn_from_store (data : list Item) (targets : list Q)
    (operation : string) (tolerance : Q) (results : list (Q * list Item)) :
  find_subsets data targets operation tolerance = Returned results ->
  forall target items, In (target, items) results ->
    In target targets
    /\ sublist items data
    /\ forall x, In x items -> In x data.
Proof.
  intros H target items Hin. rewrite find_subsets_entries in H.
  destruct (matched_entries_spec _ _ _ _ _ H) as [_ [_ Hiff]].
  apply Hiff in Hin. destruct Hin as [Ht Hd].
  destruct (dispatch_sound _ _ _ _ _ Hd) as [_ Hsub].
  split; [exact Ht|]. split; [exact Hsub|].
  intros x Hx. exact (sublist_In _ _ _ Hsub Hx).
Qed.

Lemma match_results_drawn_from_store_witness :
  find_subsets
    [mkItem 7 "A" 0; mkItem 4 "A" 1; mkItem 0 "B" 1; mkItem 12 "B" 2]
    [3] "quotient" (1 # 100)
  = Returned [(3, [mkItem 4 "A" 1; mkItem 12 "B" 2])]
  /\ In 3 [3]
  /\ sublist [mkItem 4 "A" 1; mkItem 12 "B" 2]
             [mkItem 7 "A" 0; mkItem 4 "A" 1; mkItem 0 "B" 1; mkItem 12 "B" 2]
  /\ In (mkItem 12 "B" 2)
        [mkItem 7 "A" 0; mkItem 4 "A" 1; mkItem 0 "B" 1; mkItem 12 "B" 2].
Proof.
  assert (H : find_subsets
                [mkItem 7 "A" 0; mkItem 4 "A" 1; mkItem 0 "B" 1; mkItem 12 "B" 2]
                [3] "quotient" (1 # 100)
              = Returned [(3, [mkItem 4 "A" 1; mkItem 12 "B" 2])])
    by (vm_compute; reflexivity).
  split; [exact H|].
  destruct (match_results_drawn_from_store _ _ _ _ _ H 3
              [mkItem 4 "A" 1; mkItem 12 "B" 2] (or_introl eq_refl))
    as [Ht [Hsub Hin]].
  split; [exact Ht|]. split; [exact Hsub|].
  apply Hin. right. now left.
Defined.

(** ** Reconstruction follows the order of the store *)

(** On a value list that no strategy would hand over, Reconstruction
    answers in store order, whatever the order of the wanted values. *)
Example reconstruct_items_store_order :
  reconstruct_items [A1 5 1; A1 3 2] [3; 5] = Some [A1 5 1; A1 3 2].
Proof. vm_compute. reflexivity. Qed.

(** * Further properties of the code *)

(** ** Reconstruction on arbitrary inputs *)

Lemma occurrences_cons (v y : Q) (l : list Q) :
  occurrences v (y :: l)
  = ((if Qeq_bool v y then 1 else 0) + occurrences v l)%nat.
Proof. unfold occurrences. simpl. now destruct (Qeq_bool v y). Qed.

Lemma py_remove_occurrences (x : Q) (l : list Q) :
  py_in x l = true ->
  forall v, occurrences v l
            = (occurrences v (py_remove x l) + (if Qeq_bool v x then 1 else 0))%nat.
Proof.
  induction l as [|y t IH]; simpl; [discriminate|].
  intros Hin v. rewrite occurrences_cons.
  destruct (Qeq_bool x y) eqn:Exy; simpl in Hin.
  - apply Qeq_bool_iff in Exy.
    rewrite (Qeq_bool_compat v v y x (Qeq_refl v) (Qeq_sym _ _ Exy)). lia.
  - rewrite occurrences_cons, (IH Hin v). lia.
Qed.

Lemma py_remove_length (x : Q) (l : list Q) :
  py_in x l = true -> length l = S (length (py_remove x l)).
Proof.
  induction l as [|y t IH]; simpl; [discriminate|].
  destruct (Qeq_bool x y); simpl; [reflexivity|].
  intros Hin. now rewrite (IH Hin).
Qed.

Lemma py_in_false_occurrences (x : Q) (l : list Q) :
  py_in x l = false -> forall v, Qeq_bool v x = true -> occurrences v l = 0%nat.
Proof.
  intros Hin v Ev. apply Qeq_bool_iff in Ev.
  induction l as [|y t IH]; [reflexivity|].
  simpl in Hin. apply orb_false_iff in Hin. destruct Hin as [Exy Hin].
  rewrite occurrences_cons, (IH Hin).
  now rewrite (Qeq_bool_compat v x y y Ev (Qeq_refl y)), Exy.
Qed.

Lemma reconstruct_loop_occurrences :
  forall (data result : list Item) (remaining : list Q) (items : list Item),
    reconstruct_loop data result remaining = Some items ->
    exists picked,
      items = result ++ picked
      /\ sublist picked data
      /\ length picked = length remaining
      /\ forall v, occurrences v (map value picked) = occurrences v remaining.
Proof.
  induction data as [|d t IH]; intros result remaining items; simpl; [discriminate|].
  destruct (py_in (value d) remaining) eqn:Hin.
  - pose proof (py_remove_occurrences _ _ Hin) as Hocc.
    pose proof (py_remove_length _ _ Hin) as Hlen.
    destruct (py_remove (value d) remaining) as [|r rs].
    + intros H. inversion H; subst. exists [d].
      split; [reflexivity|]. split; [apply sublist_skip, sublist_nil_l|].
      split; [now rewrite Hlen|].
      intros v. rewrite (Hocc v). simpl. rewrite occurrences_cons.
      unfold occurrences. simpl. lia.
    + intros H. destruct (IH _ _ _ H) as [picked [-> [Hsub [Hl Ho]]]].
      exists (d :: picked). split; [now rewrite <- app_assoc|].
      split; [now apply sublist_skip|]. split; [simpl; lia|].
      intros v. rewrite (Hocc v). simpl. rewrite occurrences_cons, (Ho v). lia.
  - intros H. destruct (IH _ _ _ H) as [picked [-> [Hsub [Hl Ho]]]].
    exists picked. split; [reflexivity|]. split; [now apply sublist_cons|].
    now split.
Qed.

(** X1.  Whatever it is asked for, an answer of [reconstruct_items] is a
    selection of the store, in store order, with as many items as wanted
    values, and every number occurs among the values of the answer exactly
    as often as among the wanted values. *)
Theorem reconstruct_items_permutes_wanted
    (full_data : list Item) (values : list Q) (items : list Item) :
  reconstruct_items full_data values = Some items ->
  sublist items full_data
  /\ length items = length values
  /\ forall v, occurrences v (map value items) = occurrences v values.
Proof.
  intros H. destruct (reconstruct_loop_occurrences _ _ _ _ H)
    as [picked [-> [Hsub [Hlen Hocc]]]].
  now repeat split.
Qed.

Lemma reconstruct_items_permutes_wanted_witness :
  sublist [A1 5 1; A1 3 2] [A1 5 1; A1 3 2; A1 5 3]
  /\ length [A1 5 1; A1 3 2] = length [3; 5]
  /\ forall v, occurrences v (map value [A1 5 1; A1 3 2]) = occurrences v [3; 5].
Proof.
  apply (reconstruct_items_permutes_wanted [A1 5 1; A1 3 2; A1 5 3] [3; 5]).
  vm_compute. reflexivity.
Defined.

Lemma reconstruct_loop_succeeds :
  forall (data result : list Item) (remaining : list Q),
    remaining <> [] ->
    (exists items, reconstruct_loop data result remaining = Some items)
    <-> forall v, (occurrences v remaining <= occurrences v (map value data))%nat.
Proof.
  induction data as [|d t IH]; intros result remaining Hne.
  - simpl. split; [intros [items H]; discriminate|].
    intros H. destruct remaining as [|r rs]; [contradiction|].
    specialize (H r). rewrite occurrences_cons in H.
    rewrite (proj2 (Qeq_bool_iff r r) (Qeq_refl r)) in H.
    unfold occurrences in H at 2. simpl in H. lia.
  - cbn [reconstruct_loop map].
    destruct (py_in (value d) remaining) eqn:Hin.
    + pose proof (py_remove_occurrences _ _ Hin) as Hocc.
      destruct (py_remove (value d) remaining) as [|r rs] eqn:Hrem.
      * split; [|eauto]. intros _ v. rewrite (Hocc v), occurrences_cons.
        unfold occurrences at 1. simpl. lia.
      * rewrite IH by discriminate.
        split; intros H v; specialize (H v); pose proof (Hocc v) as Hv;
          rewrite (occurrences_cons v (value d)) in *; lia.
    + rewrite IH by exact Hne. split; intros H v; specialize (H v).
      * rewrite occurrences_cons. lia.
      * rewrite occurrences_cons in H.
        destruct (Qeq_bool v (value d)) eqn:Ev; [|exact H].
        rewrite (py_in_false_occurrences _ _ Hin v Ev). lia.
Qed.

(** X2.  [reconstruct_items] answers exactly when it is asked for at least
    one value and the store holds every wanted number at least as often as
    it is wanted; otherwise (an empty list of wanted values, or a value the
    store lacks) it returns [None]. *)
Theorem reconstruct_items_succeeds_iff (full_data : list Item) (values : list Q) :
  (exists items, reconstruct_items full_data values = Some items)
  <-> values <> []
      /\ forall v, (occurrences v values <= occurrences v (map value full_data))%nat.
Proof.
  unfold reconstruct_items. destruct values as [|w ws].
  - split; [|intros [H _]; contradiction].
    intros [items H]. exfalso. clear - H.
    induction full_data as [|d t IH]; simpl in H; [discriminate|]. now apply IH.
  - rewrite reconstruct_loop_succeeds by discriminate.
    split; [intros H; split; [discriminate|exact H]|tauto].
Qed.

(** ** Edge cases of the pair and triplet searches *)

Lemma combinations2_short {A : Type} (l : list A) :
  (length l < 2)%nat -> combinations2 l = [].
Proof. destruct l as [|x [|y t]]; simpl; intros H; [reflexivity|reflexivity|lia]. Qed.

Lemma combinations3_short {A : Type} (l : list A) :
  (length l < 2)%nat -> combinations3 l = [].
Proof. destruct l as [|x [|y t]]; simpl; intros H; [reflexivity|reflexivity|lia]. Qed.

Lemma find_subset_quotient_few (data : list Item) (target tolerance : Q) :
  (length (List.filter (fun item => nonzero (value item)) data) < 2)%nat ->
  find_subset_quotient data target tolerance = Returned None.
Proof.
  intros H. unfold find_subset_quotient.
  rewrite combinations2_short by now rewrite length_map. reflexivity.
Qed.

(** X4.  A store with fewer than two items has no pair to offer: the
    difference search reports no-match; with fewer than two nonzero items
    the product search reports no-match and the quotient search returns
    no-match without raising, whatever the target and the tolerance (even
    a negative one). *)
Theorem searches_need_two_items (data : list Item) (target tolerance : Q) :
  ((length data < 2)%nat -> find_subset_difference data target tolerance = None)
  /\ ((length (List.filter (fun item => nonzero (value item)) data) < 2)%nat ->
      find_subset_product data target tolerance = None
      /\ find_subset_quotient data target tolerance = Returned None).
Proof.
  split.
  - intros H. unfold find_subset_difference.
    rewrite combinations2_short by now rewrite length_map. reflexivity.
  - intros H. split.
    + unfold find_subset_product. rewrite filter_map_value.
      rewrite combinations2_short, combinations3_short by now rewrite length_map.
      reflexivity.
    + now apply find_subset_quotient_few.
Qed.

Lemma searches_need_two_items_witness :
  find_subset_difference [A1 7 1] 0 0 = None
  /\ find_subset_product [A1 0 1; A1 7 2; A1 0 3] 0 (- (1)) = None
  /\ find_subset_quotient [A1 0 1; A1 7 2; A1 0 3] 0 (- (1)) = Returned None.
Proof.
  destruct (searches_need_two_items [A1 7 1] 0 0) as [Hd _].
  destruct (searches_need_two_items [A1 0 1; A1 7 2; A1 0 3] 0 (- (1))) as [_ Hpq].
  split; [apply Hd; simpl; lia|]. apply Hpq. simpl. lia.
Defined.

Lemma find_subset_quotient_many (data : list Item) (target tolerance : Q) :
  tolerance < 0 ->
  (2 <= length (List.filter (fun item => nonzero (value item)) data))%nat ->
  find_subset_quotient data target tolerance = Raised ValueError.
Proof.
  intros Htol Hmany. unfold find_subset_quotient.
  pose proof (quotient_pairs_nonzero data) as Hnz.
  destruct (List.filter (fun item => nonzero (value item)) data)
    as [|d1 [|d2 rest]]; simpl in Hmany; try lia.
  cbn [map combinations2 app]. apply quotient_loop_negative; [exact Htol|].
  apply (Hnz (value d1) (value d2)). now left.
Qed.

(** X5.  Under a strictly negative tolerance the quotient search raises
    [ValueError] exactly when the store holds at least two nonzero items,
    and returns no-match exactly when it holds fewer. *)
Theorem find_subset_quotient_negative_tolerance_iff
    (data : list Item) (target tolerance : Q) :
  tolerance < 0 ->
  (find_subset_quotient data target tolerance = Raised ValueError
   <-> (2 <= length (List.filter (fun item => nonzero (value item)) data))%nat)
  /\ (find_subset_quotient data target tolerance = Returned None
      <-> (length (List.filter (fun item => nonzero (value item)) data) < 2)%nat).
Proof.
  intros Htol.
  destruct (le_lt_dec 2 (length (List.filter (fun item => nonzero (value item)) data)))
    as [Hmany|Hfew].
  - rewrite (find_subset_quotient_many data target tolerance Htol Hmany). split; split; try discriminate; try lia; trivial.
  - rewrite (find_subset_quotient_few data target tolerance Hfew).
    split; split; try discriminate; try lia; trivial.
Qed.

Lemma find_subset_quotient_negative_tolerance_iff_witness :
  find_subset_quotient [A1 4 1; A1 0 2; A1 12 3] 3 (- (1 # 100))
  = Raised ValueError.
Proof.
  assert (Htol : - (1 # 100) < 0) by reflexivity.
  destruct (find_subset_quotient_negative_tolerance_iff
              [A1 4 1; A1 0 2; A1 12 3] 3 (- (1 # 100)) Htol) as [[_ H] _].
  apply H. simpl. lia.
Defined.

(** X7.  The difference search compares the non-negative number [|a - b|]
    with the target, so a target below [- tolerance] is out of reach: the
    search reports no-match on every store. *)
Theorem find_subset_difference_negative_target
    (data : list Item) (target tolerance : Q) :
  target + tolerance < 0 -> find_subset_difference data target tolerance = None.
Proof.
  intros H. unfold find_subset_difference. rewrite difference_loop_find.
  rewrite find_all_false; [reflexivity|].
  intros [a b]. unfold difference_check. cbn [fst snd].
  apply Qle_bool_false. eapply Qlt_le_trans; [|apply Qle_Qabs].
  apply Qlt_le_trans with (0 - target).
  - apply Qplus_lt_l with (z := target).
    assert (E : 0 - target + target == 0) by ring. rewrite E.
    now rewrite Qplus_comm.
  - apply Qplus_le_l with (z := target).
    assert (E : 0 - target + target == 0) by ring. rewrite E.
    assert (E' : Qabs (a - b) - target + target == Qabs (a - b)) by ring.
    rewrite E'. apply Qabs_nonneg.
Qed.

Lemma find_subset_difference_negative_target_witness :
  find_subset_difference [A1 1 1; A1 4 2] (- (3)) 1 = None.
Proof. apply find_subset_difference_negative_target. reflexivity. Defined.

(** ** The orchestrator: operations, target lists, entry sizes *)

Lemma dispatch_unknown (data : list Item) (target : Q) (operation : string)
    (tolerance : Q) :
  operation <> "sum"%string -> operation <> "product"%string ->
  operation <> "difference"%string -> operation <> "quotient"%string ->
  dispatch data target operation tolerance = Raised UnboundLocalError.
Proof.
  intros H1 H2 H3 H4. unfold dispatch.
  rewrite (proj2 (String.eqb_neq _ _) H1), (proj2 (String.eqb_neq _ _) H2),
    (proj2 (String.eqb_neq _ _) H3), (proj2 (String.eqb_neq _ _) H4).
  reflexivity.
Qed.

(** X8.  An operation name other than the four known ones binds no
    [subset]: with at least one target the orchestrator raises
    [UnboundLocalError] and returns no result; with no target at all it
    returns the empty list, since the operation is never looked at. *)
Theorem find_subsets_unknown_operation (data : list Item) (targets : list Q)
    (operation : string) (tolerance : Q) :
  operation <> "sum"%string -> operation <> "product"%string ->
  operation <> "difference"%string -> operation <> "quotient"%string ->
  find_subsets data [] operation tolerance = Returned []
  /\ (targets <> [] ->
      find_subsets data targets operation tolerance = Raised UnboundLocalError).
Proof.
  intros H1 H2 H3 H4. split; [reflexivity|].
  destruct targets as [|target rest]; [contradiction|]. intros _.
  unfold find_subsets. cbn [find_subsets_loop].
  now rewrite dispatch_unknown.
Qed.

Lemma find_subsets_unknown_operation_witness :
  find_subsets [A1 1 1; A1 4 2] [] "Sum" 0 = Returned []
  /\ find_subsets [A1 1 1; A1 4 2] [5] "Sum" 0 = Raised UnboundLocalError.
Proof.
  destruct (find_subsets_unknown_operation [A1 1 1; A1 4 2] [5] "Sum" 0)
    as [H0 H1]; try discriminate.
  split; [exact H0|]. apply H1. discriminate.
Defined.

Lemma matched_entries_app (data : list Item) (operation : string) (tolerance : Q) :
  forall targets1 targets2 : list Q,
    matched_entries data (targets1 ++ targets2) operation tolerance
    = (r1 <- matched_entries data targets1 operation tolerance ;;
       r2 <- matched_entries data targets2 operation tolerance ;;
       Returned (r1 ++ r2)).
Proof.
  induction targets1 as [|target rest IH]; intros targets2.
  - simpl. destruct (matched_entries data targets2 operation tolerance); reflexivity.
  - cbn [app matched_entries].
    destruct (dispatch data target operation tolerance) as [subset|e];
      cbn [bind]; [|reflexivity].
    rewrite IH.
    destruct (matched_entries data rest operation tolerance) as [r1|e];
      cbn [bind]; [|reflexivity].
    destruct (matched_entries data targets2 operation tolerance) as [r2|e];
      cbn [bind]; [|reflexivity].
    now destruct subset.
Qed.

(** X9.  Searching a concatenated target list is searching the first list,
    then the second, and appending the two outputs; an exception of the
    first part is the exception of the whole, and the second part is then
    not searched. *)
Theorem find_subsets_app (data : list Item) (targets1 targets2 : list Q)
    (operation : string) (tolerance : Q) :
  find_subsets data (targets1 ++ targets2) operation tolerance
  = (r1 <- find_subsets data targets1 operation tolerance ;;
     r2 <- find_subsets data targets2 operation tolerance ;;
     Returned (r1 ++ r2)).
Proof. rewrite !find_subsets_entries. apply matched_entries_app. Qed.

Lemma reconstruct_items_length (data : list Item) (values : list Q)
    (items : list Item) :
  reconstruct_items data values = Some items -> length items = length values.
Proof.
  intros H. destruct (reconstruct_loop_occurrences _ _ _ _ H)
    as [picked [-> [_ [Hlen _]]]].
  exact Hlen.
Qed.

(** X10.  The entries handed to [display_results] have the sizes it
    indexes: every entry of a difference or quotient search has exactly
    two items (so [subset[0]] and [subset[1]] exist), and every entry of a
    product search has two or three. *)
Theorem find_subsets_entry_sizes (data : list Item) (targets : list Q)
    (operation : string) (tolerance : Q) (results : list (Q * list Item)) :
  find_subsets data targets operation tolerance = Returned results ->
  forall target items, In (target, items) results ->
    (operation = "difference"%string \/ operation = "quotient"%string ->
     length items = 2%nat)
    /\ (operation = "product"%string ->
        length items = 2%nat \/ length items = 3%nat).
Proof.
  intros H target items Hin. rewrite find_subsets_entries in H.
  destruct (matched_entries_spec _ _ _ _ _ H) as [_ [_ Hiff]].
  apply Hiff in Hin. destruct Hin as [_ Hd]. split.
  - intros [-> | ->]; unfold dispatch in Hd; cbn in Hd.
    + inversion Hd as [Hd']. unfold find_subset_difference in Hd'.
      rewrite difference_loop_find in Hd'.
      destruct (find _ _) as [[a b]|]; [|discriminate].
      exact (reconstruct_items_length _ _ _ Hd').
    + destruct (quotient_loop_sound _ _ _ _ _ Hd) as [a [b Hrec]].
      exact (reconstruct_items_length _ _ _ Hrec).
  - intros ->. unfold dispatch in Hd. cbn in Hd. inversion Hd as [Hd'].
    unfold find_subset_product in Hd'.
    rewrite product_pairs_loop_find, product_triplets_loop_find in Hd'.
    destruct (find (product_check2 _ _) _) as [[a b]|]; cbn [option_map fst snd] in Hd'.
    + left. exact (reconstruct_items_length _ _ _ Hd').
    + destruct (find (product_check3 _ _) _) as [[[a b] c]|];
        cbn [option_map fst snd] in Hd'; [|discriminate].
      right. exact (reconstruct_items_length _ _ _ Hd').
Qed.

Lemma find_subsets_entry_sizes_witness :
  length [mkItem 4 "A" 1; mkItem 12 "B" 2] = 2%nat.
Proof.
  assert (H : find_subsets [mkItem 4 "A" 1; mkItem 12 "B" 2] [3] "quotient" (1 # 100)
              = Returned [(3, [mkItem 4 "A" 1; mkItem 12 "B" 2])])
    by (vm_compute; reflexivity).
  destruct (find_subsets_entry_sizes _ _ _ _ _ H 3
              [mkItem 4 "A" 1; mkItem 12 "B" 2] (or_introl eq_refl)) as [H2 _].
  apply H2. now right.
Defined.

(** X11.  A negative tolerance aborts a quotient search as a whole: when
    the store holds two nonzero items and there is at least one target,
    the orchestrator raises [ValueError] and returns no entry at all. *)
Theorem find_subsets_quotient_negative_tolerance (data : list Item)
    (targets : list Q) (tolerance : Q) :
  tolerance < 0 ->
  (2 <= length (List.filter (fun item => nonzero (value item)) data))%nat ->
  targets <> [] ->
  find_subsets data targets "quotient" tolerance = Raised ValueError.
Proof.
  intros Htol Hmany Hne. destruct targets as [|target rest]; [contradiction|].
  unfold find_subsets. cbn [find_subsets_loop]. unfold dispatch. cbn.
  now rewrite find_subset_quotient_many.
Qed.

Lemma find_subsets_quotient_negative_tolerance_witness :
  find_subsets [A1 4 1; A1 12 2] [3; 5] "quotient" (- (1 # 100))
  = Raised ValueError.
Proof.
  apply find_subsets_quotient_negative_tolerance;
    [reflexivity|simpl; lia|discriminate].
Defined.

(** ** The progress tracker *)

Lemma evolves_refl (t : ProgressTracker) : evolves t t.
Proof. split; [reflexivity|now left]. Qed.

Lemma evolves_trans (t1 t2 t3 : ProgressTracker) :
  evolves t1 t2 -> evolves t2 t3 -> evolves t1 t3.
Proof.
  intros [Htot12 H12] [Htot23 H23]. split; [congruence|].
  destruct H23 as [->|[Hlt [Hbar Hrange]]]; [exact H12|].
  right. split; [|now split].
  destruct H12 as [->|[Hlt' _]]; lia.
Qed.

Lemma update_ok (t : ProgressTracker) (msg : message) :
  total_steps t <> 0%nat ->
  exists t', update t msg = (Returned tt, t')
             /\ current_step t' = S (current_step t)
             /\ status_text t' = Some (msg, S (current_step t), total_steps t)
             /\ evolves t t'.
Proof.
  intros Htot. unfold update.
  destruct (Nat.eqb (total_steps t) 0) eqn:E; [apply Nat.eqb_eq in E; contradiction|].
  eexists. split; [reflexivity|]. split; [reflexivity|]. split; [reflexivity|].
  split; [reflexivity|]. right. cbn [current_step total_steps progress_bar].
  split; [lia|]. split; [reflexivity|].
  assert (Hpos : 0 < inject_Z (Z.of_nat (S (current_step t)))
                     / inject_Z (Z.of_nat (total_steps t))).
  { apply Qlt_shift_div_l.
    - change 0 with (inject_Z 0). rewrite <- Zlt_Qlt. lia.
    - assert (E0 : 0 * inject_Z (Z.of_nat (total_steps t)) == 0) by ring.
      rewrite E0. change 0 with (inject_Z 0). rewrite <- Zlt_Qlt. lia. }
  split.
  - apply Q.min_glb_lt; [exact Hpos|reflexivity].
  - apply Q.le_min_r.
Qed.

Lemma update_zero_total (t : ProgressTracker) (msg : message) :
  total_steps t = 0%nat ->
  update t msg
  = (Raised ZeroDivisionError,
     mkTracker (progress_bar t) (status_text t) (S (current_step t)) 0).
Proof. intros Htot. unfold update. now rewrite Htot. Qed.

Lemma transparent_ret {A : Type} (a : A) : transparent (tret a) (Returned a).
Proof.
  split; [reflexivity|]. intros t _. exists t. split; [reflexivity|apply evolves_refl].
Qed.

Lemma transparent_lift {A : Type} (o : outcome A) : transparent (tlift o) o.
Proof.
  split; [reflexivity|]. intros t _. exists t. split; [reflexivity|apply evolves_refl].
Qed.

Lemma transparent_notify (msg : message) : transparent (notify msg) (Returned tt).
Proof.
  split; [reflexivity|]. intros t Htot.
  destruct (update_ok t msg Htot) as [t' [Hup [_ [_ Hev]]]].
  exists t'. unfold notify. now rewrite Hup.
Qed.

Lemma transparent_bind {A B : Type} (m : tracked A) (o : outcome A)
    (k : A -> tracked B) (k' : A -> outcome B) :
  transparent m o ->
  (forall a, o = Returned a -> transparent (k a) (k' a)) ->
  transparent (tbind m k) (bind o k').
Proof.
  intros [Hnone Hsome] Hk. split.
  - unfold tbind. rewrite Hnone. destruct o as [a|e]; [|reflexivity].
    exact (proj1 (Hk a eq_refl)).
  - intros t Htot. destruct (Hsome t Htot) as [t1 [Hm Hev1]].
    unfold tbind. rewrite Hm. destruct o as [a|e].
    + destruct (Hk a eq_refl) as [_ Hk'].
      destruct (Hk' t1) as [t2 [Hka Hev2]]; [destruct Hev1; congruence|].
      exists t2. split; [exact Hka|]. eapply evolves_trans; eassumption.
    + exists t1. now split.
Qed.

Lemma transparent_sum_outer (target tolerance : Q) :
  forall (data : list Item) (i : nat) (dp : dict),
    transparent (Tracked.sum_outer i data target tolerance dp)
                (sum_outer data target tolerance dp).
Proof.
  induction data as [|item rest IH]; intros i dp; [apply transparent_ret|].
  cbn [Tracked.sum_outer sum_outer].
  apply (transparent_bind _ (Returned tt) _
           (fun _ => r <- sum_inner item target tolerance (dict_keys dp) dp ;;
                     match r with
                     | Return items => Returned (Some items)
                     | Next dp' => sum_outer rest target tolerance dp'
                     end)).
  - destruct (Nat.eqb (i mod 100) 0); [apply transparent_notify|apply transparent_ret].
  - intros _ _. apply transparent_bind; [apply transparent_lift|].
    intros [items|dp'] _; [apply transparent_ret|apply IH].
Qed.

Lemma transparent_difference_loop (data : list Item) (target tolerance : Q) :
  forall pairs : list (Q * Q),
    transparent (Tracked.difference_loop data target tolerance pairs)
                (Returned (difference_loop data target tolerance pairs)).
Proof.
  induction pairs as [|[a b] rest IH]; [apply transparent_ret|].
  cbn [Tracked.difference_loop difference_loop].
  apply (transparent_bind _ (Returned tt) _
           (fun _ => Returned (if difference_check target tolerance (a, b)
                               then reconstruct_items data [a; b]
                               else difference_loop data target tolerance rest)));
    [apply transparent_notify|].
  intros _ _. destruct (difference_check target tolerance (a, b));
    [apply transparent_ret|apply IH].
Qed.

Lemma transparent_product_pairs_loop (data : list Item) (target tolerance : Q) :
  forall pairs : list (Q * Q),
    transparent (Tracked.product_pairs_loop data target tolerance pairs)
                (Returned (product_pairs_loop data target tolerance pairs)).
Proof.
  induction pairs as [|[a b] rest IH]; [apply transparent_ret|].
  cbn [Tracked.product_pairs_loop product_pairs_loop].
  apply (transparent_bind _ (Returned tt) _
           (fun _ => Returned (if product_check2 target tolerance (a, b)
                               then Some (reconstruct_items data [a; b])
                               else product_pairs_loop data target tolerance rest)));
    [apply transparent_notify|].
  intros _ _. destruct (product_check2 target tolerance (a, b));
    [apply transparent_ret|apply IH].
Qed.

Lemma transparent_product_triplets_loop (data : list Item) (target tolerance : Q) :
  forall triplets : list (Q * Q * Q),
    transparent (Tracked.product_triplets_loop data target tolerance triplets)
                (Returned (product_triplets_loop data target tolerance triplets)).
Proof.
  induction triplets as [|[[a b] c] rest IH]; [apply transparent_ret|].
  cbn [Tracked.product_triplets_loop product_triplets_loop].
  apply (transparent_bind _ (Returned tt) _
           (fun _ => Returned (if product_check3 target tolerance (a, b, c)
                               then Some (reconstruct_items data [a; b; c])
                               else product_triplets_loop data target tolerance rest)));
    [apply transparent_notify|].
  intros _ _. destruct (product_check3 target tolerance (a, b, c));
    [apply transparent_ret|apply IH].
Qed.

Lemma transparent_quotient_loop (data : list Item) (target tolerance : Q) :
  forall pairs : list (Q * Q),
    transparent (Tracked.quotient_loop data target tolerance pairs)
                (quotient_loop data target tolerance pairs).
Proof.
  induction pairs as [|[a b] rest IH]; [apply transparent_ret|].
  cbn [Tracked.quotient_loop quotient_loop].
  apply (transparent_bind _ (Returned tt) _
           (fun _ => quotient_loop data target tolerance ((a, b) :: rest)));
    [apply transparent_notify|].
  intros _ _. cbn [quotient_loop].
  apply transparent_bind; [apply transparent_lift|]. intros q1 _.
  apply transparent_bind; [apply transparent_lift|]. intros [|] _;
    [apply transparent_ret|].
  apply transparent_bind; [apply transparent_lift|]. intros q2 _.
  apply transparent_bind; [apply transparent_lift|]. intros [|] _;
    [apply transparent_ret|apply IH].
Qed.

Lemma transparent_find_subset_product (data : list Item) (target tolerance : Q) :
  transparent (Tracked.find_subset_product data target tolerance)
              (Returned (find_subset_product data target tolerance)).
Proof.
  unfold Tracked.find_subset_product, find_subset_product.
  set (values := List.filter nonzero (map value data)).
  apply (transparent_bind _ (Returned (product_pairs_loop data target tolerance
                                         (combinations2 values))) _
           (fun r => Returned match r with
                              | Some r => r
                              | None =>
                                  match product_triplets_loop data target tolerance
                                          (combinations3 values) with
                                  | Some r => r
                                  | None => None
                                  end
                              end));
    [apply transparent_product_pairs_loop|].
  intros [r|] _; [apply transparent_ret|].
  apply (transparent_bind _ (Returned (product_triplets_loop data target tolerance
                                         (combinations3 values))) _
           (fun r => Returned match r with Some r => r | None => None end));
    [apply transparent_product_triplets_loop|].
  intros [r|] _; apply transparent_ret.
Qed.

Lemma transparent_dispatch (data : list Item) (target : Q) (operation : string)
    (tolerance : Q) :
  transparent (Tracked.dispatch data target operation tolerance)
              (dispatch data target operation tolerance).
Proof.
  unfold Tracked.dispatch, dispatch.
  destruct (String.eqb operation "sum"); [apply transparent_sum_outer|].
  destruct (String.eqb operation "product"); [apply transparent_find_subset_product|].
  destruct (String.eqb operation "difference"); [apply transparent_difference_loop|].
  destruct (String.eqb operation "quotient"); [apply transparent_quotient_loop|].
  apply transparent_lift.
Qed.

Lemma transparent_find_subsets_loop (data : list Item) (operation : string)
    (tolerance : Q) :
  forall (targets : list Q) (results : list (Q * list Item)),
    transparent (Tracked.find_subsets_loop data targets operation tolerance results)
                (find_subsets_loop data targets operation tolerance results).
Proof.
  induction targets as [|target rest IH]; intros results; [apply transparent_ret|].
  cbn [Tracked.find_subsets_loop find_subsets_loop].
  apply (transparent_bind _ (Returned tt) _
           (fun _ => find_subsets_loop data (target :: rest) operation tolerance results));
    [apply transparent_notify|].
  intros _ _. cbn [find_subsets_loop].
  apply transparent_bind; [apply transparent_dispatch|].
  intros [items|] _; [|apply IH].
  destruct (truthy (Some items)); apply IH.
Qed.

(** X12.  The progress tracker does not change what the four searches
    answer.  Run with [progress = None], or with a tracker whose total is
    not zero, each search has the outcome of the search without a tracker;
    the tracker keeps its total, its counter never decreases, and once
    written its bar shows [min(current_step / total_steps, 1)], within
    [(0, 1]]. *)
Theorem tracked_searches_transparent (data : list Item) (target tolerance : Q) :
  transparent (Tracked.find_subset_sum data target tolerance)
              (find_subset_sum data target tolerance)
  /\ transparent (Tracked.find_subset_difference data target tolerance)
                 (Returned (find_subset_difference data target tolerance))
  /\ transparent (Tracked.find_subset_product data target tolerance)
                 (Returned (find_subset_product data target tolerance))
  /\ transparent (Tracked.find_subset_quotient data target tolerance)
                 (find_subset_quotient data target tolerance).
Proof.
  split; [apply transparent_sum_outer|].
  split; [apply transparent_difference_loop|].
  split; [apply transparent_find_subset_product|apply transparent_quotient_loop].
Qed.

Lemma tracked_find_subsets_loop_steps (data : list Item) (operation : string)
    (tolerance : Q) :
  forall (targets : list Q) (acc results : list (Q * list Item))
         (t t' : ProgressTracker),
    total_steps t <> 0%nat ->
    Tracked.find_subsets_loop data targets operation tolerance acc (Some t)
    = (Returned results, Some t') ->
    (current_step t + length targets <= current_step t')%nat.
Proof.
  induction targets as [|target rest IH]; intros acc results t t' Htot.
  - cbn. intros H. inversion H; subst. lia.
  - cbn [Tracked.find_subsets_loop]. unfold tbind at 1.
    destruct (update_ok t (Searching target) Htot) as [t1 [Hup [Hstep [_ Hev1]]]].
    unfold notify. rewrite Hup. unfold tbind at 1.
    assert (Htot1 : total_steps t1 <> 0%nat) by (destruct Hev1; congruence).
    destruct (proj2 (transparent_dispatch data target operation tolerance) t1 Htot1)
      as [t2 [Hd Hev2]].
    rewrite Hd.
    assert (Htot2 : total_steps t2 <> 0%nat) by (destruct Hev2; congruence).
    assert (Hle : (current_step t1 <= current_step t2)%nat).
    { destruct Hev2 as [_ [->|[Hlt _]]]; lia. }
    destruct (dispatch data target operation tolerance) as [[items|]|e];
      [| |discriminate].
    + destruct (truthy (Some items)); intros H;
        apply (IH _ _ _ _ Htot2) in H; cbn [length]; lia.
    + intros H. apply (IH _ _ _ _ Htot2) in H. cbn [length]. lia.
Qed.

(** X13.  The orchestrator with a tracker whose total is not zero returns
    what the orchestrator without a tracker returns, and so does the
    orchestrator with [progress = None].  The tracker only evolves, and when
    the search returns, its counter has advanced by at least one step per
    target. *)
Theorem tracked_find_subsets_transparent (data : list Item) (targets : list Q)
    (operation : string) (tolerance : Q) :
  Tracked.find_subsets data targets operation tolerance None
  = (find_subsets data targets operation tolerance, None)
  /\ forall t, total_steps t <> 0%nat ->
       exists t',
         Tracked.find_subsets data targets operation tolerance (Some t)
         = (find_subsets data targets operation tolerance, Some t')
         /\ evolves t t'
         /\ forall results,
              find_subsets data targets operation tolerance = Returned results ->
              (current_step t + length targets <= current_step t')%nat.
Proof.
  destruct (transparent_find_subsets_loop data operation tolerance targets [])
    as [Hnone Hsome].
  split; [exact Hnone|]. intros t Htot.
  destruct (Hsome t Htot) as [t' [Hrun Hev]].
  exists t'. split; [exact Hrun|]. split; [exact Hev|].
  intros results Hres. unfold find_subsets in Hres.
  unfold Tracked.find_subsets in *. rewrite Hres in Hrun.
  exact (tracked_find_subsets_loop_steps _ _ _ _ _ _ _ _ Htot Hrun).
Qed.

(** X14.  A tracker whose total is zero makes the first update divide by
    zero: with at least one target the orchestrator raises
    [ZeroDivisionError] before any search, leaving the counter incremented
    and the widgets untouched.  This is what happens with the tracker
    [main] builds for an empty store, whose total is
    [len(targets) * len(data) = 0]. *)
Theorem tracked_find_subsets_zero_total (data : list Item) (targets : list Q)
    (operation : string) (tolerance : Q) :
  targets <> [] ->
  (forall t, total_steps t = 0%nat ->
     Tracked.find_subsets data targets operation tolerance (Some t)
     = (Raised ZeroDivisionError,
        Some (mkTracker (progress_bar t) (status_text t) (S (current_step t)) 0)))
  /\ Tracked.find_subsets [] targets operation tolerance
       (Some (new_tracker (progress_steps targets [])))
     = (Raised ZeroDivisionError, Some (mkTracker 0 None 1 0)).
Proof.
  intros Hne. destruct targets as [|target rest]; [contradiction|].
  assert (H : forall data t, total_steps t = 0%nat ->
     Tracked.find_subsets data (target :: rest) operation tolerance (Some t)
     = (Raised ZeroDivisionError,
        Some (mkTracker (progress_bar t) (status_text t) (S (current_step t)) 0))).
  { intros data' t Htot. unfold Tracked.find_subsets.
    cbn [Tracked.find_subsets_loop]. unfold tbind at 1. unfold notify.
    now rewrite update_zero_total. }
  split; [apply H|].
  rewrite H; [reflexivity|].
  unfold new_tracker, progress_steps. cbn [total_steps length]. lia.
Qed.

Lemma tracked_find_subsets_zero_total_witness :
  Tracked.find_subsets [] [25] "sum" 0 (Some (new_tracker (progress_steps [25] [])))
  = (Raised ZeroDivisionError, Some (mkTracker 0 None 1 0))
  /\ find_subsets [] [25] "sum" 0 = Returned [].
Proof.
  split; [|reflexivity].
  apply (tracked_find_subsets_zero_total [] [25] "sum" 0). discriminate.
Defined.

Lemma tracked_difference_loop_count (data : list Item) (target tolerance : Q) :
  forall (pairs : list (Q * Q)) (t : ProgressTracker),
    total_steps t <> 0%nat ->
    (forall p, In p pairs -> difference_check target tolerance p = false) ->
    exists t',
      Tracked.difference_loop data target tolerance pairs (Some t)
      = (Returned None, Some t')
      /\ total_steps t' = total_steps t
      /\ current_step t' = (current_step t + length pairs)%nat.
Proof.
  induction pairs as [|[a b] rest IH]; intros t Htot Hfail.
  - exists t. cbn. split; [reflexivity|]. split; [reflexivity|lia].
  - cbn [Tracked.difference_loop]. unfold tbind at 1. unfold notify.
    destruct (update_ok t (Text "Checking difference combinations") Htot)
      as [t1 [Hup [Hstep [_ [Htot1 _]]]]].
    rewrite Hup. rewrite (Hfail (a, b) (or_introl eq_refl)).
    destruct (IH t1) as [t' [Hrun [Htot' Hcount]]];
      [congruence|intros p Hp; apply Hfail; now right|].
    exists t'. split; [exact Hrun|]. split; [congruence|]. cbn [length]. lia.
Qed.

Lemma find_subset_difference_none_all_fail (data : list Item) (target tolerance : Q) :
  find_subset_difference data target tolerance = None ->
  forall p, In p (combinations2 (map value data)) ->
            difference_check target tolerance p = false.
Proof.
  unfold find_subset_difference. rewrite difference_loop_find.
  destruct (find (difference_check target tolerance) (combinations2 (map value data)))
    as [[a b]|] eqn:Hfind.
  - destruct (reconstruct_pair _ (difference_check_sym target tolerance)
                (difference_check_compat target tolerance) data a b Hfind)
      as [x [y [Hxy _]]].
    rewrite Hxy. discriminate.
  - intros _ p Hp. exact (find_none _ _ Hfind p Hp).
Qed.

(** X15.  A difference search that reports no-match has notified the
    tracker once per pair: on a store of [n] items the counter advances by
    exactly [n * (n - 1) / 2]. *)
Theorem tracked_difference_no_match_steps (data : list Item) (target tolerance : Q)
    (t : ProgressTracker) :
  total_steps t <> 0%nat ->
  find_subset_difference data target tolerance = None ->
  exists t',
    Tracked.find_subset_difference data target tolerance (Some t)
    = (Returned None, Some t')
    /\ current_step t'
       = (current_step t + length data * (length data - 1) / 2)%nat.
Proof.
  intros Htot Hnone.
  destruct (tracked_difference_loop_count data target tolerance
              (combinations2 (map value data)) t Htot
              (find_subset_difference_none_all_fail data target tolerance Hnone))
    as [t' [Hrun [_ Hcount]]].
  exists t'. split; [exact Hrun|]. rewrite Hcount. f_equal.
  pose proof (length_combinations2 (map value data)) as H.
  rewrite length_map in H. apply Nat.div_unique_exact; lia.
Qed.

Lemma tracked_difference_no_match_steps_witness :
  exists t',
    Tracked.find_subset_difference [A1 1 1; A1 2 2; A1 4 3; A1 8 4] 100 0
      (Some (new_tracker 4))
    = (Returned None, Some t')
    /\ current_step t' = (0 + 4 * (4 - 1) / 2)%nat.
Proof.
  apply (tracked_difference_no_match_steps
           [A1 1 1; A1 2 2; A1 4 3; A1 8 4] 100 0 (new_tracker 4)).
  - discriminate.
  - vm_compute. reflexivity.
Defined.

(** ** Building the Item Store *)

Lemma dropna_items_spec (cells : list (option Q)) :
  forall (i idx : nat) (v : Q),
    In (idx, v) (dropna_items i cells)
    <-> exists k, idx = (i + k)%nat /\ cells !! k = Some (Some v).
Proof.
  induction cells as [|c rest IH]; intros i idx v.
  - simpl. split; [tauto|]. intros [k [_ H]]. destruct k; discriminate.
  - destruct c as [w|]; cbn [dropna_items].
    + simpl. rewrite IH. split.
      * intros [E|[k [-> Hk]]].
        -- inversion E; subst. exists 0%nat. split; [lia|reflexivity].
        -- exists (S k). split; [lia|exact Hk].
      * intros [[|k] [-> Hk]].
        -- left. simpl in Hk. inversion Hk. f_equal. lia.
        -- right. exists k. split; [lia|exact Hk].
    + rewrite IH. split.
      * intros [k [-> Hk]]. exists (S k). split; [lia|exact Hk].
      * intros [[|k] [-> Hk]]; [discriminate|].
        exists k. split; [lia|exact Hk].
Qed.

(** X16.  The Item Store built by [main] holds exactly the non-missing
    cells of the selected columns: an item is in the store if and only if
    its column was selected and holds its value at some index, and its row
    is that index plus two. *)
Theorem prepare_data_provenance (selected_cols : list (string * list (option Q)))
    (item : Item) :
  In item (prepare_data selected_cols)
  <-> exists cells idx,
        In (column item, cells) selected_cols
        /\ cells !! idx = Some (Some (value item))
        /\ row item = (Z.of_nat idx + 2)%Z.
Proof.
  induction selected_cols as [|[col cells] rest IH].
  - simpl. split; [tauto|]. intros [cells [idx [[] _]]].
  - cbn [prepare_data]. rewrite in_app_iff, IH, in_map_iff. split.
    + intros [[[idx v] [E Hin]]|[cells' [idx [Hin H]]]].
      * apply dropna_items_spec in Hin. destruct Hin as [k [-> Hk]].
        subst item. cbn [fst snd column value row].
        exists cells, k. split; [now left|]. now split.
      * exists cells', idx. split; [now right|exact H].
    + intros [cells' [idx [[E|Hin] [Hcell Hrow]]]].
      * inversion E; subst. left. exists (idx, value item).
        split.
        -- destruct item as [v c r]. cbn in *. now rewrite Hrow.
        -- apply dropna_items_spec. exists idx. now split.
      * right. exists cells', idx. now split.
Qed.

Lemma dropna_items_rows (col : string) (cells : list (option Q)) :
  forall i : nat,
    StronglySorted Z.lt
      (map row (map (fun p => mkItem (snd p) col (Z.of_nat (fst p) + 2))
                    (dropna_items i cells)))
    /\ Forall (fun r => (Z.of_nat i + 2 <= r)%Z)
         (map row (map (fun p => mkItem (snd p) col (Z.of_nat (fst p) + 2))
                       (dropna_items i cells))).
Proof.
  induction cells as [|c rest IH]; intros i; [split; constructor|].
  destruct (IH (S i)) as [Hsorted Hbound].
  destruct c as [v|]; cbn [dropna_items map row fst snd].
  - split.
    + constructor; [exact Hsorted|].
      eapply List.Forall_impl; [|exact Hbound]; intros r Hr; simpl in Hr; lia.
    + constructor; [lia|].
      eapply List.Forall_impl; [|exact Hbound]; intros r Hr; simpl in Hr; lia.
  - split; [exact Hsorted|].
    eapply List.Forall_impl; [|exact Hbound]; intros r Hr; simpl in Hr; lia.
Qed.

Lemma dropna_items_length (cells : list (option Q)) :
  forall i : nat, (length (dropna_items i cells) <= length cells)%nat.
Proof.
  induction cells as [|[v|] rest IH]; intros i; cbn [dropna_items length];
    [lia| |]; specialize (IH (S i)); lia.
Qed.

(** X17.  The store is built column by column, in the order of the
    selection, and within a column in index order: preparing a concatenated
    selection concatenates the stores, and the items of one column carry
    that column's name and strictly increasing rows, all at least [2]. *)
Theorem prepare_data_column_major
    (cols1 cols2 : list (string * list (option Q)))
    (col : string) (cells : list (option Q)) :
  prepare_data (cols1 ++ cols2) = prepare_data cols1 ++ prepare_data cols2
  /\ Forall (fun item => column item = col) (prepare_data [(col, cells)])
  /\ StronglySorted Z.lt (map row (prepare_data [(col, cells)]))
  /\ Forall (fun r => (2 <= r)%Z) (map row (prepare_data [(col, cells)]))
  /\ (length (prepare_data [(col, cells)]) <= length cells)%nat.
Proof.
  split.
  { induction cols1 as [|[c cs] rest IH]; [reflexivity|].
    cbn [app prepare_data]. now rewrite IH, app_assoc. }
  cbn [prepare_data]. rewrite app_nil_r.
  split.
  { apply List.Forall_forall. intros item Hin. apply in_map_iff in Hin.
    destruct Hin as [p [<- _]]. reflexivity. }
  destruct (dropna_items_rows col cells 0) as [Hsorted Hbound].
  split; [exact Hsorted|]. split; [exact Hbound|].
  rewrite length_map. apply dropna_items_length.
Qed.

(** ** Raising the tolerance *)






(** ** Provenance plays no part in the search *)

Lemma reconstruct_loop_values :
  forall (data1 data2 result1 result2 : list Item) (remaining : list Q),
    map value data1 = map value data2 ->
    map value result1 = map value result2 ->
    option_map (map value) (reconstruct_loop data1 result1 remaining)
    = option_map (map value) (reconstruct_loop data2 result2 remaining).
Proof.
  induction data1 as [|d1 t1 IH]; intros [|d2 t2] result1 result2 remaining Hd Hr;
    try discriminate; [reflexivity|].
  simpl in Hd. inversion Hd as [[Hv Ht]]. cbn [reconstruct_loop]. rewrite Hv.
  assert (Hr' : map value (result1 ++ [d1]) = map value (result2 ++ [d2]))
    by (rewrite !map_app, Hr; simpl; now rewrite Hv).
  destruct (py_in (value d2) remaining); [|now apply IH].
  destruct (py_remove (value d2) remaining) as [|r rs]; [|now apply IH].
  simpl. now rewrite Hr'.
Qed.

Lemma reconstruct_items_values (data1 data2 : list Item) (values : list Q) :
  map value data1 = map value data2 ->
  option_map (map value) (reconstruct_items data1 values)
  = option_map (map value) (reconstruct_items data2 values).
Proof. intros H. now apply reconstruct_loop_values. Qed.

Lemma find_subset_difference_values (data1 data2 : list Item) (target tolerance : Q) :
  map value data1 = map value data2 ->
  option_map (map value) (find_subset_difference data1 target tolerance)
  = option_map (map value) (find_subset_difference data2 target tolerance).
Proof.
  intros H. unfold find_subset_difference. rewrite !difference_loop_find, H.
  destruct (find _ _) as [[a b]|]; [|reflexivity].
  now apply reconstruct_items_values.
Qed.

Lemma find_subset_product_values (data1 data2 : list Item) (target tolerance : Q) :
  map value data1 = map value data2 ->
  option_map (map value) (find_subset_product data1 target tolerance)
  = option_map (map value) (find_subset_product data2 target tolerance).
Proof.
  intros H. unfold find_subset_product.
  rewrite !product_pairs_loop_find, !product_triplets_loop_find, H.
  destruct (find (product_check2 _ _) _) as [[a b]|]; cbn [option_map fst snd].
  - now apply reconstruct_items_values.
  - destruct (find (product_check3 _ _) _) as [[[a b] c]|];
      cbn [option_map fst snd]; [|reflexivity].
    now apply reconstruct_items_values.
Qed.

Lemma quotient_loop_values (data1 data2 : list Item) (target tolerance : Q) :
  map value data1 = map value data2 ->
  forall pairs : list (Q * Q),
    answer_values (quotient_loop data1 target tolerance pairs)
    = answer_values (quotient_loop data2 target tolerance pairs).
Proof.
  intros H. induction pairs as [|[a b] rest IH]; [reflexivity|].
  cbn [quotient_loop].
  destruct (py_div a b) as [q1|e]; cbn [bind]; [|reflexivity].
  destruct (isclose q1 target tolerance) as [[|]|e]; cbn [bind]; [| |reflexivity].
  - cbn [answer_values]. f_equal. now apply reconstruct_items_values.
  - destruct (py_div b a) as [q2|e]; cbn [bind]; [|reflexivity].
    destruct (isclose q2 target tolerance) as [[|]|e]; cbn [bind];
      [|exact IH|reflexivity].
    cbn [answer_values]. f_equal. now apply reconstruct_items_values.
Qed.

Lemma find_subset_quotient_values (data1 data2 : list Item) (target tolerance : Q) :
  map value data1 = map value data2 ->
  answer_values (find_subset_quotient data1 target tolerance)
  = answer_values (find_subset_quotient data2 target tolerance).
Proof.
  intros H. unfold find_subset_quotient.
  assert (Hf : map value (List.filter (fun item => nonzero (value item)) data1)
               = map value (List.filter (fun item => nonzero (value item)) data2))
    by (rewrite <- !filter_map_value; now rewrite H).
  rewrite Hf. now apply quotient_loop_values.
Qed.

Lemma same_sums_mem (k : Q) (dp1 dp2 : dict) :
  same_sums dp1 dp2 -> dict_mem k dp1 = dict_mem k dp2.
Proof.
  induction 1 as [|[k1 l1] [k2 l2] t1 t2 [Hk _] _ IH]; [reflexivity|].
  simpl in Hk. subst k2. unfold dict_mem in *. simpl. now rewrite IH.
Qed.

Lemma same_sums_keys (dp1 dp2 : dict) :
  same_sums dp1 dp2 -> dict_keys dp1 = dict_keys dp2.
Proof.
  induction 1 as [|[k1 l1] [k2 l2] t1 t2 [Hk _] _ IH]; [reflexivity|].
  simpl in Hk. subst k2. unfold dict_keys in *. simpl. now rewrite IH.
Qed.

Lemma same_sums_get (k : Q) (dp1 dp2 : dict) :
  same_sums dp1 dp2 ->
  (exists e, dict_get k dp1 = Raised e /\ dict_get k dp2 = Raised e)
  \/ (exists l1 l2, dict_get k dp1 = Returned l1 /\ dict_get k dp2 = Returned l2
                    /\ map value l1 = map value l2).
Proof.
  induction 1 as [|[k1 l1] [k2 l2] t1 t2 [Hk Hl] _ IH]; [left; now exists KeyError|].
  simpl in Hk, Hl. subst k2. simpl.
  destruct (Qeq_bool k k1); [|exact IH].
  right. now exists l1, l2.
Qed.

Lemma same_sums_set (k : Q) (v1 v2 : list Item) (dp1 dp2 : dict) :
  map value v1 = map value v2 ->
  same_sums dp1 dp2 -> same_sums (dict_set k v1 dp1) (dict_set k v2 dp2).
Proof.
  intros Hv. induction 1 as [|[k1 l1] [k2 l2] t1 t2 [Hk Hl] Ht IH].
  - constructor; [now split|constructor].
  - simpl in Hk, Hl. subst k2. simpl.
    destruct (Qeq_bool k k1); constructor; try assumption; now split.
Qed.

Lemma sum_inner_values (item1 item2 : Item) (target tolerance : Q) :
  value item1 = value item2 ->
  forall (keys : list Q) (dp1 dp2 : dict),
    same_sums dp1 dp2 ->
    match sum_inner item1 target tolerance keys dp1,
          sum_inner item2 target tolerance keys dp2 with
    | Returned (Return l1), Returned (Return l2) => map value l1 = map value l2
    | Returned (Next dp1'), Returned (Next dp2') => same_sums dp1' dp2'
    | Raised e1, Raised e2 => e1 = e2
    | _, _ => False
    end.
Proof.
  intros Hv. induction keys as [|s ks IH]; intros dp1 dp2 Hsim; [exact Hsim|].
  cbn [sum_inner]. rewrite Hv, (same_sums_mem _ _ _ Hsim).
  destruct (same_sums_get s _ _ Hsim) as [[e [-> ->]]|[l1 [l2 [-> [-> Hl]]]]];
    cbn [bind].
  - destruct (Qle_bool _ _); [reflexivity|].
    destruct (negb (dict_mem (s + value item2) dp2)); [reflexivity|].
    now apply IH.
  - assert (Hl' : map value (l1 ++ [item1]) = map value (l2 ++ [item2]))
      by (rewrite !map_app, Hl; simpl; now rewrite Hv).
    destruct (Qle_bool _ _); [exact Hl'|].
    destruct (negb (dict_mem (s + value item2) dp2)); [|now apply IH].
    apply IH. now apply same_sums_set.
Qed.

Lemma sum_outer_values (target tolerance : Q) :
  forall (data1 data2 : list Item) (dp1 dp2 : dict),
    map value data1 = map value data2 ->
    same_sums dp1 dp2 ->
    answer_values (sum_outer data1 target tolerance dp1)
    = answer_values (sum_outer data2 target tolerance dp2).
Proof.
  induction data1 as [|d1 t1 IH]; intros [|d2 t2] dp1 dp2 Hd Hsim;
    try discriminate; [reflexivity|].
  simpl in Hd. inversion Hd as [[Hv Ht]]. cbn [sum_outer].
  rewrite (same_sums_keys _ _ Hsim).
  pose proof (sum_inner_values d1 d2 target tolerance Hv (dict_keys dp2) _ _ Hsim)
    as Hstep.
  destruct (sum_inner d1 target tolerance (dict_keys dp2) dp1) as [[l1|dp1']|e1];
    destruct (sum_inner d2 target tolerance (dict_keys dp2) dp2) as [[l2|dp2']|e2];
    try contradiction; cbn [bind].
  - cbn [answer_values option_map]. now rewrite Hstep.
  - now apply IH.
  - cbn [answer_values]. now rewrite Hstep.
Qed.

Lemma dispatch_values (data1 data2 : list Item) (target : Q) (operation : string)
    (tolerance : Q) :
  map value data1 = map value data2 ->
  answer_values (dispatch data1 target operation tolerance)
  = answer_values (dispatch data2 target operation tolerance).
Proof.
  intros H. unfold dispatch.
  destruct (String.eqb operation "sum").
  { apply sum_outer_values; [exact H|]. constructor; [now split|constructor]. }
  destruct (String.eqb operation "product").
  { cbn [answer_values]. f_equal. now apply find_subset_product_values. }
  destruct (String.eqb operation "difference").
  { cbn [answer_values]. f_equal. now apply find_subset_difference_values. }
  destruct (String.eqb operation "quotient"); [|reflexivity].
  now apply find_subset_quotient_values.
Qed.

(** X19.  The search looks at the values of the items only: two stores
    that carry the same numbers in the same order, whatever their columns
    and rows, give the same exception or outputs with the same targets and
    the same numbers. *)
Theorem find_subsets_ignores_provenance (data1 data2 : list Item)
    (targets : list Q) (operation : string) (tolerance : Q) :
  map value data1 = map value data2 ->
  output_values (find_subsets data1 targets operation tolerance)
  = output_values (find_subsets data2 targets operation tolerance).
Proof.
  intros H. rewrite !find_subsets_entries.
  induction targets as [|target rest IH]; [reflexivity|].
  cbn [matched_entries].
  pose proof (dispatch_values data1 data2 target operation tolerance H) as Hd.
  destruct (dispatch data1 target operation tolerance) as [r1|e1];
    destruct (dispatch data2 target operation tolerance) as [r2|e2];
    cbn [answer_values] in Hd; try discriminate; cbn [bind].
  - inversion Hd as [Hr]. clear Hd.
    destruct (matched_entries data1 rest operation tolerance) as [es1|e1];
      destruct (matched_entries data2 rest operation tolerance) as [es2|e2];
      cbn [output_values] in IH; try discriminate; cbn [bind output_values].
    + inversion IH as [Hes]. clear IH.
      destruct r1 as [items1|]; destruct r2 as [items2|];
        cbn [option_map] in Hr; try discriminate.
      * inversion Hr as [Hitems]. cbn [map fst snd]. now rewrite Hitems, Hes.
      * now rewrite Hes.
    + exact IH.
  - inversion Hd. reflexivity.
Qed.

Lemma find_subsets_ignores_provenance_witness :
  output_values (find_subsets [mkItem 4 "A" 2; mkItem 12 "A" 3] [3] "quotient" 0)
  = output_values (find_subsets [mkItem 4 "B" 7; mkItem 12 "C" 9] [3] "quotient" 0).
Proof. apply find_subsets_ignores_provenance. reflexivity. Defined.

(** ** One update of the tracker *)

(** X20.  [update] always increments the counter.  With a total of zero it
    then raises [ZeroDivisionError] and leaves the bar and the status as
    they were.  Otherwise it returns, records the message with the two
    counters, and writes to the bar a number in [(0, 1]] that is [1]
    exactly when the counter has reached the total: steps beyond the
    estimate are absorbed silently. *)
Theorem update_behaviour (t : ProgressTracker) (msg : message) :
  (total_steps t = 0%nat ->
   update t msg
   = (Raised ZeroDivisionError,
      mkTracker (progress_bar t) (status_text t) (S (current_step t)) 0))
  /\ (total_steps t <> 0%nat ->
      exists t',
        update t msg = (Returned tt, t')
        /\ current_step t' = S (current_step t)
        /\ total_steps t' = total_steps t
        /\ status_text t' = Some (msg, S (current_step t), total_steps t)
        /\ 0 < progress_bar t' /\ progress_bar t' <= 1
        /\ (progress_bar t' == 1 <-> (total_steps t <= S (current_step t))%nat)).
Proof.
  split; [apply update_zero_total|]. intros Htot.
  destruct (update_ok t msg Htot) as [t' [Hup [Hstep [Hstatus [Htot' Hev]]]]].
  exists t'. split; [exact Hup|]. split; [exact Hstep|]. split; [exact Htot'|].
  split; [exact Hstatus|].
  destruct Hev as [->|[_ [Hbar [Hpos Hle]]]]; [lia|].
  split; [exact Hpos|]. split; [exact Hle|].
  rewrite Hbar, Hstep, Htot'. rewrite Q.min_r_iff.
  assert (Hb : 0 < inject_Z (Z.of_nat (total_steps t))).
  { change 0 with (inject_Z 0). rewrite <- Zlt_Qlt. lia. }
  split.
  - intros H.
    pose proof (Qmult_le_compat_r _ _ _ H (Qlt_le_weak _ _ Hb)) as H'.
    assert (E : inject_Z (Z.of_nat (S (current_step t)))
                / inject_Z (Z.of_nat (total_steps t))
                * inject_Z (Z.of_nat (total_steps t))
                == inject_Z (Z.of_nat (S (current_step t)))).
    { field. intros E0. rewrite E0 in Hb. discriminate. }
    rewrite E in H'.
    assert (E1 : 1 * inject_Z (Z.of_nat (total_steps t))
                 == inject_Z (Z.of_nat (total_steps t))) by ring.
    rewrite E1 in H'. rewrite <- Zle_Qle in H'. lia.
  - intros H. apply Qle_shift_div_l; [exact Hb|].
    assert (E1 : 1 * inject_Z (Z.of_nat (total_steps t))
                 == inject_Z (Z.of_nat (total_steps t))) by ring.
    rewrite E1, <- Zle_Qle. lia.
Qed.

Lemma update_behaviour_witness :
  update (new_tracker 0) (Text "Checking product pairs")
  = (Raised ZeroDivisionError, mkTracker 0 None 1 0)
  /\ exists t',
       update (mkTracker (1 # 2) None 1 2) (Text "Checking product pairs")
       = (Returned tt, t')
       /\ progress_bar t' == 1.
Proof.
  destruct (update_behaviour (new_tracker 0) (Text "Checking product pairs"))
    as [H0 _].
  split; [apply H0; reflexivity|].
  destruct (update_behaviour (mkTracker (1 # 2) None 1 2)
              (Text "Checking product pairs")) as [_ H1].
  destruct H1 as [t' [Hup [_ [_ [_ [_ [_ Hsat]]]]]]]; [discriminate|].
  exists t'. split; [exact Hup|]. apply Hsat. simpl. lia.
Defined.

(** * The engine in float64 *)

(** ** Float64: equality, zeros and symmetry *)

Lemma SFeqb_cases (s1 s2 : spec_float) :
  SFeqb s1 s2 = true ->
  s1 = s2 \/ (exists b1 b2, s1 = S754_zero b1 /\ s2 = S754_zero b2).
Proof.
  unfold SFeqb, SFcompare.
  destruct s1 as [b1|b1| |b1 m1 e1], s2 as [b2|b2| |b2 m2 e2];
    try discriminate; try (destruct b1; discriminate); try (destruct b2; discriminate).
  - intros _. right. eauto.
  - destruct b1, b2; try discriminate; intros _; now left.
  - destruct b1, b2; try discriminate.
    + destruct (e1 ?= e2)%Z eqn:He; try discriminate.
      apply Z.compare_eq in He. subst e2.
      destruct (PosDef.Pos.compare_cont Eq m1 m2) eqn:Hm; try discriminate.
      apply (Pos.compare_eq m1 m2) in Hm. subst. intros _. now left.
    + destruct (e1 ?= e2)%Z eqn:He; try discriminate.
      apply Z.compare_eq in He. subst e2.
      destruct (PosDef.Pos.compare_cont Eq m1 m2) eqn:Hm; try discriminate.
      apply (Pos.compare_eq m1 m2) in Hm. subst. intros _. now left.
Qed.

Lemma f64_eqb_cases (x y : float) :
  (x =? y)%float = true -> x = y \/ (fzero x /\ fzero y).
Proof.
  rewrite FloatAxioms.eqb_spec. intros H. destruct (SFeqb_cases _ _ H) as [E|[b1 [b2 [E1 E2]]]].
  - left. now apply Prim2SF_inj.
  - right. split; eexists; eassumption.
Qed.

Lemma pyeq_cases (x y : float) :
  pyeq x y = true -> x = y \/ (fzero x /\ fzero y).
Proof.
  unfold pyeq. intros H. apply orb_true_iff in H. destruct H as [H|H].
  - left. now apply FloatAxioms.Leibniz.eqb_spec.
  - now apply f64_eqb_cases.
Qed.

Lemma pyeq_refl (x : float) : pyeq x x = true.
Proof.
  unfold pyeq. now rewrite (proj2 (FloatAxioms.Leibniz.eqb_spec x x) eq_refl).
Qed.

Lemma fzero_eqb (x y : float) : fzero x -> fzero y -> (x =? y)%float = true.
Proof. intros [b1 E1] [b2 E2]. now rewrite FloatAxioms.eqb_spec, E1, E2. Qed.

Lemma pyeq_zero (x y : float) : fzero x -> fzero y -> pyeq x y = true.
Proof. intros Hx Hy. unfold pyeq. rewrite (fzero_eqb x y Hx Hy). apply orb_true_r. Qed.

Lemma pyeq_sym (x y : float) : pyeq x y = true -> pyeq y x = true.
Proof.
  intros H. destruct (pyeq_cases _ _ H) as [->|[Hx Hy]];
    [apply pyeq_refl|now apply pyeq_zero].
Qed.

Lemma pyeq_trans (x y z : float) : pyeq x y = true -> pyeq y z = true -> pyeq x z = true.
Proof.
  intros H1 H2. destruct (pyeq_cases _ _ H1) as [->|[Hx Hy]]; [exact H2|].
  destruct (pyeq_cases _ _ H2) as [<-|[_ Hz]]; [exact H1|now apply pyeq_zero].
Qed.

(** Elements equal to one another are equal to the same elements. *)
Lemma pyeq_compat_r (x y v : float) : pyeq x y = true -> pyeq v x = pyeq v y.
Proof.
  intros H. destruct (pyeq v x) eqn:E1; symmetry.
  - exact (pyeq_trans _ _ _ E1 H).
  - destruct (pyeq v y) eqn:E2; [|reflexivity].
    rewrite (pyeq_trans _ _ _ E2 (pyeq_sym _ _ H)) in E1. discriminate.
Qed.

Lemma pyeq_compat_l (x y v : float) : pyeq x y = true -> pyeq x v = pyeq y v.
Proof.
  intros H. destruct (pyeq x v) eqn:E1; symmetry.
  - exact (pyeq_trans _ _ _ (pyeq_sym _ _ H) E1).
  - destruct (pyeq y v) eqn:E2; [|reflexivity].
    rewrite (pyeq_trans _ _ _ H E2) in E1. discriminate.
Qed.

Lemma f64_mul_comm (x y : float) : (x * y)%float = (y * x)%float.
Proof.
  apply Prim2SF_inj. rewrite !FloatAxioms.mul_spec. unfold SF64mul, SFmul.
  destruct (Prim2SF x) as [b1|b1| |b1 m1 e1], (Prim2SF y) as [b2|b2| |b2 m2 e2];
    try reflexivity; try (now rewrite xorb_comm).
  now rewrite xorb_comm, Pos.mul_comm, Z.add_comm.
Qed.

Lemma SFabs_binary_round (s : bool) (m : positive) (e : Z) :
  SFabs (binary_round prec emax s m e) = SFabs (binary_round prec emax (negb s) m e).
Proof.
  unfold binary_round.
  destruct (shl_align m e (fexp prec emax (Z.pos (digits2_pos m) + e))) as [mz ez].
  unfold binary_round_aux.
  destruct (shr_fexp prec emax (Z.pos mz) ez loc_Exact) as [mrs' e'].
  destruct (shr_fexp prec emax _ e' loc_Exact) as [mrs'' e''].
  destruct (shr_m mrs''); try reflexivity.
  now destruct (e'' <=? emax - prec)%Z.
Qed.

Lemma SFabs_binary_normalize (m : Z) (e : Z) :
  SFabs (binary_normalize prec emax m e false)
  = SFabs (binary_normalize prec emax (- m) e false).
Proof.
  destruct m as [|p|p]; simpl; [reflexivity| |].
  - apply (SFabs_binary_round false).
  - apply (SFabs_binary_round true).
Qed.

Lemma f64_abs_sub_sym (a b : float) : abs (a - b) = abs (b - a).
Proof.
  apply Prim2SF_inj. rewrite !FloatAxioms.abs_spec, !FloatAxioms.sub_spec. unfold SF64sub, SFsub.
  destruct (Prim2SF a) as [b1|b1| |b1 m1 e1], (Prim2SF b) as [b2|b2| |b2 m2 e2];
    try reflexivity; try (destruct b1, b2; reflexivity).
  cbv zeta. rewrite SFabs_binary_normalize. rewrite Z.min_comm. f_equal. f_equal. lia.
Qed.

Lemma f64_abs_sub_zero_l (a a' b : float) :
  fzero a -> fzero a' -> abs (a - b) = abs (a' - b).
Proof.
  intros [b1 E1] [b2 E2]. apply Prim2SF_inj.
  rewrite !FloatAxioms.abs_spec, !FloatAxioms.sub_spec, E1, E2.
  unfold SF64sub, SFsub. destruct (Prim2SF b) as [s|s| |s m e]; try reflexivity.
  now destruct b1, b2, s.
Qed.

Lemma f64_abs_sub_compat (a a' b b' : float) :
  pyeq a a' = true -> pyeq b b' = true -> abs (a - b) = abs (a' - b').
Proof.
  intros Ha Hb.
  destruct (pyeq_cases _ _ Ha) as [->|[Hz Hz']].
  - destruct (pyeq_cases _ _ Hb) as [->|[Hy Hy']]; [reflexivity|].
    rewrite (f64_abs_sub_sym a' b), (f64_abs_sub_sym a' b').
    now apply f64_abs_sub_zero_l.
  - rewrite (f64_abs_sub_zero_l a a' b Hz Hz').
    destruct (pyeq_cases _ _ Hb) as [->|[Hy Hy']]; [reflexivity|].
    rewrite (f64_abs_sub_sym a' b), (f64_abs_sub_sym a' b').
    now apply f64_abs_sub_zero_l.
Qed.

Lemma sim_refl (x : float) : sim x x.
Proof. now left. Qed.

Lemma sim_sym (x y : float) : sim x y -> sim y x.
Proof. intros [->|[Hx Hy]]; [now left|now right]. Qed.

Lemma sim_trans (x y z : float) : sim x y -> sim y z -> sim x z.
Proof.
  intros [->|[Hx Hy]] H; [exact H|].
  destruct H as [<-|[_ Hz]]; right; now split.
Qed.

Lemma sim_add (s k v : float) : sim s k -> sim (s + v) (k + v).
Proof.
  intros [->|[[b1 E1] [b2 E2]]]; [now left|].
  assert (H1 := FloatAxioms.add_spec s v). assert (H2 := FloatAxioms.add_spec k v).
  rewrite E1 in H1. rewrite E2 in H2. unfold SF64add, SFadd in H1, H2.
  destruct (Prim2SF v) as [s0|s0| |s0 m e].
  - right. split; [exists (if b1 then if s0 then true else false
                           else if s0 then false else false)
                  |exists (if b2 then if s0 then true else false
                           else if s0 then false else false)];
      [rewrite H1|rewrite H2]; now destruct b1, b2, s0.
  - left. apply Prim2SF_inj. now rewrite H1, H2.
  - left. apply Prim2SF_inj. now rewrite H1, H2.
  - left. apply Prim2SF_inj. now rewrite H1, H2.
Qed.

Lemma sim_abs_sub (a b t : float) : sim a b -> abs (a - t) = abs (b - t).
Proof. intros [->|[Ha Hb]]; [reflexivity|now apply f64_abs_sub_zero_l]. Qed.

Lemma f64_zero_spec : Prim2SF 0%float = S754_zero false.
Proof. reflexivity. Qed.

Lemma fzero_iff (x : float) : fzero x <-> (x =? 0)%float = true.
Proof.
  rewrite FloatAxioms.eqb_spec, f64_zero_spec. split.
  - intros [b E]. now rewrite E.
  - unfold SFeqb, SFcompare. destruct (Prim2SF x) as [s|s| |s m e] eqn:E;
      try discriminate; try (destruct s; discriminate).
    intros _. now exists s.
Qed.

(** [abs] is never below a strictly negative number. *)
Lemma f64_abs_leb_negative (x t : float) :
  (t <? 0)%float = true -> (abs x <=? t)%float = false.
Proof.
  rewrite FloatAxioms.ltb_spec, FloatAxioms.leb_spec, FloatAxioms.abs_spec,
    f64_zero_spec.
  unfold SFltb, SFleb, SFcompare, SFabs.
  destruct (Prim2SF t) as [s|s| |s m e]; try discriminate;
    destruct s; try discriminate; intros _;
    now destruct (Prim2SF x) as [s'|s'| |s' m' e'].
Qed.

Example exact_half : (exact_value 0.5%float == 1 # 2)%Q.
Proof. vm_compute. reflexivity. Qed.
Example exact_tenth : (exact_value 0x1.999999999999ap-4%float == 3602879701896397 # 36028797018963968)%Q.
Proof. vm_compute. reflexivity. Qed.

(** ** The sign of a rounded product *)

Lemma shr_1_nonneg (mrs : shr_record) :
  (0 <= shr_m mrs)%Z -> (0 <= shr_m (shr_1 mrs))%Z.
Proof.
  destruct mrs as [m r s]. simpl.
  destruct m as [|p|p]; [easy| |intros H; exfalso; lia].
  intros _. destruct p; simpl; lia.
Qed.

Lemma iter_pos_shr_1_nonneg (p : positive) (mrs : shr_record) :
  (0 <= shr_m mrs)%Z -> (0 <= shr_m (@SpecFloat.iter_pos _ shr_1 p mrs))%Z.
Proof.
  revert mrs. induction p as [p IH|p IH|]; intros mrs H; simpl.
  - apply IH, IH. now apply shr_1_nonneg.
  - now apply IH, IH.
  - now apply shr_1_nonneg.
Qed.

Lemma shr_fexp_nonneg (m e : Z) (l : location) :
  (0 <= m)%Z -> (0 <= shr_m (fst (shr_fexp prec emax m e l)))%Z.
Proof.
  intros H. unfold shr_fexp, shr.
  assert (H0 : (0 <= shr_m (shr_record_of_loc m l))%Z).
  { destruct l as [|[| |]]; exact H. }
  destruct (fexp prec emax (Zdigits2 m + e) - e)%Z; simpl; trivial.
  now apply iter_pos_shr_1_nonneg.
Qed.

(** Rounding a positive mantissa gives a zero, a finite number or an
    infinity of the sign asked for. *)
Lemma binary_round_aux_sign (sx : bool) (m : positive) (e : Z) :
  match binary_round_aux prec emax sx (Z.pos m) e loc_Exact with
  | S754_zero s | S754_infinity s | S754_finite s _ _ => s = sx
  | S754_nan => False
  end.
Proof.
  unfold binary_round_aux.
  pose proof (shr_fexp_nonneg (Z.pos m) e loc_Exact) as H1.
  destruct (shr_fexp prec emax (Z.pos m) e loc_Exact) as [mrs' e'].
  simpl in H1. specialize (H1 ltac:(lia)).
  assert (H2 : (0 <= round_nearest_even (shr_m mrs') (loc_of_shr_record mrs'))%Z).
  { unfold round_nearest_even.
    destruct (loc_of_shr_record mrs') as [|[| |]]; try lia.
    destruct (Z.even (shr_m mrs')); lia. }
  pose proof (shr_fexp_nonneg _ e' loc_Exact H2) as H3.
  destruct (shr_fexp prec emax _ e' loc_Exact) as [mrs'' e''].
  simpl in H3.
  destruct (shr_m mrs'') as [|p|p]; [reflexivity| |lia].
  now destruct (e'' <=? emax - prec)%Z.
Qed.

(** The float64 product of a positive and a negative number is negative,
    unless it underflows to a zero. *)
Lemma f64_mul_pos_neg (x y : float) :
  (0 <? x)%float = true -> (y <? 0)%float = true ->
  (x * y <? 0)%float = true \/ (x * y =? 0)%float = true.
Proof.
  rewrite !FloatAxioms.ltb_spec, FloatAxioms.eqb_spec, FloatAxioms.mul_spec,
    f64_zero_spec.
  unfold SF64mul, SFmul, SFltb, SFeqb, SFcompare at 1 2.
  destruct (Prim2SF x) as [s|s| |s m e]; try discriminate;
    destruct s; try discriminate; intros _;
    destruct (Prim2SF y) as [s'|s'| |s' m' e']; try discriminate;
    destruct s'; try discriminate; intros _; simpl xorb;
    try (left; reflexivity).
  pose proof (binary_round_aux_sign true (m * m') (e + e')) as H.
  destruct (binary_round_aux prec emax true (Z.pos (m * m')) (e + e') loc_Exact)
    as [s|s| |s m'' e'']; [subst s|subst s|destruct H|subst s]; simpl; auto.
Qed.

(** ** Reconstruction in float64 *)

Lemma f64_py_in_true (x : float) (l : list float) :
  F64.py_in x l = true <-> exists y, In y l /\ pyeq x y = true.
Proof. unfold F64.py_in. apply existsb_exists. Qed.

Lemma f64_py_in_false (x : float) (l : list float) :
  F64.py_in x l = false <-> forall y, In y l -> pyeq x y = false.
Proof.
  split.
  - intros H y Hy. destruct (pyeq x y) eqn:E; [|reflexivity].
    assert (F64.py_in x l = true) by (apply f64_py_in_true; eauto). congruence.
  - intros H. destruct (F64.py_in x l) eqn:E; [|reflexivity].
    apply f64_py_in_true in E. destruct E as [y [Hy E]].
    rewrite (H y Hy) in E. discriminate.
Qed.

Lemma f64_reconstruct_loop_acc (data result : list F64.Item) (remaining : list float) :
  F64.reconstruct_loop data result remaining
  = option_map (app result) (F64.reconstruct_loop data [] remaining).
Proof.
  revert result remaining.
  induction data as [|d t IH]; intros result remaining; simpl; [reflexivity|].
  destruct (F64.py_in (F64.value d) remaining).
  - destruct (F64.py_remove (F64.value d) remaining) as [|r rs].
    + reflexivity.
    + rewrite IH. rewrite (IH [d]).
      destruct (F64.reconstruct_loop t [] (r :: rs)); simpl; [|reflexivity].
      now rewrite <- app_assoc.
  - apply IH.
Qed.

Lemma f64_reconstruct_loop_skip (d : F64.Item) (t result : list F64.Item)
    (remaining : list float) :
  F64.py_in (F64.value d) remaining = false ->
  F64.reconstruct_loop (d :: t) result remaining
  = F64.reconstruct_loop t result remaining.
Proof. intros H. simpl. now rewrite H. Qed.

Lemma f64_reconstruct_single (data : list F64.Item) (b : float) :
  (exists y, In y data /\ pyeq (F64.value y) b = true) ->
  exists y, F64.reconstruct_items data [b] = Some [y]
            /\ pyeq (F64.value y) b = true /\ sublist [y] data.
Proof.
  unfold F64.reconstruct_items.
  induction data as [|d t IH]; intros [y [Hy E]]; [destruct Hy|].
  simpl. destruct (pyeq (F64.value d) b) eqn:Eb.
  - simpl. exists d. split; [reflexivity|]. split; [exact Eb|].
    apply sublist_skip, sublist_nil_l.
  - simpl. destruct Hy as [->|Hy]; [congruence|].
    destruct IH as [z [Hz [Ez Sz]]]; [eauto|].
    exists z. split; [exact Hz|]. split; [exact Ez|]. now apply sublist_cons.
Qed.

Lemma f64_in_map_value (data : list F64.Item) (b : float) :
  In b (map F64.value data) ->
  exists y, In y data /\ pyeq (F64.value y) b = true.
Proof.
  rewrite in_map_iff. intros [y [E Hy]]. exists y. split; [exact Hy|].
  rewrite E. apply pyeq_refl.
Qed.

(** The first pair that passes a check which does not depend on the order
    of its two arguments, nor on which of several equal store values it is
    given, is reconstructed position by position. *)
Lemma f64_reconstruct_pair (P : float * float -> bool) :
  (forall a b, P (a, b) = P (b, a)) ->
  forall (data : list F64.Item) (a b : float),
    (forall x y z, In x (map F64.value data) -> In y (map F64.value data) ->
                   pyeq x y = true -> P (x, z) = P (y, z)) ->
    find P (combinations2 (map F64.value data)) = Some (a, b) ->
    exists x y, F64.reconstruct_items data [a; b] = Some [x; y]
                /\ pyeq (F64.value x) a = true /\ pyeq (F64.value y) b = true
                /\ sublist [x; y] data.
Proof.
  intros P_sym. induction data as [|d t IH]; intros a b P_compat; simpl;
    [discriminate|].
  rewrite find_app.
  destruct (find P (map (fun y => (F64.value d, y)) (map F64.value t)))
    as [p|] eqn:Hfirst.
  - intros E. inversion E; subst p. clear E.
    apply find_some in Hfirst. destruct Hfirst as [Hin _].
    apply in_map_iff in Hin. destruct Hin as [y [E Hy]]. inversion E; subst. clear E.
    destruct (f64_reconstruct_single t b (f64_in_map_value _ _ Hy)) as [z [Hz [Ez Sz]]].
    exists d, z. unfold F64.reconstruct_items. simpl.
    rewrite pyeq_refl. simpl.
    rewrite f64_reconstruct_loop_acc. fold (F64.reconstruct_items t [b]).
    rewrite Hz. simpl.
    split; [reflexivity|]. split; [reflexivity|]. split; [exact Ez|].
    now apply sublist_skip.
  - intros Hrest.
    destruct (find_some _ _ Hrest) as [Hin HP].
    destruct (in_combinations2 _ _ _ Hin) as [Ha Hb].
    assert (Hskip : F64.py_in (F64.value d) [a; b] = false).
    { apply f64_py_in_false. intros y [<-|[<-|[]]];
        destruct (pyeq (F64.value d) _) eqn:Ey; try reflexivity; exfalso.
      - assert (HP' : P (F64.value d, b) = true).
        { rewrite (P_compat (F64.value d) a b); [exact HP|now left|now right|exact Ey]. }
        rewrite (find_none _ _ Hfirst (F64.value d, b)) in HP'; [discriminate|].
        now apply in_map.
      - assert (HP' : P (F64.value d, a) = true).
        { rewrite (P_compat (F64.value d) b a), P_sym;
            [exact HP|now left|now right|exact Ey]. }
        rewrite (find_none _ _ Hfirst (F64.value d, a)) in HP'; [discriminate|].
        now apply in_map. }
    destruct (IH a b) as [x [y [Hxy [Ex [Ey Sxy]]]]].
    + intros x y z Hx Hy. apply P_compat; now right.
    + exact Hrest.
    + exists x, y. unfold F64.reconstruct_items in *.
      rewrite f64_reconstruct_loop_skip by exact Hskip.
      repeat split; trivial. now apply sublist_cons.
Qed.

Lemma f64_nonzero_compat (x y : float) :
  pyeq x y = true -> F64.nonzero x = F64.nonzero y.
Proof.
  intros H. unfold F64.nonzero. f_equal.
  destruct (pyeq_cases _ _ H) as [->|[Hx Hy]]; [reflexivity|].
  now rewrite (proj1 (fzero_iff x) Hx), (proj1 (fzero_iff y) Hy).
Qed.

(** A nonzero number is equal only to itself. *)
Lemma f64_nonzero_pyeq (x y : float) :
  F64.nonzero y = true -> pyeq x y = true -> x = y.
Proof.
  intros Hy H. destruct (pyeq_cases _ _ H) as [E|[_ Hz]]; [exact E|].
  apply fzero_iff in Hz. unfold F64.nonzero in Hy. rewrite Hz in Hy. discriminate.
Qed.

Lemma f64_py_remove_In (x : float) (l : list float) (y : float) :
  In y (F64.py_remove x l) -> In y l.
Proof.
  induction l as [|q qs IH]; simpl; [tauto|].
  destruct (pyeq x q); [now right|].
  intros [->|H]; [now left|right; now apply IH].
Qed.

Lemma f64_reconstruct_loop_filter (keep : float -> bool)
    (data result : list F64.Item) (remaining : list float) :
  (forall x y, pyeq x y = true -> keep x = keep y) ->
  (forall y, In y remaining -> keep y = true) ->
  F64.reconstruct_loop data result remaining
  = F64.reconstruct_loop (List.filter (fun item => keep (F64.value item)) data)
      result remaining.
Proof.
  intros Hkeep. revert result remaining.
  induction data as [|d t IH]; intros result remaining Hrem; [reflexivity|].
  cbn [List.filter]. destruct (keep (F64.value d)) eqn:Hd.
  - simpl. destruct (F64.py_in (F64.value d) remaining); [|now apply IH].
    destruct (F64.py_remove (F64.value d) remaining) as [|r rs] eqn:Hr; [reflexivity|].
    apply IH. intros y Hy. apply Hrem.
    apply (f64_py_remove_In (F64.value d)). now rewrite Hr.
  - rewrite f64_reconstruct_loop_skip; [now apply IH|].
    apply f64_py_in_false. intros y Hy.
    destruct (pyeq (F64.value d) y) eqn:E; [|reflexivity].
    rewrite (Hkeep _ _ E), (Hrem y Hy) in Hd. discriminate.
Qed.

Lemma f64_filter_map_value (keep : float -> bool) (data : list F64.Item) :
  List.filter keep (map F64.value data)
  = map F64.value (List.filter (fun item => keep (F64.value item)) data).
Proof.
  induction data as [|d t IH]; simpl; [reflexivity|].
  destruct (keep (F64.value d)); simpl; now rewrite IH.
Qed.

Lemma f64_reconstruct_nonzero (data : list F64.Item) (wanted : list float) :
  (forall v, In v wanted -> In v (List.filter F64.nonzero (map F64.value data))) ->
  F64.reconstruct_items data wanted
  = F64.reconstruct_items
      (List.filter (fun item => F64.nonzero (F64.value item)) data) wanted.
Proof.
  intros H. unfold F64.reconstruct_items.
  apply (f64_reconstruct_loop_filter F64.nonzero); [exact f64_nonzero_compat|].
  intros v Hv. apply H in Hv. apply filter_In in Hv. tauto.
Qed.

Lemma f64_values_nonzero (data : list F64.Item) (v : float) :
  In v (List.filter F64.nonzero (map F64.value data))
  <-> In v (map F64.value data) /\ (v =? 0)%float = false.
Proof.
  rewrite filter_In. unfold F64.nonzero.
  destruct (v =? 0)%float; simpl; intuition congruence.
Qed.

(** ** Occurrences, and when reconstruction succeeds *)

Lemma f64_occurrences_cons (v y : float) (l : list float) :
  F64.occurrences v (y :: l)
  = ((if pyeq v y then 1 else 0) + F64.occurrences v l)%nat.
Proof. unfold F64.occurrences. simpl. now destruct (pyeq v y). Qed.

Lemma f64_py_remove_occurrences (x : float) (l : list float) :
  F64.py_in x l = true ->
  forall v, F64.occurrences v l
            = (F64.occurrences v (F64.py_remove x l)
               + (if pyeq v x then 1 else 0))%nat.
Proof.
  induction l as [|y t IH]; simpl; [discriminate|].
  intros Hin v. rewrite f64_occurrences_cons.
  destruct (pyeq x y) eqn:Exy; simpl in Hin.
  - rewrite (pyeq_compat_r x y v Exy). lia.
  - rewrite f64_occurrences_cons, (IH Hin v). lia.
Qed.

Lemma f64_py_remove_length (x : float) (l : list float) :
  F64.py_in x l = true -> length l = S (length (F64.py_remove x l)).
Proof.
  induction l as [|y t IH]; simpl; [discriminate|].
  destruct (pyeq x y); simpl; [reflexivity|].
  intros Hin. now rewrite (IH Hin).
Qed.

Lemma f64_py_in_false_occurrences (x : float) (l : list float) :
  F64.py_in x l = false ->
  forall v, pyeq v x = true -> F64.occurrences v l = 0%nat.
Proof.
  intros Hin v Ev.
  induction l as [|y t IH]; [reflexivity|].
  simpl in Hin. apply orb_false_iff in Hin. destruct Hin as [Exy Hin].
  rewrite f64_occurrences_cons, (IH Hin).
  now rewrite (pyeq_compat_l v x y Ev), Exy.
Qed.

Lemma f64_reconstruct_loop_occurrences :
  forall (data result : list F64.Item) (remaining : list float)
         (items : list F64.Item),
    F64.reconstruct_loop data result remaining = Some items ->
    exists picked,
      items = result ++ picked
      /\ picked <> []
      /\ sublist picked data
      /\ length picked = length remaining
      /\ forall v, F64.occurrences v (map F64.value picked)
                   = F64.occurrences v remaining.
Proof.
  induction data as [|d t IH]; intros result remaining items; simpl; [discriminate|].
  destruct (F64.py_in (F64.value d) remaining) eqn:Hin.
  - pose proof (f64_py_remove_occurrences _ _ Hin) as Hocc.
    pose proof (f64_py_remove_length _ _ Hin) as Hlen.
    destruct (F64.py_remove (F64.value d) remaining) as [|r rs].
    + intros H. inversion H; subst. exists [d].
      split; [reflexivity|]. split; [discriminate|].
      split; [apply sublist_skip, sublist_nil_l|].
      split; [now rewrite Hlen|].
      intros v. rewrite (Hocc v). simpl. rewrite f64_occurrences_cons.
      unfold F64.occurrences. simpl. lia.
    + intros H. destruct (IH _ _ _ H) as [picked [-> [_ [Hsub [Hl Ho]]]]].
      exists (d :: picked). split; [now rewrite <- app_assoc|].
      split; [discriminate|].
      split; [now apply sublist_skip|]. split; [simpl; lia|].
      intros v. rewrite (Hocc v). simpl. rewrite f64_occurrences_cons, (Ho v). lia.
  - intros H. destruct (IH _ _ _ H) as [picked [-> [Hne [Hsub [Hl Ho]]]]].
    exists picked. split; [reflexivity|]. split; [exact Hne|].
    split; [now apply sublist_cons|]. now split.
Qed.

Lemma f64_reconstruct_items_sound (data : list F64.Item) (values : list float)
    (items : list F64.Item) :
  F64.reconstruct_items data values = Some items ->
  items <> [] /\ sublist items data /\ length items = length values
  /\ forall v, F64.occurrences v (map F64.value items) = F64.occurrences v values.
Proof.
  intros H. destruct (f64_reconstruct_loop_occurrences _ _ _ _ H)
    as [picked [-> H']].
  exact H'.
Qed.

Lemma f64_reconstruct_loop_succeeds :
  forall (data result : list F64.Item) (remaining : list float),
    remaining <> [] ->
    (exists items, F64.reconstruct_loop data result remaining = Some items)
    <-> forall v, (F64.occurrences v remaining
                   <= F64.occurrences v (map F64.value data))%nat.
Proof.
  induction data as [|d t IH]; intros result remaining Hne.
  - simpl. split; [intros [items H]; discriminate|].
    intros H. destruct remaining as [|r rs]; [contradiction|].
    specialize (H r). rewrite f64_occurrences_cons, pyeq_refl in H.
    unfold F64.occurrences in H at 2. simpl in H. lia.
  - cbn [F64.reconstruct_loop map].
    destruct (F64.py_in (F64.value d) remaining) eqn:Hin.
    + pose proof (f64_py_remove_occurrences _ _ Hin) as Hocc.
      destruct (F64.py_remove (F64.value d) remaining) as [|r rs] eqn:Hrem.
      * split; [|eauto]. intros _ v. rewrite (Hocc v), f64_occurrences_cons.
        unfold F64.occurrences at 1. simpl. lia.
      * rewrite IH by discriminate.
        split; intros H v; specialize (H v); pose proof (Hocc v) as Hv;
          rewrite (f64_occurrences_cons v (F64.value d)) in *; lia.
    + rewrite IH by exact Hne. split; intros H v; specialize (H v).
      * rewrite f64_occurrences_cons. lia.
      * rewrite f64_occurrences_cons in H.
        destruct (pyeq v (F64.value d)) eqn:Ev; [|exact H].
        rewrite (f64_py_in_false_occurrences _ _ Hin v Ev). lia.
Qed.

Lemma f64_occurrences_sublist (v : float) (l k : list float) :
  sublist l k -> (F64.occurrences v l <= F64.occurrences v k)%nat.
Proof.
  induction 1 as [|y l k _ IH|y l k _ IH]; [lia| |];
    rewrite ?f64_occurrences_cons; lia.
Qed.


(** A selection of the store's values can always be reconstructed. *)
Lemma f64_reconstruct_sublist (data : list F64.Item) (wanted : list float) :
  wanted <> [] -> sublist wanted (map F64.value data) ->
  exists items, F64.reconstruct_items data wanted = Some items.
Proof.
  intros Hne Hsub. unfold F64.reconstruct_items.
  apply f64_reconstruct_loop_succeeds; [exact Hne|].
  intros v. now apply f64_occurrences_sublist.
Qed.

(** ** The enumeration order of triplets *)




Lemma combinations2_sublist {A : Type} (l : list A) (a b : A) :
  In (a, b) (combinations2 l) -> sublist [a; b] l.
Proof.
  induction l as [|x t IH]; simpl; [tauto|].
  rewrite in_app_iff, in_map_iff. intros [[y [E Hy]]|H].
  - inversion E; subst. apply sublist_skip.
    clear - Hy. induction t as [|z t IH]; [destruct Hy|].
    destruct Hy as [->|Hy]; [apply sublist_skip, sublist_nil_l|].
    now apply sublist_cons, IH.
  - now apply sublist_cons, IH.
Qed.

Lemma combinations3_sublist {A : Type} (l : list A) (a b c : A) :
  In (a, b, c) (combinations3 l) -> sublist [a; b; c] l.
Proof.
  induction l as [|x t IH]; simpl; [tauto|].
  rewrite in_app_iff, in_map_iff. intros [[[y z] [E Hyz]]|H].
  - simpl in E. inversion E; subst. apply sublist_skip.
    now apply combinations2_sublist.
  - now apply sublist_cons, IH.
Qed.

(** ** Pairwise-difference search in float64 *)

Lemma f64_difference_loop_find (data : list F64.Item) (target tolerance : float)
    (pairs : list (float * float)) :
  F64.difference_loop data target tolerance pairs
  = match find (F64.difference_check target tolerance) pairs with
    | Some (a, b) => F64.reconstruct_items data [a; b]
    | None => None
    end.
Proof.
  induction pairs as [|[a b] rest IH]; simpl; [reflexivity|].
  destruct (F64.difference_check target tolerance (a, b)); [reflexivity|exact IH].
Qed.

Lemma f64_difference_check_sym (target tolerance a b : float) :
  F64.difference_check target tolerance (a, b)
  = F64.difference_check target tolerance (b, a).
Proof.
  unfold F64.difference_check. cbn [fst snd]. now rewrite (f64_abs_sub_sym a b).
Qed.

Lemma f64_difference_check_compat (target tolerance x y z : float) :
  pyeq x y = true ->
  F64.difference_check target tolerance (x, z)
  = F64.difference_check target tolerance (y, z).
Proof.
  intros H. unfold F64.difference_check. cbn [fst snd].
  now rewrite (f64_abs_sub_compat x y z z H (pyeq_refl z)).
Qed.

Lemma f64_difference_found (data : list F64.Item) (target tolerance a b : float) :
  find (F64.difference_check target tolerance)
       (combinations2 (map F64.value data)) = Some (a, b) ->
  exists x y, F64.find_subset_difference data target tolerance = Some [x; y]
              /\ pyeq (F64.value x) a = true /\ pyeq (F64.value y) b = true
              /\ sublist [x; y] data.
Proof.
  intros Hfind. unfold F64.find_subset_difference.
  rewrite f64_difference_loop_find, Hfind.
  apply (f64_reconstruct_pair _ (f64_difference_check_sym target tolerance));
    [|exact Hfind].
  intros x y z _ _. apply f64_difference_check_compat.
Qed.

(** C6, in float64.  The difference search enumerates the [n*(n-1)/2] pairs
    of values at positions [i < j]; its check is the float64 computation
    [abs(abs(a - b) - target) <= tolerance].  An answer is exactly two items
    carrying, in order, the values of the first pair in the enumeration that
    passes this check; no-match is reported exactly when every pair fails
    it. *)
Theorem f64_find_subset_difference_first_pair
    (data : list F64.Item) (target tolerance : float) :
  let values := map F64.value data in
  let n := length data in
  (length (combinations2 values) = n * (n - 1) / 2)%nat
  /\ (forall items,
        F64.find_subset_difference data target tolerance = Some items ->
        exists i j a b x y,
          (i < j)%nat /\ values !! i = Some a /\ values !! j = Some b
          /\ (abs (abs (a - b) - target) <=? tolerance)%float = true
          /\ (forall i' j' a' b', (i' < j')%nat ->
                (i' < i \/ (i' = i /\ j' < j))%nat ->
                values !! i' = Some a' -> values !! j' = Some b' ->
                (abs (abs (a' - b') - target) <=? tolerance)%float = false)
          /\ items = [x; y]
          /\ pyeq (F64.value x) a = true /\ pyeq (F64.value y) b = true
          /\ sublist [x; y] data)
  /\ (F64.find_subset_difference data target tolerance = None
      <-> forall i j a b, (i < j)%nat ->
            values !! i = Some a -> values !! j = Some b ->
            (abs (abs (a - b) - target) <=? tolerance)%float = false).
Proof.
  intros values n. split; [|split].
  - pose proof (length_combinations2 values) as H.
    unfold values in H at 2 3. rewrite length_map in H. fold n in H.
    apply Nat.div_unique_exact; lia.
  - intros items Hres.
    destruct (find (F64.difference_check target tolerance) (combinations2 values))
      as [[a b]|] eqn:Hfind.
    + destruct (f64_difference_found data target tolerance a b Hfind)
        as [x [y [Hxy [Ex [Ey S]]]]].
      destruct (find_combinations2_first _ _ _ _ Hfind)
        as [i [j [Hij [Hi [Hj [HP Hbefore]]]]]].
      exists i, j, a, b, x, y.
      split; [exact Hij|]. split; [exact Hi|]. split; [exact Hj|].
      split; [exact HP|]. split; [exact Hbefore|].
      split; [congruence|]. now repeat split.
    + unfold F64.find_subset_difference in Hres. fold values in Hres.
      rewrite f64_difference_loop_find, Hfind in Hres. discriminate.
  - destruct (find (F64.difference_check target tolerance) (combinations2 values))
      as [[a b]|] eqn:Hfind.
    + destruct (f64_difference_found data target tolerance a b Hfind)
        as [x [y [Hxy _]]].
      rewrite Hxy. split; [discriminate|]. intros H.
      destruct (find_combinations2_first _ _ _ _ Hfind)
        as [i [j [Hij [Hi [Hj [HP _]]]]]].
      unfold F64.difference_check in HP. cbn [fst snd] in HP.
      rewrite (H i j a b Hij Hi Hj) in HP. discriminate.
    + unfold F64.find_subset_difference. fold values.
      rewrite f64_difference_loop_find, Hfind.
      split; [|reflexivity]. intros _.
      exact (proj1 (find_combinations2_none _ _) Hfind).
Qed.

Lemma f64_find_subset_difference_first_pair_witness :
  exists i j a b x y,
    (i < j)%nat
    /\ [7; 5; 1; 9]%float !! i = Some a /\ [7; 5; 1; 9]%float !! j = Some b
    /\ (abs (abs (a - b) - 4) <=? 0)%float = true
    /\ [F64.A 5 2; F64.A 1 3] = [x; y]
    /\ pyeq (F64.value x) a = true /\ pyeq (F64.value y) b = true
    /\ sublist [x; y] [F64.A 7 1; F64.A 5 2; F64.A 1 3; F64.A 9 4].
Proof.
  destruct (f64_find_subset_difference_first_pair
              [F64.A 7 1; F64.A 5 2; F64.A 1 3; F64.A 9 4] 4 0)
    as (_ & H & _).
  destruct (H [F64.A 5 2; F64.A 1 3]) as
    (i & j & a & b & x & y & Hij & Hi & Hj & Hc & _ & Hxy & Ex & Ey & S).
  - vm_compute. reflexivity.
  - exists i, j, a, b, x, y. repeat split; assumption.
Defined.

(** C6 as stated fails: on the store [1e16, 1.0] with target [1e16] and
    tolerance [0] the float64 difference [1e16 - 1.0] rounds to [1e16], the
    check passes and both items are returned, although
    [| |a - b| - target |] is [1]. *)
Lemma f64_difference_rounding_counterexample :
  F64.find_subset_difference [F64.A 1e16 1; F64.A 1 2] 1e16 0
  = Some [F64.A 1e16 1; F64.A 1 2]
  /\ ~ Qabs (Qabs (exact_value 1e16 - exact_value 1) - exact_value 1e16)
       <= exact_value 0.
Proof.
  split; [vm_compute; reflexivity|].
  intros H. vm_compute in H. apply H. reflexivity.
Qed.

(** ** Product search in float64 *)

Lemma f64_product_pairs_loop_find (data : list F64.Item) (target tolerance : float)
    (pairs : list (float * float)) :
  F64.product_pairs_loop data target tolerance pairs
  = option_map (fun p => F64.reconstruct_items data [fst p; snd p])
               (find (F64.product_check2 target tolerance) pairs).
Proof.
  induction pairs as [|[a b] rest IH]; simpl; [reflexivity|].
  destruct (F64.product_check2 target tolerance (a, b)); [reflexivity|exact IH].
Qed.

Lemma f64_product_triplets_loop_find (data : list F64.Item)
    (target tolerance : float) (triplets : list (float * float * float)) :
  F64.product_triplets_loop data target tolerance triplets
  = option_map
      (fun p => F64.reconstruct_items data [fst (fst p); snd (fst p); snd p])
      (find (F64.product_check3 target tolerance) triplets).
Proof.
  induction triplets as [|[[a b] c] rest IH]; simpl; [reflexivity|].
  destruct (F64.product_check3 target tolerance (a, b, c)); [reflexivity|exact IH].
Qed.

Lemma f64_product_check2_sym (target tolerance a b : float) :
  F64.product_check2 target tolerance (a, b)
  = F64.product_check2 target tolerance (b, a).
Proof.
  unfold F64.product_check2. cbn [fst snd]. now rewrite (f64_mul_comm a b).
Qed.

Lemma f64_nonzero_values_pyeq (data : list F64.Item) (x y : float) :
  In x (map F64.value (List.filter (fun item => F64.nonzero (F64.value item)) data)) ->
  In y (map F64.value (List.filter (fun item => F64.nonzero (F64.value item)) data)) ->
  pyeq x y = true -> x = y.
Proof.
  intros _ Hy. rewrite <- f64_filter_map_value in Hy.
  apply filter_In in Hy. destruct Hy as [_ Hy]. now apply f64_nonzero_pyeq.
Qed.



Lemma f64_product_none (data : list F64.Item) (target tolerance : float) :
  find (F64.product_check2 target tolerance)
       (combinations2 (List.filter F64.nonzero (map F64.value data))) = None ->
  find (F64.product_check3 target tolerance)
       (combinations3 (List.filter F64.nonzero (map F64.value data))) = None ->
  F64.find_subset_product data target tolerance = None.
Proof.
  intros Hpairs Htriplets. unfold F64.find_subset_product.
  rewrite f64_product_pairs_loop_find, Hpairs. cbn [option_map].
  now rewrite f64_product_triplets_loop_find, Htriplets.
Qed.


(** The theorem at work on a store where no pair and one triplet passes:
    the values [2, 3, 5] at positions [0 < 1 < 2] are the first passing
    triplet for the target [30]. *)
Lemma f64_find_subset_product_triplet_example :
  F64.find_subset_product [F64.A 2 1; F64.A 0 2; F64.A 3 3; F64.A 5 4; F64.A 7 5] 30 0
  = Some [F64.A 2 1; F64.A 3 3; F64.A 5 4]
  /\ F64.find_subset_product [F64.A 2 1; F64.A 3 2; F64.A 5 3] 100 0x1.999999999999ap-4
     = None.
Proof. split; vm_compute; reflexivity. Qed.


(** When the float64 product [tolerance * target] is strictly negative,
    every pair and triplet is rejected and product search reports
    no-match. *)
Lemma f64_product_negative_threshold
    (data : list F64.Item) (target tolerance : float) :
  (tolerance * target <? 0)%float = true ->
  (forall a b, F64.product_check2 target tolerance (a, b) = false)
  /\ (forall a b c, F64.product_check3 target tolerance (a, b, c) = false)
  /\ F64.find_subset_product data target tolerance = None.
Proof.
  intros Hneg.
  assert (H2 : forall p, F64.product_check2 target tolerance p = false).
  { intros p. unfold F64.product_check2. now apply f64_abs_leb_negative. }
  assert (H3 : forall p, F64.product_check3 target tolerance p = false).
  { intros p. unfold F64.product_check3. now apply f64_abs_leb_negative. }
  split; [intros a b; apply H2|]. split; [intros a b c; apply H3|].
  apply f64_product_none; now apply find_all_false.
Qed.

(** C9, in float64.  For a strictly negative target and a strictly positive
    tolerance whose float64 product does not underflow to a zero, the
    threshold [tolerance * target] is strictly negative: every pair and
    triplet is rejected, also one whose product is the target, and product
    search reports no-match. *)
Theorem f64_find_subset_product_negative_target
    (data : list F64.Item) (target tolerance : float) :
  (target <? 0)%float = true ->
  (0 <? tolerance)%float = true ->
  (tolerance * target =? 0)%float = false ->
  (tolerance * target <? 0)%float = true
  /\ (forall a b, F64.product_check2 target tolerance (a, b) = false)
  /\ (forall a b c, F64.product_check3 target tolerance (a, b, c) = false)
  /\ F64.find_subset_product data target tolerance = None.
Proof.
  intros Htarget Htol Hunder.
  destruct (f64_mul_pos_neg tolerance target Htol Htarget) as [Hneg|Hz];
    [|congruence].
  split; [exact Hneg|]. now apply f64_product_negative_threshold.
Qed.

Lemma f64_find_subset_product_negative_target_witness :
  (0x1.999999999999ap-4 * -6 <? 0)%float = true
  /\ F64.product_check2 (-6) 0x1.999999999999ap-4 (2, -3)%float = false
  /\ F64.find_subset_product [F64.A 2 1; F64.A (-3) 2] (-6) 0x1.999999999999ap-4
     = None.
Proof.
  destruct (f64_find_subset_product_negative_target
              [F64.A 2 1; F64.A (-3) 2] (-6) 0x1.999999999999ap-4)
    as [Hneg [H2 [_ Hnone]]]; try reflexivity.
  split; [exact Hneg|]. split; [apply H2|exact Hnone].
Defined.

(** C9 as stated fails: with the target [-5e-324] and the tolerance
    [0.05], both of the stated signs, the float64 product
    [tolerance * target] underflows to [-0.0], which is not negative; the
    pair [(5e-324, -1.0)] has product equal to the target and is accepted. *)
Lemma f64_product_underflow_counterexample :
  (0 <? 0x1.999999999999ap-5)%float = true
  /\ (-0x0.0000000000001p-1022 <? 0)%float = true
  /\ F64.find_subset_product
       [F64.A 0x0.0000000000001p-1022 1; F64.A (-1) 2]
       (-0x0.0000000000001p-1022) 0x1.999999999999ap-5
     = Some [F64.A 0x0.0000000000001p-1022 1; F64.A (-1) 2].
Proof. repeat split; vm_compute; reflexivity. Qed.

(** ** Subset-sum search in float64 *)

Lemma f64_dict_mem_true (k : float) (dp : F64.dict) :
  F64.dict_mem k dp = true
  <-> exists k' l, In (k', l) dp /\ (k =? k')%float = true.
Proof.
  unfold F64.dict_mem. rewrite existsb_exists. split.
  - intros [[k' l] [Hin E]]. now exists k', l.
  - intros [k' [l [Hin E]]]. now exists (k', l).
Qed.

Lemma f64_dict_get_found (k : float) (dp : F64.dict) (l : list F64.Item) :
  F64.dict_get k dp = Returned l -> exists k', In (k', l) dp /\ pyeq k k' = true.
Proof.
  induction dp as [|[k0 l0] t IH]; simpl; [discriminate|].
  destruct (pyeq k k0) eqn:E.
  - intros H. inversion H; subst. exists k0. split; [now left|exact E].
  - intros H. destruct (IH H) as [k' [Hin E']]. exists k'. split; [now right|exact E'].
Qed.

(** A key of the dictionary is always found. *)
Lemma f64_dict_get_key (k : float) (dp : F64.dict) :
  In k (F64.dict_keys dp) -> exists l, F64.dict_get k dp = Returned l.
Proof.
  unfold F64.dict_keys. induction dp as [|[k0 l0] t IH]; simpl; [tauto|].
  destruct (pyeq k k0) eqn:E; [eauto|].
  intros [->|H]; [rewrite pyeq_refl in E; discriminate|now apply IH].
Qed.

Lemma f64_dict_get_app (k : float) (dp extra : F64.dict) (l : list F64.Item) :
  F64.dict_get k dp = Returned l -> F64.dict_get k (dp ++ extra) = Returned l.
Proof.
  induction dp as [|[k0 l0] t IH]; simpl; [discriminate|].
  destruct (pyeq k k0); [trivial|exact IH].
Qed.

Lemma f64_dict_set_absent (k : float) (v : list F64.Item) (dp : F64.dict) :
  F64.dict_mem k dp = false -> F64.dict_set k v dp = dp ++ [(k, v)].
Proof.
  induction dp as [|[k0 l0] t IH]; simpl; [reflexivity|].
  destruct (k =? k0)%float; simpl; [discriminate|].
  intros H. now rewrite IH.
Qed.

Lemma f64_sum_check_sim (target tolerance a b : float) :
  sim a b -> f64_sum_check target tolerance a = f64_sum_check target tolerance b.
Proof. intros H. unfold f64_sum_check. now rewrite (sim_abs_sub a b target H). Qed.

Lemma f64_fsum_snoc (items : list F64.Item) (item : F64.Item) :
  F64.fsum (map F64.value (items ++ [item]))
  = (F64.fsum (map F64.value items) + F64.value item)%float.
Proof. unfold F64.fsum. rewrite map_app, fold_left_app. reflexivity. Qed.

Lemma f64_sum_inner_spec (item : F64.Item) (target tolerance : float) :
  forall (keys : list float) (dp0 extra : F64.dict),
    (forall s, In s keys -> In s (F64.dict_keys dp0)) ->
    match F64.sum_inner item target tolerance keys (dp0 ++ extra) with
    | Returned (Return items) =>
        exists s l, In s keys /\ F64.dict_get s dp0 = Returned l
                    /\ items = l ++ [item]
                    /\ f64_sum_check target tolerance (s + F64.value item) = true
    | Returned (Next dp') =>
        exists extra',
          dp' = dp0 ++ extra'
          /\ (forall s, In s keys ->
                f64_sum_check target tolerance (s + F64.value item) = false
                /\ exists k, In k (F64.dict_keys dp')
                             /\ sim (s + F64.value item) k)
          /\ (forall k, In k (F64.dict_keys (dp0 ++ extra)) ->
                        In k (F64.dict_keys dp'))
          /\ (forall e, In e extra' ->
                In e extra
                \/ exists s l, In s keys /\ F64.dict_get s dp0 = Returned l
                               /\ e = ((s + F64.value item)%float, l ++ [item]))
    | Raised _ => False
    end.
Proof.
  induction keys as [|s ks IH]; intros dp0 extra Hkeys.
  - simpl. exists extra. split; [reflexivity|]. split; [intros s []|].
    split; [trivial|]. intros e He. now left.
  - cbn [F64.sum_inner].
    destruct (f64_dict_get_key s dp0 (Hkeys s (or_introl eq_refl))) as [l Hl].
    assert (Hks : forall s', In s' ks -> In s' (F64.dict_keys dp0))
      by (intros s' Hs'; apply Hkeys; now right).
    fold (f64_sum_check target tolerance (s + F64.value item)).
    destruct (f64_sum_check target tolerance (s + F64.value item)) eqn:Hcheck.
    + rewrite (f64_dict_get_app _ _ extra _ Hl). cbn [bind].
      exists s, l. now repeat split; [left|..].
    + destruct (F64.dict_mem (s + F64.value item) (dp0 ++ extra)) eqn:Hmem;
        cbn [negb].
      * specialize (IH dp0 extra Hks).
        destruct (F64.sum_inner item target tolerance ks (dp0 ++ extra))
          as [[items|dp']|e]; [| |exact IH].
        -- destruct IH as [s' [l' [Hs' H]]]. exists s', l'. split; [now right|exact H].
        -- destruct IH as [extra' [Hdp [Hall [Hmono Hnew]]]].
           exists extra'. split; [exact Hdp|]. split; [|split; [exact Hmono|]].
           ++ intros s' [<-|Hs']; [|now apply Hall].
              split; [exact Hcheck|].
              apply f64_dict_mem_true in Hmem. destruct Hmem as [k' [l' [Hin E]]].
              exists k'. split; [|now apply f64_eqb_cases].
              apply Hmono. unfold F64.dict_keys. apply in_map_iff. now exists (k', l').
           ++ intros e He. destruct (Hnew e He) as [H|[s' [l' [Hs' H]]]]; [now left|].
              right. exists s', l'. split; [now right|exact H].
      * rewrite (f64_dict_get_app _ _ extra _ Hl). cbn [bind].
        rewrite f64_dict_set_absent by exact Hmem. rewrite <- app_assoc.
        specialize (IH dp0 (extra ++ [((s + F64.value item)%float, l ++ [item])]) Hks).
        destruct (F64.sum_inner item target tolerance ks
                    (dp0 ++ extra ++ [((s + F64.value item)%float, l ++ [item])]))
          as [[items|dp']|e]; [| |exact IH].
        -- destruct IH as [s' [l' [Hs' H]]]. exists s', l'. split; [now right|exact H].
        -- destruct IH as [extra' [Hdp [Hall [Hmono Hnew]]]].
           exists extra'. split; [exact Hdp|]. split; [|split].
           ++ intros s' [<-|Hs']; [|now apply Hall].
              split; [exact Hcheck|].
              exists (s + F64.value item)%float. split; [|apply sim_refl].
              apply Hmono. unfold F64.dict_keys. rewrite !map_app, !in_app_iff.
              right. right. now left.
           ++ intros k Hk. apply Hmono. unfold F64.dict_keys in *.
              rewrite !map_app, !in_app_iff in *. tauto.
           ++ intros e He. destruct (Hnew e He) as [H|[s' [l' [Hs' H]]]].
              ** apply in_app_or in H. destruct H as [H|[<-|[]]]; [now left|].
                 right. exists s, l. split; [now left|]. now split.
              ** right. exists s', l'. split; [now right|exact H].
Qed.

Lemma f64_dp_inv_init : f64_dp_inv [] [(0%float, [])].
Proof.
  split.
  - intros k l [E|[]]. inversion E; subst. split; [constructor|apply sim_refl].
  - intros l Hl. apply sublist_nil_r in Hl. subst l.
    exists 0%float. split; [now left|apply sim_refl].
Qed.

Lemma f64_sum_inner_step (item : F64.Item) (target tolerance : float)
    (pre : list F64.Item) (dp : F64.dict) :
  f64_dp_inv pre dp ->
  match F64.sum_inner item target tolerance (F64.dict_keys dp) dp with
  | Returned (Return items) =>
      exists l, items = l ++ [item] /\ sublist l pre
                /\ f64_within target tolerance items
  | Returned (Next dp') =>
      f64_dp_inv (pre ++ [item]) dp'
      /\ forall l, sublist l pre -> ~ f64_within target tolerance (l ++ [item])
  | Raised _ => False
  end.
Proof.
  intros [Hsound Hcomplete].
  pose proof (f64_sum_inner_spec item target tolerance (F64.dict_keys dp) dp []
                (fun s H => H)) as H.
  rewrite app_nil_r in H.
  destruct (F64.sum_inner item target tolerance (F64.dict_keys dp) dp)
    as [[items|dp']|e]; [| |exact H].
  - destruct H as [s [l [Hs [Hl [-> Hcheck]]]]].
    destruct (f64_dict_get_found _ _ _ Hl) as [k' [Hin Ek]].
    destruct (Hsound _ _ Hin) as [Hsub Esum].
    exists l. split; [reflexivity|]. split; [exact Hsub|].
    unfold f64_within. rewrite f64_fsum_snoc, <- Hcheck.
    apply f64_sum_check_sim, sim_add.
    apply sim_sym. eapply sim_trans; [exact (pyeq_cases _ _ Ek)|exact Esum].
  - destruct H as [extra' [-> [Hall [Hmono Hnew]]]].
    split; [split|].
    + intros k l Hin. apply in_app_or in Hin. destruct Hin as [Hin|Hin].
      * destruct (Hsound _ _ Hin) as [Hsub E]. split; [|exact E].
        now apply sublist_inserts_r.
      * destruct (Hnew _ Hin) as [[]|[s [l0 [Hs [Hl0 E]]]]].
        inversion E; subst. clear E.
        destruct (f64_dict_get_found _ _ _ Hl0) as [k' [Hin' Ek]].
        destruct (Hsound _ _ Hin') as [Hsub Esum].
        split; [now apply sublist_app|].
        rewrite f64_fsum_snoc. apply sim_add.
        eapply sim_trans; [exact (pyeq_cases _ _ Ek)|exact Esum].
    + intros l Hl. apply sublist_app_r in Hl.
      destruct Hl as [l1 [l2 [-> [Hl1 Hl2]]]].
      apply sublist_cons_r in Hl2. destruct Hl2 as [Hl2|[l' [-> Hl']]].
      * apply sublist_nil_r in Hl2. subst l2. rewrite app_nil_r.
        destruct (Hcomplete l1 Hl1) as [k [Hk E]]. exists k. split; [|exact E].
        apply Hmono. exact Hk.
      * apply sublist_nil_r in Hl'. subst l'.
        destruct (Hcomplete l1 Hl1) as [s [Hs Es]].
        destruct (Hall s Hs) as [_ [k [Hk Ek]]].
        exists k. split; [exact Hk|]. rewrite f64_fsum_snoc.
        eapply sim_trans; [apply sim_add; exact Es|exact Ek].
    + intros l Hl Hwithin. destruct (Hcomplete l Hl) as [s [Hs Es]].
      destruct (Hall s Hs) as [Hfail _].
      unfold f64_within in Hwithin. rewrite f64_fsum_snoc in Hwithin.
      rewrite (f64_sum_check_sim _ _ _ _ (sim_add _ _ (F64.value item) Es)) in Hwithin.
      congruence.
Qed.

Lemma f64_sum_outer_spec (target tolerance : float) :
  forall (rest pre : list F64.Item) (dp : F64.dict),
    f64_dp_inv pre dp ->
    (forall l, sublist l pre -> l <> [] -> ~ f64_within target tolerance l) ->
    match F64.sum_outer rest target tolerance dp with
    | Returned (Some items) =>
        exists mid x post l,
          rest = mid ++ x :: post
          /\ items = l ++ [x]
          /\ sublist l (pre ++ mid)
          /\ f64_within target tolerance items
          /\ forall l', sublist l' (pre ++ mid) -> l' <> [] ->
                        ~ f64_within target tolerance l'
    | Returned None =>
        forall l, sublist l (pre ++ rest) -> l <> [] ->
                  ~ f64_within target tolerance l
    | Raised _ => False
    end.
Proof.
  induction rest as [|item rest IH]; intros pre dp Hinv Hnone.
  - simpl. now rewrite app_nil_r.
  - cbn [F64.sum_outer].
    pose proof (f64_sum_inner_step item target tolerance pre dp Hinv) as Hstep.
    destruct (F64.sum_inner item target tolerance (F64.dict_keys dp) dp)
      as [[items|dp']|e]; cbn [bind]; [| |exact Hstep].
    + destruct Hstep as [l [-> [Hsub Hok]]].
      exists [], item, rest, l. rewrite app_nil_r. now repeat split.
    + destruct Hstep as [Hinv' Hfail].
      assert (Hnone' : forall l, sublist l (pre ++ [item]) -> l <> [] ->
                                 ~ f64_within target tolerance l).
      { intros l Hl Hne. apply sublist_app_r in Hl.
        destruct Hl as [l1 [l2 [-> [Hl1 Hl2]]]].
        apply sublist_cons_r in Hl2. destruct Hl2 as [Hl2|[l' [-> Hl']]].
        - apply sublist_nil_r in Hl2. subst l2. rewrite app_nil_r in *.
          now apply Hnone.
        - apply sublist_nil_r in Hl'. subst l'. now apply Hfail. }
      specialize (IH (pre ++ [item]) dp' Hinv' Hnone').
      destruct (F64.sum_outer rest target tolerance dp') as [[items|]|e];
        [| |exact IH].
      * destruct IH as [mid [x [post [l [-> [-> [Hsub [Hok Hno]]]]]]]].
        exists (item :: mid), x, post, l. rewrite <- app_assoc in Hsub, Hno.
        now repeat split.
      * now rewrite <- app_assoc in IH.
Qed.

Lemma f64_find_subset_sum_spec (data : list F64.Item) (target tolerance : float) :
  match F64.find_subset_sum data target tolerance with
  | Returned (Some items) =>
      exists pre x post l,
        data = pre ++ x :: post
        /\ items = l ++ [x]
        /\ sublist l pre
        /\ f64_within target tolerance items
        /\ forall l', sublist l' pre -> l' <> [] ->
                      ~ f64_within target tolerance l'
  | Returned None =>
      forall l, sublist l data -> l <> [] -> ~ f64_within target tolerance l
  | Raised _ => False
  end.
Proof.
  unfold F64.find_subset_sum.
  apply (f64_sum_outer_spec target tolerance data [] [(0%float, [])] f64_dp_inv_init).
  intros l Hl Hne. apply sublist_nil_r in Hl. contradiction.
Qed.








(** ** Quotient search in float64 *)

Lemma f64_isclose_spec (a b rel_tol : float) :
  F64.isclose a b rel_tol
  = if (rel_tol <? 0)%float then Raised ValueError
    else Returned (f64_rel_close a b rel_tol).
Proof.
  unfold F64.isclose, f64_rel_close.
  destruct (rel_tol <? 0)%float; [reflexivity|].
  destruct (a =? b)%float; [reflexivity|].
  now destruct (is_infinity a || is_infinity b)%bool.
Qed.

Lemma f64_py_div_nonzero (a b : float) :
  (b =? 0)%float = false -> F64.py_div a b = Returned (a / b)%float.
Proof. intros H. unfold F64.py_div. now rewrite H. Qed.

Lemma f64_quotient_check_sym (target tolerance a b : float) :
  f64_quotient_check target tolerance (a, b)
  = f64_quotient_check target tolerance (b, a).
Proof. unfold f64_quotient_check. cbn [fst snd]. apply orb_comm. Qed.

Lemma f64_quotient_loop_find (data : list F64.Item) (target tolerance : float)
    (pairs : list (float * float)) :
  (tolerance <? 0)%float = false ->
  (forall a b, In (a, b) pairs -> (a =? 0)%float = false /\ (b =? 0)%float = false) ->
  F64.quotient_loop data target tolerance pairs
  = Returned match find (f64_quotient_check target tolerance) pairs with
             | Some (a, b) => F64.reconstruct_items data [a; b]
             | None => None
             end.
Proof.
  intros Htol. induction pairs as [|[a b] rest IH]; intros Hnz; [reflexivity|].
  destruct (Hnz a b (or_introl eq_refl)) as [Ha Hb].
  cbn [F64.quotient_loop find]. unfold f64_quotient_check at 1. cbn [fst snd].
  rewrite (f64_py_div_nonzero a b Hb), (f64_py_div_nonzero b a Ha). cbn [bind].
  rewrite !f64_isclose_spec, Htol. cbn [bind].
  destruct (f64_rel_close (a / b) target tolerance); [reflexivity|].
  cbn [orb]. destruct (f64_rel_close (b / a) target tolerance); [reflexivity|].
  apply IH. intros a' b' Hin. apply Hnz. now right.
Qed.

Lemma f64_quotient_loop_negative (data : list F64.Item)
    (target tolerance a b : float) (rest : list (float * float)) :
  (tolerance <? 0)%float = true -> (b =? 0)%float = false ->
  F64.quotient_loop data target tolerance ((a, b) :: rest) = Raised ValueError.
Proof.
  intros Htol Hb. cbn [F64.quotient_loop].
  rewrite (f64_py_div_nonzero a b Hb). cbn [bind].
  now rewrite f64_isclose_spec, Htol.
Qed.

Lemma f64_quotient_pairs_nonzero (data : list F64.Item) (a b : float) :
  In (a, b)
     (combinations2
        (map F64.value
           (List.filter (fun item => F64.nonzero (F64.value item)) data))) ->
  (a =? 0)%float = false /\ (b =? 0)%float = false.
Proof.
  intros Hin. apply in_combinations2 in Hin.
  rewrite <- f64_filter_map_value in Hin.
  destruct Hin as [Ha Hb]. apply f64_values_nonzero in Ha, Hb. tauto.
Qed.

Lemma f64_quotient_found (data : list F64.Item) (target tolerance a b : float) :
  find (f64_quotient_check target tolerance)
       (combinations2
          (map F64.value
             (List.filter (fun item => F64.nonzero (F64.value item)) data)))
  = Some (a, b) ->
  exists x y,
    F64.reconstruct_items
      (List.filter (fun item => F64.nonzero (F64.value item)) data) [a; b]
    = Some [x; y]
    /\ F64.value x = a /\ F64.value y = b
    /\ sublist [x; y] (List.filter (fun item => F64.nonzero (F64.value item)) data).
Proof.
  intros Hfind.
  destruct (f64_reconstruct_pair _ (f64_quotient_check_sym target tolerance)
              (List.filter (fun item => F64.nonzero (F64.value item)) data) a b)
    as [x [y [Hxy [Ex [Ey S]]]]].
  - intros x y z Hx Hy E. now rewrite (f64_nonzero_values_pyeq data x y Hx Hy E).
  - exact Hfind.
  - destruct (in_combinations2 _ _ _ (proj1 (find_some _ _ Hfind))) as [Ha Hb].
    rewrite <- f64_filter_map_value in Ha, Hb.
    apply filter_In in Ha, Hb.
    exists x, y. split; [exact Hxy|].
    split; [now apply f64_nonzero_pyeq|]. split; [now apply f64_nonzero_pyeq|].
    exact S.
Qed.

(** What the quotient search computes: under a negative tolerance it
    raises at the first pair, if there is one; otherwise it reconstructs
    the first pair that passes the check. *)
Lemma f64_find_subset_quotient_spec (data : list F64.Item) (target tolerance : float) :
  let values :=
    map F64.value (List.filter (fun item => F64.nonzero (F64.value item)) data) in
  F64.find_subset_quotient data target tolerance
  = if (tolerance <? 0)%float then
      match combinations2 values with
      | [] => Returned None
      | _ :: _ => Raised ValueError
      end
    else
      Returned match find (f64_quotient_check target tolerance)
                          (combinations2 values) with
               | Some (a, b) =>
                   F64.reconstruct_items
                     (List.filter (fun item => F64.nonzero (F64.value item)) data)
                     [a; b]
               | None => None
               end.
Proof.
  intros values. unfold F64.find_subset_quotient. fold values.
  destruct (tolerance <? 0)%float eqn:Htol.
  - destruct (combinations2 values) as [|[a b] rest] eqn:Hpairs; [reflexivity|].
    apply f64_quotient_loop_negative; [exact Htol|].
    apply (f64_quotient_pairs_nonzero data a b). fold values.
    rewrite Hpairs. now left.
  - apply f64_quotient_loop_find; [exact Htol|].
    intros a b. apply f64_quotient_pairs_nonzero.
Qed.

(** C5, in float64.  Quotient search drops the items of value zero before it
    divides, and never raises [ZeroDivisionError], although its divisions do
    raise on a zero divisor; the only exception it can raise is the
    [ValueError] of [isclose] under a negative tolerance.  An answer is
    exactly two items of the store, neither of value zero, carrying in order
    the values of the first pair of positions [i < j] among the nonzero
    values for which the float64 quotient [a/b] or [b/a] passes the
    comparison of [isclose] against the target.  Under a tolerance that is
    not negative, no-match is reported exactly when every pair fails. *)
Theorem f64_find_subset_quotient_no_zero_division
    (data : list F64.Item) (target tolerance : float) :
  let values := List.filter F64.nonzero (map F64.value data) in
  let close := fun a b : float =>
    (f64_rel_close (a / b) target tolerance
     || f64_rel_close (b / a) target tolerance)%bool in
  F64.find_subset_quotient data target tolerance <> Raised ZeroDivisionError
  /\ (forall e, F64.find_subset_quotient data target tolerance = Raised e ->
        e = ValueError /\ (tolerance <? 0)%float = true)
  /\ (forall a rest,
        F64.quotient_loop data target tolerance ((a, 0%float) :: rest)
        = Raised ZeroDivisionError)
  /\ (forall items,
        F64.find_subset_quotient data target tolerance = Returned (Some items) ->
        exists i j a b x y,
          (i < j)%nat /\ values !! i = Some a /\ values !! j = Some b
          /\ close a b = true
          /\ (forall i' j' a' b', (i' < j')%nat ->
                (i' < i \/ (i' = i /\ j' < j))%nat ->
                values !! i' = Some a' -> values !! j' = Some b' ->
                close a' b' = false)
          /\ items = [x; y] /\ F64.value x = a /\ F64.value y = b
          /\ (a =? 0)%float = false /\ (b =? 0)%float = false
          /\ sublist [x; y] data)
  /\ ((tolerance <? 0)%float = false ->
      (exists r, F64.find_subset_quotient data target tolerance = Returned r)
      /\ (F64.find_subset_quotient data target tolerance = Returned None
          <-> forall i j a b, (i < j)%nat ->
                values !! i = Some a -> values !! j = Some b ->
                close a b = false)).
Proof.
  intros values close.
  pose proof (f64_find_subset_quotient_spec data target tolerance) as Hspec.
  cbv zeta in Hspec. rewrite <- f64_filter_map_value in Hspec. fold values in Hspec.
  rewrite Hspec. clear Hspec.
  assert (Hnone :
            find (f64_quotient_check target tolerance) (combinations2 values) = None
            <-> forall i j a b, (i < j)%nat ->
                  values !! i = Some a -> values !! j = Some b ->
                  close a b = false) by apply find_combinations2_none.
  assert (Hzero : forall a rest,
             F64.quotient_loop data target tolerance ((a, 0%float) :: rest)
             = Raised ZeroDivisionError) by (intros a rest; reflexivity).
  destruct (tolerance <? 0)%float eqn:Htol.
  - destruct (combinations2 values) as [|p rest].
    + split; [discriminate|]. split; [intros ? H; discriminate|].
      split; [exact Hzero|]. split; [intros ? H|intros H]; discriminate.
    + split; [discriminate|]. split.
      { intros e H. inversion H. now split. }
      split; [exact Hzero|]. split; [intros ? H|intros H]; discriminate.
  - split; [discriminate|]. split; [intros e H; discriminate|].
    split; [exact Hzero|].
    destruct (find (f64_quotient_check target tolerance) (combinations2 values))
      as [[a b]|] eqn:Hfind.
    + assert (Hfind' := Hfind). unfold values in Hfind'.
      rewrite f64_filter_map_value in Hfind'.
      destruct (f64_quotient_found data target tolerance a b Hfind')
        as [x [y [Hxy [Ex [Ey S]]]]].
      destruct (find_combinations2_first _ _ _ _ Hfind)
        as [i [j [Hij [Hi [Hj [HP Hbefore]]]]]].
      assert (Ha := lookup_In _ _ _ Hi). assert (Hb := lookup_In _ _ _ Hj).
      apply (f64_values_nonzero data) in Ha, Hb.
      rewrite Hxy. split.
      * intros items H. inversion H; subst items.
        exists i, j, a, b, x, y. repeat split; try tauto.
        etransitivity; [exact S|apply filter_sublist].
      * intros _. split; [eauto|]. split; [discriminate|].
        intros Hfail. specialize (Hfail i j a b Hij Hi Hj).
        unfold f64_quotient_check in HP. cbn [fst snd] in HP.
        unfold close in Hfail. congruence.
    + split; [intros items H; discriminate|].
      intros _. split; [eauto|]. split; [|reflexivity].
      intros _. now apply Hnone.
Qed.

Lemma f64_find_subset_quotient_no_zero_division_witness :
  exists i j a b x y,
    (i < j)%nat
    /\ [6; 3]%float !! i = Some a /\ [6; 3]%float !! j = Some b
    /\ (f64_rel_close (a / b) 2 0 || f64_rel_close (b / a) 2 0)%bool = true
    /\ [F64.A 6 2; F64.A 3 4] = [x; y]
    /\ F64.value x = a /\ F64.value y = b
    /\ sublist [x; y] [F64.A 0 1; F64.A 6 2; F64.A (-0) 3; F64.A 3 4].
Proof.
  destruct (f64_find_subset_quotient_no_zero_division
              [F64.A 0 1; F64.A 6 2; F64.A (-0) 3; F64.A 3 4] 2 0)
    as (_ & _ & _ & H & _).
  destruct (H [F64.A 6 2; F64.A 3 4]) as
    (i & j & a & b & x & y & Hij & Hi & Hj & Hc & _ & Hxy & Ex & Ey & _ & _ & S).
  - vm_compute. reflexivity.
  - exists i, j, a, b, x, y. repeat split; assumption.
Defined.

(** The theorem at work: zeros are dropped before any division, although
    the divisions of the search do raise on a zero divisor. *)
Lemma f64_find_subset_quotient_examples :
  F64.find_subset_quotient [F64.A 0 1; F64.A 6 2; F64.A (-0) 3; F64.A 3 4] 2 0
  = Returned (Some [F64.A 6 2; F64.A 3 4])
  /\ F64.quotient_loop [F64.A 0 1; F64.A 6 2] 2 0 [(6, 0)%float]
     = Raised ZeroDivisionError
  /\ F64.find_subset_quotient [F64.A 6 1; F64.A 3 2] 2 (-1)
     = Raised ValueError.
Proof. repeat split; vm_compute; reflexivity. Qed.

(** C5 as stated fails: on the store [1, 3] with target
    [0.3333333333333333] and tolerance [0] the float64 quotient [1/3]
    rounds to the target and the pair is returned, although neither [1/3]
    nor [3/1] is within [0] of the target. *)
Lemma f64_quotient_rounding_counterexample :
  F64.find_subset_quotient [F64.A 1 1; F64.A 3 2] 0x1.5555555555555p-2 0
  = Returned (Some [F64.A 1 1; F64.A 3 2])
  /\ ~ Qabs (exact_value 1 / exact_value 3 - exact_value 0x1.5555555555555p-2)
       <= exact_value 0
          * Qmax (Qabs (exact_value 1 / exact_value 3))
                 (Qabs (exact_value 0x1.5555555555555p-2))
  /\ ~ Qabs (exact_value 3 / exact_value 1 - exact_value 0x1.5555555555555p-2)
       <= exact_value 0
          * Qmax (Qabs (exact_value 3 / exact_value 1))
                 (Qabs (exact_value 0x1.5555555555555p-2)).
Proof.
  split; [vm_compute; reflexivity|].
  split; intros H; vm_compute in H; apply H; reflexivity.
Qed.

(** ** Negative tolerance in float64 *)

Lemma f64_find_subset_sum_none (data : list F64.Item) (target tolerance : float) :
  (forall z, f64_sum_check target tolerance z = false) ->
  F64.find_subset_sum data target tolerance = Returned None.
Proof.
  intros Hfail.
  pose proof (f64_find_subset_sum_spec data target tolerance) as Hspec.
  destruct (F64.find_subset_sum data target tolerance) as [[items|]|e];
    [|reflexivity|destruct Hspec].
  destruct Hspec as [pre [x [post [l [_ [_ [_ [Hok _]]]]]]]].
  unfold f64_within in Hok. rewrite Hfail in Hok. discriminate.
Qed.

Lemma f64_find_subset_difference_none (data : list F64.Item)
    (target tolerance : float) :
  (forall p, F64.difference_check target tolerance p = false) ->
  F64.find_subset_difference data target tolerance = None.
Proof.
  intros Hfail. unfold F64.find_subset_difference.
  rewrite f64_difference_loop_find.
  now rewrite (find_all_false _ _ Hfail).
Qed.

(** C10, in float64.  Under a tolerance that is strictly negative, the
    quotient search raises [ValueError] as soon as the store holds two
    nonzero items, while the sum and difference searches report no-match on
    every store; the product search reports no-match whenever the float64
    threshold [tolerance * target] is strictly negative, as it is for a
    strictly positive target unless the product underflows to a zero. *)
Theorem f64_negative_tolerance_behaviour
    (data : list F64.Item) (target tolerance : float) :
  (tolerance <? 0)%float = true ->
  ((2 <= length (List.filter F64.nonzero (map F64.value data)))%nat ->
   F64.find_subset_quotient data target tolerance = Raised ValueError)
  /\ F64.find_subset_sum data target tolerance = Returned None
  /\ F64.find_subset_difference data target tolerance = None
  /\ ((tolerance * target <? 0)%float = true ->
      F64.find_subset_product data target tolerance = None)
  /\ ((0 <? target)%float = true -> (tolerance * target =? 0)%float = false ->
      F64.find_subset_product data target tolerance = None).
Proof.
  intros Htol.
  assert (Hproduct : (tolerance * target <? 0)%float = true ->
                     F64.find_subset_product data target tolerance = None).
  { intros Hneg. apply f64_product_none; apply find_all_false; intros p.
    - unfold F64.product_check2. now apply f64_abs_leb_negative.
    - unfold F64.product_check3. now apply f64_abs_leb_negative. }
  split; [|split; [|split; [|split; [exact Hproduct|]]]];
    [| | |intros Htarget Hunder; apply Hproduct;
          rewrite f64_mul_comm in Hunder |- *;
          destruct (f64_mul_pos_neg target tolerance Htarget Htol); congruence].
  - intros Hlen.
    pose proof (f64_find_subset_quotient_spec data target tolerance) as Hspec.
    cbv zeta in Hspec. rewrite Hspec, Htol.
    rewrite <- f64_filter_map_value.
    destruct (List.filter F64.nonzero (map F64.value data)) as [|a [|b t]];
      simpl in Hlen; try lia.
    reflexivity.
  - apply f64_find_subset_sum_none. intros z. unfold f64_sum_check.
    now apply f64_abs_leb_negative.
  - apply f64_find_subset_difference_none. intros p. unfold F64.difference_check.
    now apply f64_abs_leb_negative.
Qed.

Lemma f64_negative_tolerance_behaviour_witness :
  F64.find_subset_quotient [F64.A 6 1; F64.A 0 2; F64.A 3 3] 2 (-0x1.999999999999ap-4)
  = Raised ValueError
  /\ F64.find_subset_sum [F64.A 6 1; F64.A 0 2; F64.A 3 3] 2 (-0x1.999999999999ap-4)
     = Returned None
  /\ F64.find_subset_difference [F64.A 6 1; F64.A 0 2; F64.A 3 3] 2
       (-0x1.999999999999ap-4) = None
  /\ F64.find_subset_product [F64.A 6 1; F64.A 0 2; F64.A 3 3] 2
       (-0x1.999999999999ap-4) = None.
Proof.
  assert (Htol : (-0x1.999999999999ap-4 <? 0)%float = true) by reflexivity.
  destruct (f64_negative_tolerance_behaviour
              [F64.A 6 1; F64.A 0 2; F64.A 3 3] 2 (-0x1.999999999999ap-4) Htol)
    as [Hq [Hs [Hd [Hp _]]]].
  split; [apply Hq; vm_compute; lia|]. split; [exact Hs|]. split; [exact Hd|].
  apply Hp. reflexivity.
Defined.

(** C10 as stated fails for the product search, which does match under a
    negative tolerance: when the target is negative too the threshold
    [tolerance * target] is positive, and the pair [(2, -3)] is accepted
    for the target [-6] under the tolerance [-0.1]; and when the product
    underflows the pair [(2^-600, 2^-600)] is accepted for the target [0.0]
    against the threshold [-0.0]. *)
Lemma f64_product_matches_under_negative_tolerance :
  (-0x1.999999999999ap-4 <? 0)%float = true
  /\ F64.find_subset_product [F64.A 2 1; F64.A (-3) 2] (-6) (-0x1.999999999999ap-4)
     = Some [F64.A 2 1; F64.A (-3) 2]
  /\ F64.find_subset_product [F64.A 0x1p-600 1; F64.A 0x1p-600 2] 0
       (-0x1.999999999999ap-4)
     = Some [F64.A 0x1p-600 1; F64.A 0x1p-600 2].
Proof. repeat split; vm_compute; reflexivity. Qed.

(** ** Reconstruction of the lists the strategies hand over, in float64 *)

(** Every answer of a pair or triplet strategy is the answer of a call
    that [f64_handed] describes. *)
Lemma f64_strategy_answers_are_handed (data : list F64.Item)
    (target tolerance : float) (items : list F64.Item) :
  F64.find_subset_difference data target tolerance = Some items
  \/ F64.find_subset_product data target tolerance = Some items
  \/ F64.find_subset_quotient data target tolerance = Returned (Some items) ->
  exists full_data wanted,
    f64_handed data target tolerance full_data wanted
    /\ F64.reconstruct_items full_data wanted = Some items.
Proof.
  intros [H|[H|H]].
  - unfold F64.find_subset_difference in H. rewrite f64_difference_loop_find in H.
    destruct (find _ _) as [[a b]|] eqn:Hfind; [|discriminate].
    exists data, [a; b]. split; [now constructor|exact H].
  - unfold F64.find_subset_product in H.
    rewrite f64_product_pairs_loop_find, f64_product_triplets_loop_find in H.
    destruct (find (F64.product_check2 _ _) _) as [[a b]|] eqn:Hpairs;
      cbn [option_map fst snd] in H.
    + exists data, [a; b]. split; [now constructor|exact H].
    + destruct (find (F64.product_check3 _ _) _) as [[[a b] c]|] eqn:Htriplets;
        cbn [option_map fst snd] in H; [|discriminate].
      exists data, [a; b; c]. split; [now constructor|exact H].
  - pose proof (f64_find_subset_quotient_spec data target tolerance) as Hspec.
    cbv zeta in Hspec. rewrite Hspec in H. clear Hspec.
    destruct (tolerance <? 0)%float eqn:Htol.
    + destruct (combinations2 _); discriminate.
    + inversion H as [Hrec]. clear H.
      destruct (find _ _) as [[a b]|] eqn:Hfind; [|discriminate].
      eexists _, [a; b]. split; [now constructor|first [exact Hrec|reflexivity]].
Qed.

(** C2, in float64.  For every value list a strategy hands to
    Reconstruction, Reconstruction returns items of the store it was given
    (itself a selection of the Item Store), in store order, one per wanted
    value, carrying the wanted values up to order: every number occurs as
    often among the returned values as among the wanted ones.  When two
    values are wanted, the item at each output position has the wanted value
    of that position. *)
Theorem f64_reconstruct_items_matches_wanted (data : list F64.Item)
    (target tolerance : float) (full_data : list F64.Item) (wanted : list float) :
  f64_handed data target tolerance full_data wanted ->
  exists items,
    F64.reconstruct_items full_data wanted = Some items
    /\ length items = length wanted
    /\ sublist items full_data
    /\ sublist full_data data
    /\ (forall v, F64.occurrences v (map F64.value items) = F64.occurrences v wanted)
    /\ (length wanted = 2%nat ->
        Forall2 (fun item v => pyeq (F64.value item) v = true) items wanted).
Proof.
  intros H.
  assert (Hpair : forall a b x y,
             wanted = [a; b] ->
             F64.reconstruct_items full_data wanted = Some [x; y] ->
             pyeq (F64.value x) a = true -> pyeq (F64.value y) b = true ->
             sublist full_data data ->
             exists items,
               F64.reconstruct_items full_data wanted = Some items
               /\ length items = length wanted
               /\ sublist items full_data
               /\ sublist full_data data
               /\ (forall v, F64.occurrences v (map F64.value items)
                             = F64.occurrences v wanted)
               /\ (length wanted = 2%nat ->
                   Forall2 (fun item v => pyeq (F64.value item) v = true)
                           items wanted)).
  { intros a b x y -> Hxy Ex Ey Hsub.
    destruct (f64_reconstruct_items_sound _ _ _ Hxy) as [_ [S [Hlen Hocc]]].
    exists [x; y]. split; [exact Hxy|]. split; [exact Hlen|].
    split; [exact S|]. split; [exact Hsub|]. split; [exact Hocc|].
    intros _. now repeat constructor. }
  destruct H as [a b Hfind|a b Hfind|a b c Hpairs Hfind|a b Htol Hfind].
  - destruct (f64_reconstruct_pair _ (f64_difference_check_sym target tolerance)
                data a b) as [x [y [Hxy [Ex [Ey S]]]]]; [|exact Hfind|].
    + intros x y z _ _. apply f64_difference_check_compat.
    + now apply (Hpair a b x y).
  - destruct (in_combinations2 _ _ _ (proj1 (find_some _ _ Hfind))) as [Ha Hb].
    assert (Hrec := f64_reconstruct_nonzero data [a; b]).
    rewrite f64_filter_map_value in Hfind.
    destruct (f64_reconstruct_pair _ (f64_product_check2_sym target tolerance)
                (List.filter (fun item => F64.nonzero (F64.value item)) data) a b)
      as [x [y [Hxy [Ex [Ey S]]]]]; [|exact Hfind|].
    + intros x y z Hx Hy E. now rewrite (f64_nonzero_values_pyeq data x y Hx Hy E).
    + rewrite <- Hrec in Hxy by (intros v [<-|[<-|[]]]; assumption).
      now apply (Hpair a b x y).
  - pose proof (combinations3_sublist _ _ _ _ (proj1 (find_some _ _ Hfind))) as Hsub.
    destruct (f64_reconstruct_sublist data [a; b; c]) as [items Hitems];
      [discriminate| |].
    { etransitivity; [exact Hsub|apply filter_sublist]. }
    destruct (f64_reconstruct_items_sound _ _ _ Hitems) as [_ [S [Hlen Hocc]]].
    exists items. split; [exact Hitems|]. split; [exact Hlen|].
    split; [exact S|]. split; [reflexivity|]. split; [exact Hocc|].
    intros E. discriminate.
  - destruct (f64_quotient_found data target tolerance a b Hfind)
      as [x [y [Hxy [Ex [Ey S]]]]].
    apply (Hpair a b x y); trivial.
    + rewrite Ex. apply pyeq_refl.
    + rewrite Ey. apply pyeq_refl.
    + apply filter_sublist.
Qed.

Lemma f64_reconstruct_items_matches_wanted_witness :
  exists items,
    F64.reconstruct_items
      [F64.A 0x1.3333333333333p-2 1; F64.A 0x1.999999999999ap-4 2;
       F64.A 0x1.999999999999ap-3 3; F64.A 0x1.3333333333333p-2 4]
      [0x1.999999999999ap-4; 0x1.999999999999ap-3; 0x1.3333333333333p-2]%float
    = Some items
    /\ length items = 3%nat
    /\ sublist items
         [F64.A 0x1.3333333333333p-2 1; F64.A 0x1.999999999999ap-4 2;
          F64.A 0x1.999999999999ap-3 3; F64.A 0x1.3333333333333p-2 4]
    /\ forall v,
         F64.occurrences v (map F64.value items)
         = F64.occurrences v
             [0x1.999999999999ap-4; 0x1.999999999999ap-3;
              0x1.3333333333333p-2]%float.
Proof.
  destruct (f64_reconstruct_items_matches_wanted
              [F64.A 0x1.3333333333333p-2 1; F64.A 0x1.999999999999ap-4 2;
               F64.A 0x1.999999999999ap-3 3; F64.A 0x1.3333333333333p-2 4]
              0x1.89374bc6a7efbp-8 0
              [F64.A 0x1.3333333333333p-2 1; F64.A 0x1.999999999999ap-4 2;
               F64.A 0x1.999999999999ap-3 3; F64.A 0x1.3333333333333p-2 4]
              [0x1.999999999999ap-4; 0x1.999999999999ap-3;
               0x1.3333333333333p-2]%float)
    as [items [Hitems [Hlen [S [_ [Hocc _]]]]]].
  - apply f64_handed_product_triplet; vm_compute; reflexivity.
  - exists items. repeat split; assumption.
Defined.

(** C2 as stated fails: on the store [0.3, 0.1, 0.2, 0.3] with target
    [0.006000000000000001] and tolerance [0] the product search hands the
    triplet [(0.1, 0.2, 0.3)] to Reconstruction, which returns the first
    three items: the first returned item has the value [0.3], not the
    wanted [0.1]. *)
Lemma f64_reconstruct_positions_counterexample :
  let d1 := F64.A 0x1.3333333333333p-2 1 in
  let d2 := F64.A 0x1.999999999999ap-4 2 in
  let d3 := F64.A 0x1.999999999999ap-3 3 in
  let d4 := F64.A 0x1.3333333333333p-2 4 in
  let wanted := [F64.value d2; F64.value d3; F64.value d4] in
  f64_handed [d1; d2; d3; d4] 0x1.89374bc6a7efbp-8 0 [d1; d2; d3; d4] wanted
  /\ F64.reconstruct_items [d1; d2; d3; d4] wanted = Some [d1; d2; d3]
  /\ ~ Forall2 (fun item v => pyeq (F64.value item) v = true) [d1; d2; d3] wanted.
Proof.
  cbv zeta. split; [apply f64_handed_product_triplet; vm_compute; reflexivity|].
  split; [vm_compute; reflexivity|].
  intros H. inversion H as [|? ? ? ? Hhead _]. vm_compute in Hhead. discriminate.
Qed.


(** ** The orchestrator in float64 *)

(** Every answer of a strategy is a non-empty selection of items of the
    store, in store order. *)
Lemma f64_dispatch_sublist (data : list F64.Item) (target : float)
    (operation : string) (tolerance : float) (items : list F64.Item) :
  F64.dispatch data target operation tolerance = Returned (Some items) ->
  items <> [] /\ sublist items data.
Proof.
  unfold F64.dispatch.
  destruct (String.eqb operation "sum").
  { intros H.
    pose proof (f64_find_subset_sum_spec data target tolerance) as Hspec.
    rewrite H in Hspec.
    destruct Hspec as [pre [x [post [l [-> [-> [Hsub _]]]]]]].
    split; [intros E; now apply app_eq_nil in E as [_ E]|].
    apply sublist_app; [exact Hsub|apply sublist_skip, sublist_nil_l]. }
  destruct (String.eqb operation "product").
  { intros H. inversion H as [H']. clear H.
    unfold F64.find_subset_product in H'.
    rewrite f64_product_pairs_loop_find, f64_product_triplets_loop_find in H'.
    destruct (find (F64.product_check2 _ _) _) as [[a b]|];
      cbn [option_map fst snd] in H'.
    - destruct (f64_reconstruct_items_sound _ _ _ H') as [Hne [S _]]. now split.
    - destruct (find (F64.product_check3 _ _) _) as [[[a b] c]|];
        cbn [option_map fst snd] in H'; [|discriminate].
      destruct (f64_reconstruct_items_sound _ _ _ H') as [Hne [S _]]. now split. }
  destruct (String.eqb operation "difference").
  { intros H. inversion H as [H']. clear H.
    unfold F64.find_subset_difference in H'.
    rewrite f64_difference_loop_find in H'.
    destruct (find _ _) as [[a b]|]; [|discriminate].
    destruct (f64_reconstruct_items_sound _ _ _ H') as [Hne [S _]]. now split. }
  destruct (String.eqb operation "quotient"); [|discriminate].
  intros H.
  pose proof (f64_find_subset_quotient_spec data target tolerance) as Hspec.
  cbv zeta in Hspec. rewrite Hspec in H. clear Hspec.
  destruct (tolerance <? 0)%float.
  - destruct (combinations2 _); discriminate.
  - inversion H as [H']. clear H.
    destruct (find _ _) as [[a b]|]; [|discriminate].
    destruct (f64_reconstruct_items_sound _ _ _ H') as [Hne [S _]].
    split; [exact Hne|]. etransitivity; [exact S|apply filter_sublist].
Qed.

Lemma f64_find_subsets_loop_spec (data : list F64.Item) (operation : string)
    (tolerance : float) :
  forall (targets : list float) (results out : list (float * list F64.Item)),
    F64.find_subsets_loop data targets operation tolerance results = Returned out ->
    exists new,
      out = results ++ new
      /\ sublist (map fst new) targets
      /\ (forall target items, In (target, items) new ->
            F64.dispatch data target operation tolerance = Returned (Some items))
      /\ (forall target, In target targets ->
            exists r, F64.dispatch data target operation tolerance = Returned r)
      /\ (forall target items, In target targets ->
            F64.dispatch data target operation tolerance = Returned (Some items) ->
            items <> [] -> In (target, items) new).
Proof.
  induction targets as [|target rest IH]; intros results out H.
  - inversion H. exists []. rewrite app_nil_r. repeat split; try easy.
  - cbn [F64.find_subsets_loop] in H.
    destruct (F64.dispatch data target operation tolerance) as [subset|e] eqn:Hd;
      [|discriminate].
    cbn [bind] in H.
    destruct subset as [[|i items]|].
    + cbn [F64.truthy] in H. destruct (IH _ _ H) as [new [-> [Hs [Hd' [Hr Hc]]]]].
      exists new. split; [reflexivity|]. split; [now apply sublist_cons|].
      split; [exact Hd'|]. split.
      * intros t [<-|Ht]; [eauto|now apply Hr].
      * intros t its [<-|Ht] Hits Hne; [|now apply Hc].
        rewrite Hd in Hits. inversion Hits; subst. now destruct Hne.
    + cbn [F64.truthy] in H. destruct (IH _ _ H) as [new [-> [Hs [Hd' [Hr Hc]]]]].
      exists ((target, i :: items) :: new).
      split; [now rewrite <- app_assoc|].
      split; [now apply sublist_skip|]. split.
      * intros t its [E|Hin]; [inversion E; subst; exact Hd|now apply Hd'].
      * split.
        -- intros t [<-|Ht]; [eauto|now apply Hr].
        -- intros t its [<-|Ht] Hits Hne.
           ++ rewrite Hd in Hits. inversion Hits; subst. now left.
           ++ right. now apply Hc.
    + destruct (IH _ _ H) as [new [-> [Hs [Hd' [Hr Hc]]]]].
      exists new. split; [reflexivity|]. split; [now apply sublist_cons|].
      split; [exact Hd'|]. split.
      * intros t [<-|Ht]; [eauto|now apply Hr].
      * intros t its [<-|Ht] Hits Hne; [|now apply Hc].
        rewrite Hd in Hits. discriminate.
Qed.

(** X21.  In float64 too, what [find_subsets] returns is made of the
    answers of the selected strategy: the targets of the entries are
    targets of the list, in the order of the list; an entry [(target,
    items)] is there exactly when the strategy answered [items] for that
    target; and the items of every entry are a non-empty selection of
    items of the store, in store order. *)
Theorem f64_find_subsets_collects_matches (data : list F64.Item)
    (targets : list float) (operation : string) (tolerance : float)
    (results : list (float * list F64.Item)) :
  F64.find_subsets data targets operation tolerance = Returned results ->
  sublist (map fst results) targets
  /\ (forall target items,
        In (target, items) results
        <-> In target targets
            /\ F64.dispatch data target operation tolerance = Returned (Some items))
  /\ (forall target items, In (target, items) results ->
        items <> [] /\ sublist items data).
Proof.
  intros H. unfold F64.find_subsets in H.
  destruct (f64_find_subsets_loop_spec _ _ _ _ _ _ H) as [new [-> [Hs [Hd [_ Hc]]]]].
  cbn [app]. split; [exact Hs|].
  assert (Hin : forall target items, In (target, items) new -> In target targets).
  { intros t its Hi. apply (sublist_In _ _ _ Hs).
    apply in_map_iff. now exists (t, its). }
  split.
  - intros t its. split.
    + intros Hi. split; [now apply (Hin t its)|now apply Hd].
    + intros [Ht Hits]. apply Hc; trivial.
      now apply (f64_dispatch_sublist _ _ _ _ _ Hits).
  - intros t its Hi. apply (f64_dispatch_sublist data t operation tolerance).
    now apply Hd.
Qed.

Lemma f64_find_subsets_collects_matches_witness :
  sublist (map fst [(0x1.3333333333334p-2, [F64.A 0x1.999999999999ap-4 1;
                                            F64.A 0x1.999999999999ap-3 2])]%float)
          [100; 0x1.3333333333334p-2]%float
  /\ [F64.A 0x1.999999999999ap-4 1; F64.A 0x1.999999999999ap-3 2] <> []
  /\ sublist [F64.A 0x1.999999999999ap-4 1; F64.A 0x1.999999999999ap-3 2]
             [F64.A 0x1.999999999999ap-4 1; F64.A 0x1.999999999999ap-3 2;
              F64.A 7 3].
Proof.
  destruct (f64_find_subsets_collects_matches
              [F64.A 0x1.999999999999ap-4 1; F64.A 0x1.999999999999ap-3 2;
               F64.A 7 3]
              [100; 0x1.3333333333334p-2]%float "sum" 0
              [(0x1.3333333333334p-2, [F64.A 0x1.999999999999ap-4 1;
                                       F64.A 0x1.999999999999ap-3 2])]%float)
    as (Hs & _ & Hitems).
  - vm_compute. reflexivity.
  - split; [exact Hs|]. apply (Hitems 0x1.3333333333334p-2%float). now left.
Defined.

(** ** Product search with the target zero, in float64 *)



